(** * The xv6 buffer cache (kernel/bio.c), sharded into NBUCKET hash buckets

    A shallow embedding of [kernel/bio.c]: the initialisation [binit],
    the lock-ordering predicate [can_lock], the lookup / eviction routine
    [bget], and the public operations [bread], [bwrite], [brelse], [bpin]
    and [bunpin].

    Pointers to [struct buf] are indices into [bcache.buf]; the singly linked
    chain hanging off [bcache.bucket[i].next] is the list of the indices it
    links, in order.  Calls into the spinlock, sleeplock and disk layers are
    recorded in a trace. *)

From stdpp Require Import base list strings relations.
From Stdlib Require Import ZArith Lia.

Local Open Scope Z_scope.

(** ** Constants *)

(** [#define NBUCKET 13] *)
Definition NBUCKET : Z := 13.

(** The literal [0xffffffff] that seeds [min_tick] in [bget]. *)
Definition UINT_MAX : Z := 4294967295.

(** ** The lock-ordering predicate *)

(** [int can_lock(int cur_idx, int req_idx)].  Every call site passes
    indices in [0, NBUCKET), so the two sums stay far below [2^31] and
    C's [int] arithmetic agrees with the arithmetic of [Z]. *)
Definition can_lock (cur_idx req_idx : Z) : Z :=
  let mid := NBUCKET ÷ 2 in
  if cur_idx =? req_idx then 0
  else if cur_idx <? req_idx then
    if req_idx <=? cur_idx + mid then 0 else 1
  else
    if cur_idx >=? req_idx + mid then 0 else 1.

(** Forward cyclic distance from shard [c] to shard [r] on the ring of
    [NBUCKET] shards. *)
Definition ring_distance (c r : Z) : Z := (r - c) mod NBUCKET.

(** ** Data model *)

(** Modelled from the spec: [struct buf] is declared in kernel/buf.h, which
    is not among the sources; the fields are the ones bio.c touches, and
    they are the fields of the specification's Buffer (deviceId,
    blockNumber, validFlag, referenceCount, idleTimestamp, exclusiveLock,
    payload).  The content lock records the pid of its holder, if any.
    The chain link [next] is carried by the bucket chains of [machine]. *)
Record buf : Type := mkbuf {
  b_valid : Z;
  b_dev : Z;
  b_blockno : Z;
  b_lock : option Z;
  b_refcnt : Z;
  b_time : Z;
  b_data : list Z;
}.

(** A [struct buf] as it sits in zero-initialised memory. *)
Definition buf0 : buf := mkbuf 0 0 0 None 0 0 [].

(** Calls that leave the buffer cache.  A spinlock event carries the state
    of the array [bcache.lock] right after the call. *)
Inductive event : Type :=
| Acquire (i : Z) (now : list bool)
| Release (i : Z) (now : list bool)
| AcquireSleep (b : nat)
| ReleaseSleep (b : nat)
| DiskRead (b : nat)
| DiskWrite (b : nat).

(** The global [bcache], the global [ticks], the disk behind
    [virtio_disk_rw], and the trace of calls made so far.
    [bcache_lock !! i] tells whether the running CPU holds
    [bcache.lock[i]]; [bcache_bucket !! i] is the chain of
    [bcache.bucket[i]]. *)
Record machine : Type := mkmachine {
  bcache_lock : list bool;
  bcache_buf : list buf;
  bcache_bucket : list (list nat);
  ticks : Z;
  disk : Z → Z → list Z;
  trace : list event;
}.

(** How a kernel routine ends: it returns, the kernel panics, the caller
    goes to sleep inside [acquiresleep] waiting for the holder of a content
    lock, or a null pointer is dereferenced. *)
Inductive outcome (A : Type) : Type :=
| Done (a : A) (s : machine)
| Panic (msg : string) (s : machine)
| Sleeping (b : nat) (s : machine)
| Fault (s : machine).
Arguments Done {A} a s.
Arguments Panic {A} msg s.
Arguments Sleeping {A} b s.
Arguments Fault {A} s.

Definition final_state {A : Type} (o : outcome A) : machine :=
  match o with
  | Done _ s | Panic _ s | Sleeping _ s | Fault s => s
  end.

(** ** Field updates *)

Definition with_lock (l : list bool) (s : machine) : machine :=
  mkmachine l (bcache_buf s) (bcache_bucket s) (ticks s) (disk s) (trace s).
Definition with_buf (l : list buf) (s : machine) : machine :=
  mkmachine (bcache_lock s) l (bcache_bucket s) (ticks s) (disk s) (trace s).
Definition with_bucket (l : list (list nat)) (s : machine) : machine :=
  mkmachine (bcache_lock s) (bcache_buf s) l (ticks s) (disk s) (trace s).
Definition with_ticks (t : Z) (s : machine) : machine :=
  mkmachine (bcache_lock s) (bcache_buf s) (bcache_bucket s) t (disk s) (trace s).
Definition with_disk (d : Z → Z → list Z) (s : machine) : machine :=
  mkmachine (bcache_lock s) (bcache_buf s) (bcache_bucket s) (ticks s) d (trace s).
Definition log (e : event) (s : machine) : machine :=
  mkmachine (bcache_lock s) (bcache_buf s) (bcache_bucket s) (ticks s) (disk s)
    (trace s ++ [e]).

(** [*b] for a pointer into [bcache.buf]. *)
Definition getbuf (s : machine) (b : nat) : buf :=
  default buf0 (bcache_buf s !! b).
Definition setbuf (b : nat) (bf : buf) (s : machine) : machine :=
  with_buf (<[b := bf]> (bcache_buf s)) s.

Definition set_valid (v : Z) (bf : buf) : buf :=
  mkbuf v (b_dev bf) (b_blockno bf) (b_lock bf) (b_refcnt bf) (b_time bf) (b_data bf).
Definition set_lock (l : option Z) (bf : buf) : buf :=
  mkbuf (b_valid bf) (b_dev bf) (b_blockno bf) l (b_refcnt bf) (b_time bf) (b_data bf).
Definition set_refcnt (r : Z) (bf : buf) : buf :=
  mkbuf (b_valid bf) (b_dev bf) (b_blockno bf) (b_lock bf) r (b_time bf) (b_data bf).
Definition set_time (t : Z) (bf : buf) : buf :=
  mkbuf (b_valid bf) (b_dev bf) (b_blockno bf) (b_lock bf) (b_refcnt bf) t (b_data bf).
Definition set_data (d : list Z) (bf : buf) : buf :=
  mkbuf (b_valid bf) (b_dev bf) (b_blockno bf) (b_lock bf) (b_refcnt bf) (b_time bf) d.

(** The chain of [bcache.bucket[i]], head first. *)
Definition chain (s : machine) (i : Z) : list nat :=
  default [] (bcache_bucket s !! Z.to_nat i).
Definition set_chain (i : Z) (c : list nat) (s : machine) : machine :=
  with_bucket (<[Z.to_nat i := c]> (bcache_bucket s)) s.

(** ** Spinlocks, sleeplocks and the disk *)

(** Modelled from the spec: kernel/spinlock.c is not among the sources.
    A shard's metadata lock is either held by the running CPU or not;
    [acquire] takes it, [release] drops it, [holding] asks for it. *)
Definition acquire (i : Z) (s : machine) : machine :=
  let l := <[Z.to_nat i := true]> (bcache_lock s) in
  log (Acquire i l) (with_lock l s).
Definition release (i : Z) (s : machine) : machine :=
  let l := <[Z.to_nat i := false]> (bcache_lock s) in
  log (Release i l) (with_lock l s).
Definition holding (i : Z) (s : machine) : bool :=
  default false (bcache_lock s !! Z.to_nat i).

(** Number of shard locks held in a snapshot of [bcache.lock]. *)
Fixpoint nheld (l : list bool) : nat :=
  match l with
  | [] => 0
  | h :: l' => (if h then 1 else 0) + nheld l'
  end.

(** The snapshots of [bcache.lock] taken by the spinlock calls of a trace:
    one per instant at which the set of held shard locks changes. *)
Definition snapshots (t : list event) : list (list bool) :=
  omap (λ e, match e with
             | Acquire _ l | Release _ l => Some l
             | _ => None
             end) t.

(** Modelled from the spec: kernel/sleeplock.c is not among the sources.
    The content lock is exclusive; a caller [p] that finds it taken is
    suspended until the holder releases it. *)
Definition acquiresleep (p : Z) (b : nat) (s : machine) : outcome nat :=
  match b_lock (getbuf s b) with
  | None => Done b (log (AcquireSleep b) (setbuf b (set_lock (Some p) (getbuf s b)) s))
  | Some _ => Sleeping b s
  end.
Definition releasesleep (b : nat) (s : machine) : machine :=
  log (ReleaseSleep b) (setbuf b (set_lock None (getbuf s b)) s).
Definition holdingsleep (p : Z) (b : nat) (s : machine) : bool :=
  bool_decide (b_lock (getbuf s b) = Some p).

(** Modelled from the spec: kernel/virtio_disk.c is not among the sources.
    The disk interface is synchronous: a read fills the payload with the
    block named by the buffer's identity, a write stores the payload
    there. *)
Definition virtio_disk_rw (b : nat) (write : bool) (s : machine) : machine :=
  let bf := getbuf s b in
  if write then
    log (DiskWrite b)
      (with_disk (λ d n, if (d =? b_dev bf) && (n =? b_blockno bf)
                         then b_data bf else disk s d n) s)
  else
    log (DiskRead b) (setbuf b (set_data (disk s (b_dev bf) (b_blockno bf)) bf) s).

(** ** bio.c *)

(** The shard indices [0 .. NBUCKET-1], in the order of the [for] loops. *)
Definition bucket_ids : list Z := Z.of_nat <$> seq 0 (Z.to_nat NBUCKET).

(** Modelled from the spec: [initlock] (kernel/spinlock.c) and
    [initsleeplock] (kernel/sleeplock.c) are not among the sources; each
    leaves the lock it is given free and writes nothing else. *)
Definition initlock (i : Z) (s : machine) : machine :=
  with_lock (<[Z.to_nat i := false]> (bcache_lock s)) s.
Definition initsleeplock (b : nat) (s : machine) : machine :=
  setbuf b (set_lock None (getbuf s b)) s.

(** Body of the second loop of [binit], for buffer [i].  The cursor [b]
    stands [i] links behind [bcache.bucket[0]]; [b->next = &bcache.buf[i]]
    makes buffer [i] the link that follows it, and [initsleeplock] frees
    the content lock of buffer [i].  No other field of the buffer is
    written, and no other bucket.  The field [bcache.buf[i].next] is not
    written either: [bcache] has static storage, so [binit] finds it null,
    and a chain of this model carries no link behind a buffer that no chain
    holds. *)
Definition binit_link (s : machine) (i : nat) : machine :=
  initsleeplock i (set_chain 0 (take i (chain s 0) ++ [i]) s).

(** [void binit(void)]: [initlock] on the [NBUCKET] spinlocks, then the
    loop that links the [NBUF] buffers behind [bcache.bucket[0]].  [NBUF]
    comes from kernel/param.h, which is not among the sources, and is a
    parameter. *)
Definition binit (NBUF : nat) (s : machine) : machine :=
  foldl binit_link (foldl (λ s i, initlock i s) s bucket_ids) (seq 0 NBUF).

(** The first loop of [bget]: walk a chain for a buffer caching
    [(dev, blockno)]. *)
Fixpoint lookup (s : machine) (dev blockno : Z) (c : list nat) : option nat :=
  match c with
  | [] => None
  | b :: c' =>
      if (b_dev (getbuf s b) =? dev) && (b_blockno (getbuf s b) =? blockno)
      then Some b
      else lookup s dev blockno c'
  end.

(** The locals [index] and [min_tick] of [bget]. *)
Record scan : Type := mkscan { index : Z; min_tick : Z }.

(** Body of the inner [while] of the eviction scan, for buffer [b] of
    bucket [j]. *)
Definition scan_buf (j : Z) (b : nat) (sc : scan) (s : machine) : scan * machine :=
  if b_refcnt (getbuf s b) =? 0 then
    if b_time (getbuf s b) <? min_tick sc then
      let s1 :=
        if negb (index sc =? -1) && negb (index sc =? j) && holding (index sc) s
        then release (index sc) s else s in
      (mkscan j (b_time (getbuf s b)), s1)
    else (sc, s)
  else (sc, s).

Fixpoint scan_chain (j : Z) (c : list nat) (sc : scan) (s : machine) : scan * machine :=
  match c with
  | [] => (sc, s)
  | b :: c' => let '(sc1, s1) := scan_buf j b sc s in scan_chain j c' sc1 s1
  end.

(** The [for] loop of the eviction scan started by a request that hashes
    to [bucket_id], over the remaining shard indices [js]. *)
Fixpoint scan_buckets (bucket_id : Z) (js : list Z) (sc : scan) (s : machine)
  : scan * machine :=
  match js with
  | [] => (sc, s)
  | j :: js' =>
      if can_lock bucket_id j =? 0 then scan_buckets bucket_id js' sc s
      else
        let s1 := acquire j s in
        let '(sc2, s2) := scan_chain j (chain s1 j) sc s1 in
        let s3 :=
          if negb (j =? index sc2) && holding j s2 then release j s2 else s2 in
        scan_buckets bucket_id js' sc2 s3
  end.

(** The loop that takes the victim out of its chain: the first buffer with
    [refcnt == 0 && time == min_tick], and the chain without it. *)
Fixpoint unlink (s : machine) (mt : Z) (c : list nat) : option (nat * list nat) :=
  match c with
  | [] => None
  | b :: c' =>
      if (b_refcnt (getbuf s b) =? 0) && (b_time (getbuf s b) =? mt)
      then Some (b, c')
      else match unlink s mt c' with
           | Some (m, r) => Some (m, b :: r)
           | None => None
           end
  end.

(** The four assignments that give the victim its new identity. *)
Definition recycle (dev blockno : Z) (bf : buf) : buf :=
  mkbuf 0 dev blockno (b_lock bf) 1 (b_time bf) (b_data bf).

Section Bio.

(** Width in bits of the unsigned field [refcnt]; kernel/buf.h, which
    declares it, is not among the sources. *)
Variable w : Z.

Definition uint (x : Z) : Z := x mod 2 ^ w.

(** [static struct buf* bget(uint dev, uint blockno)], called by process [p]. *)
Definition bget (p : Z) (dev blockno : Z) (s : machine) : outcome nat :=
  let bucket_id := blockno mod NBUCKET in
  let s := acquire bucket_id s in
  match lookup s dev blockno (chain s bucket_id) with
  | Some b =>
      let s := setbuf b (set_refcnt (uint (b_refcnt (getbuf s b) + 1)) (getbuf s b)) s in
      let s := release bucket_id s in
      acquiresleep p b s
  | None =>
      let '(sc, s) := scan_buckets bucket_id bucket_ids (mkscan (-1) UINT_MAX) s in
      if index sc =? -1 then Panic "bget: no buffers" s
      else
        match unlink s (min_tick sc) (chain s (index sc)) with
        | None => Fault s
        | Some (move, rest) =>
            let s := setbuf move (recycle dev blockno (getbuf s move)) s in
            let s := set_chain (index sc) rest s in
            let s := release (index sc) s in
            let s := set_chain bucket_id (chain s bucket_id ++ [move]) s in
            let s := release bucket_id s in
            acquiresleep p move s
        end
  end.

(** [struct buf* bread(uint dev, uint blockno)] *)
Definition bread (p : Z) (dev blockno : Z) (s : machine) : outcome nat :=
  match bget p dev blockno s with
  | Done b s =>
      if b_valid (getbuf s b) =? 0 then
        let s := virtio_disk_rw b false s in
        Done b (setbuf b (set_valid 1 (getbuf s b)) s)
      else Done b s
  | o => o
  end.

(** [void bwrite(struct buf *b)] *)
Definition bwrite (p : Z) (b : nat) (s : machine) : outcome unit :=
  if negb (holdingsleep p b s) then Panic "bwrite" s
  else Done tt (virtio_disk_rw b true s).

(** [void brelse(struct buf *b)] *)
Definition brelse (p : Z) (b : nat) (s : machine) : outcome unit :=
  if negb (holdingsleep p b s) then Panic "brelse" s
  else
    let s := releasesleep b s in
    let bucket_id := b_blockno (getbuf s b) mod NBUCKET in
    let s := acquire bucket_id s in
    let s := setbuf b (set_refcnt (uint (b_refcnt (getbuf s b) - 1)) (getbuf s b)) s in
    let s :=
      if b_refcnt (getbuf s b) =? 0
      then setbuf b (set_time (ticks s) (getbuf s b)) s else s in
    Done tt (release bucket_id s).

(** [void bpin(struct buf *b)] *)
Definition bpin (b : nat) (s : machine) : machine :=
  let bucket_id := b_blockno (getbuf s b) mod NBUCKET in
  let s := acquire bucket_id s in
  let s := setbuf b (set_refcnt (uint (b_refcnt (getbuf s b) + 1)) (getbuf s b)) s in
  release bucket_id s.

(** [void bunpin(struct buf *b)] *)
Definition bunpin (b : nat) (s : machine) : machine :=
  let bucket_id := b_blockno (getbuf s b) mod NBUCKET in
  let s := acquire bucket_id s in
  let s := setbuf b (set_refcnt (uint (b_refcnt (getbuf s b) - 1)) (getbuf s b)) s in
  release bucket_id s.

End Bio.

(** ** Vocabulary of the properties *)

(** Two machines with the same buffers, chains, clock and disk; only the
    spinlock array and the trace may differ. *)
Definition same_data (s s' : machine) : Prop :=
  bcache_buf s' = bcache_buf s ∧ bcache_bucket s' = bcache_bucket s ∧
  ticks s' = ticks s ∧ disk s' = disk s.

(** Well-formed cache: [NBUCKET] chains, no buffer linked twice (a buffer
    has a single [next] field), every chained pointer points into
    [bcache.buf], and every buffer is chained in the shard its block
    number hashes to. *)
Definition wf (s : machine) : Prop :=
  length (bcache_bucket s) = Z.to_nat NBUCKET ∧
  NoDup (concat (bcache_bucket s)) ∧
  (∀ b, b ∈ concat (bcache_bucket s) → (b < length (bcache_buf s))%nat) ∧
  (∀ j b, 0 <= j < NBUCKET → b ∈ chain s j →
          b_blockno (getbuf s b) mod NBUCKET = j).

(** The caller holds no shard lock. *)
Definition unlocked (s : machine) : Prop :=
  bcache_lock s = replicate (Z.to_nat NBUCKET) false.

(** The request for [(dev, blockno)] is not cached in its target shard. *)
Definition miss (dev blockno : Z) (s : machine) : Prop :=
  lookup s dev blockno (chain s (blockno mod NBUCKET)) = None.

(** The scan started by a request that hashes to shard [c] inspects shard
    [j]: the lock-ordering rule lets the holder of [c] take [j]. *)
Definition scanned (c j : Z) : Prop := 0 <= j < NBUCKET ∧ can_lock c j = 1.

(** Buffer [b] is chained in shard [j] with reference count zero. *)
Definition idle_in (s : machine) (j : Z) (b : nat) : Prop :=
  b ∈ chain s j ∧ b_refcnt (getbuf s b) = 0.

(** The request misses and [bget] recycles buffer [v] for it: it comes
    back with [v], or sleeps on the content lock of [v]. *)
Definition evicts (w p dev blockno : Z) (s : machine) (v : nat) : Prop :=
  miss dev blockno s ∧
  ∃ s', bget w p dev blockno s = Done v s' ∨
        bget w p dev blockno s = Sleeping v s'.

Definition panics {A : Type} (o : outcome A) : Prop :=
  ∃ msg s', o = Panic msg s'.

(** Every snapshot of [bcache.lock] taken between [s] and [s'] shows at
    most [n] shard locks held. *)
Definition locks_bounded (n : nat) (s s' : machine) : Prop :=
  ∃ t, trace s' = trace s ++ t ∧ Forall (λ l, (nheld l <= n)%nat) (snapshots t).

(** Lock bookkeeping of the eviction scan started from shard [c], between
    two shards: the locks held are the lock of [c] and, once a candidate is
    known, the lock of the candidate's shard [index]. *)
Definition between_shards (c : Z) (sc : scan) (s : machine) : Prop :=
  length (bcache_lock s) = Z.to_nat NBUCKET ∧
  (index sc = -1 ∨ 0 <= index sc ∧ index sc ≠ c) ∧
  holding c s = true ∧
  (nheld (bcache_lock s) <= if (index sc =? -1)%Z then 1 else 2)%nat ∧
  (index sc ≠ -1 → holding (index sc) s = true).

(** Lock bookkeeping while the scan walks the chain of shard [j]: the lock
    of [j] comes on top. *)
Definition within_shard (c j : Z) (sc : scan) (s : machine) : Prop :=
  length (bcache_lock s) = Z.to_nat NBUCKET ∧
  (index sc = -1 ∨ 0 <= index sc ∧ index sc ≠ c) ∧
  holding c s = true ∧
  holding j s = true ∧
  (index sc = j → (nheld (bcache_lock s) <= 2)%nat) ∧
  (index sc ≠ j →
   (nheld (bcache_lock s) <= if (index sc =? -1)%Z then 2 else 3)%nat ∧
   (index sc ≠ -1 → holding (index sc) s = true)).

(** *** Two properties the code does not have, worded as the
    specification words them *)

(** Global LRU: the victim is the oldest unreferenced buffer of the whole
    pool, every shard included. *)
Definition global_lru (w p dev blockno : Z) (s : machine) : Prop :=
  ∀ v, evicts w p dev blockno s v →
  ∀ j b, 0 <= j < NBUCKET → idle_in s j b →
         b_time (getbuf s v) <= b_time (getbuf s b).

(** A miss panics exactly when no buffer of the pool is unreferenced. *)
Definition panics_iff_pool_exhausted (w p dev blockno : Z) (s : machine) : Prop :=
  miss dev blockno s →
  (panics (bget w p dev blockno s) ↔
   ¬ ∃ j b, 0 <= j < NBUCKET ∧ idle_in s j b).

(** ** Sample machines *)

(** The memory of [bcache] as the kernel finds it, zero-filled (static
    storage): no spinlock held, [NBUF] buffers with every field zero,
    every [next] null; the clock at 0, an empty disk, nothing traced. *)
Definition zero_memory (NBUF : nat) : machine :=
  mkmachine (replicate (Z.to_nat NBUCKET) false) (replicate NBUF buf0)
    (replicate (Z.to_nat NBUCKET) []) 0 (λ _ _, []) [].

(** Memory before [binit], for a pool of 30 buffers. *)
Definition m0 : machine := zero_memory 30.

(** A pool of 30 buffers right after [binit]. *)
Definition s_boot : machine := binit 30 m0.

(** Process 1 has read block 1 of device 1 and still holds buffer 0, now
    chained in shard 1; the clock has advanced to tick 5. *)
Definition s_held : machine :=
  with_ticks 5 (final_state (bread 32 1 1 1 s_boot)).

(** Process 1 has released the buffer at tick 5: buffer 0 sits idle in
    shard 1, the 29 others idle in shard 0 with timestamp 0. *)
Definition s_idle : machine := final_state (brelse 32 1 0 s_held).

(** Process 1 has read blocks 1 and 14 of device 1 into buffers 0 and 1,
    both chained in shard 1, and has released buffer 1 at tick 5 and
    buffer 0 at tick 9: the least recently released buffer of shard 1 is
    not the head of its chain. *)
Definition s_two : machine :=
  final_state (brelse 32 1 0 (with_ticks 9
    (final_state (brelse 32 1 1 (with_ticks 5
      (final_state (bread 32 1 1 14
        (final_state (bread 32 1 1 1 s_boot))))))))).

(** ** Further vocabulary *)

(** The request for [(dev, blockno)] is cached in buffer [b]: the walk of
    the target chain stops at [b]. *)
Definition cached (dev blockno : Z) (s : machine) (b : nat) : Prop :=
  lookup s dev blockno (chain s (blockno mod NBUCKET)) = Some b.

(** The shard locks a trace acquires, in order. *)
Definition acquired (t : list event) : list Z :=
  omap (λ e, match e with Acquire i _ => Some i | _ => None end) t.

(** The buffers a trace reads from the disk, in order. *)
Definition disk_reads (t : list event) : list nat :=
  omap (λ e, match e with DiskRead b => Some b | _ => None end) t.

(** The shards the scan started from shard [c] locks, in the order of the
    [for] loop. *)
Definition scan_order (c : Z) : list Z :=
  filter (λ j, can_lock c j = 1) bucket_ids.

(** The holder of the lock of shard [c] may go on to take the lock of
    shard [r]. *)
Definition may_lock (c r : Z) : Prop :=
  0 <= c < NBUCKET ∧ 0 <= r < NBUCKET ∧ can_lock c r = 1.

(** The rule is free of lock cycles, as the specification has it: no shard
    reaches itself through acquisitions the rule allows. *)
Definition no_lock_cycle : Prop := ∀ c, ¬ tc may_lock c c.

(** The part of the trace of [s'] that was added since [s]. *)
Definition since (s s' : machine) : list event :=
  drop (length (trace s)) (trace s').

(** A spinlock event, as opposed to a sleeplock or a disk event. *)
Definition lock_event (e : event) : Prop :=
  match e with
  | Acquire _ _ | Release _ _ => True
  | _ => False
  end.

(** Buffer [v] is the only chained buffer that carries the identity
    [(dev, blockno)]. *)
Definition sole_entry (dev blockno : Z) (s : machine) (v : nat) : Prop :=
  ∀ j x, 0 <= j < NBUCKET → x ∈ chain s j →
         b_dev (getbuf s x) = dev → b_blockno (getbuf s x) = blockno →
         x = v.

(** Every [next] field of [bcache] is null: no bucket links a buffer. *)
Definition zero_links (s : machine) : Prop :=
  bcache_bucket s = replicate (Z.to_nat NBUCKET) [].

(** The memory of [bcache] is zero-filled, as static storage is when the
    kernel starts: no spinlock held, [NBUF] buffers with every field zero,
    every [next] null. *)
Definition zero_filled (NBUF : nat) (s : machine) : Prop :=
  bcache_lock s = replicate (Z.to_nat NBUCKET) false ∧
  bcache_buf s = replicate NBUF buf0 ∧
  zero_links s.

(** A memory that is not zero-filled: buffer 3 of the pool of 30 carries
    block 13 of device 2, three references, a taken content lock and a
    payload. *)
Definition m_stale : machine :=
  setbuf 3 (mkbuf 1 2 13 (Some 9) 3 8 [1; 2]) m0.

(** Process 1, holding buffer 0 for block 1 of device 1 in [s_held], has
    filled its payload; the disk still has the empty block. *)
Definition s_modified : machine :=
  setbuf 0 (set_data [7; 7; 7] (getbuf s_held 0)) s_held.

(** Process 1 has then written the buffer and released it, and process 3
    has read block 6 of device 1, which recycled buffer 0: block 1 is no
    longer cached. *)
Definition s_evicted : machine :=
  final_state (bread 32 3 1 6
    (final_state (brelse 32 1 0 (final_state (bwrite 1 0 s_modified))))).

(** ** Which shard locks are held, and when *)

(** The lock of shard [c] is held in a snapshot of [bcache.lock]. *)
Definition holds_lock (c : Z) (l : list bool) : Prop :=
  l !! Z.to_nat c = Some true.

(** Every snapshot of [bcache.lock] taken between [s] and [s'] shows the
    lock of shard [c] held. *)
Definition kept (c : Z) (s s' : machine) : Prop :=
  ∃ t, trace s' = trace s ++ t ∧ Forall (holds_lock c) (snapshots t).

(** The call that started in [s] and ended as [o] has kept the lock of
    shard [c] from its first spinlock call to its last: every snapshot but
    the last shows the lock held, and the last one shows no shard lock
    held; when the call does not get as far as the content lock (it
    panics) the lock is still held at the end. *)
Definition target_kept (c : Z) (s : machine) (o : outcome nat) : Prop :=
  ∃ t, trace (final_state o) = trace s ++ t ∧
    match o with
    | Panic _ _ | Fault _ => Forall (holds_lock c) (snapshots t)
    | Done _ _ | Sleeping _ _ =>
        ∃ ls, snapshots t = ls ++ [replicate (Z.to_nat NBUCKET) false] ∧
              Forall (holds_lock c) ls
    end.

(** The caller holds the locks of the shards listed in [ls] and of no
    other shard. *)
Definition holds_exactly (s : machine) (ls : list Z) : Prop :=
  ∀ i, 0 <= i < NBUCKET → (holding i s = true ↔ i ∈ ls).

(** The shard locks the caller holds, in index order. *)
Definition held_locks (s : machine) : list Z :=
  filter (λ i, holding i s = true) bucket_ids.

(** The shard of the best candidate of a scan, if it has one. *)
Definition candidate (sc : scan) : list Z :=
  if index sc =? -1 then [] else [index sc].

(** The scan of a request that hashes to shard [c], entered in [s], at the
    head of the [for] loop with [j = n]: the target lock has been taken
    and the shards below [n] have been dealt with. *)
Definition scan_upto (c : Z) (n : nat) (s : machine) : scan * machine :=
  scan_buckets c (take n bucket_ids) (mkscan (-1) UINT_MAX) (acquire c s).

(** The same scan inside shard [j = n], which the rule lets it lock, at
    the head of the [while] loop when [m] buffers of the chain have been
    looked at. *)
Definition scan_inside (c : Z) (n m : nat) (s : machine) : scan * machine :=
  let '(sc, s1) := scan_upto c n s in
  let s2 := acquire (Z.of_nat n) s1 in
  scan_chain (Z.of_nat n) (take m (chain s2 (Z.of_nat n))) sc s2.

(** Process 1 has read blocks 1 and 2 of device 1 into buffers 0 and 1,
    chained in shards 1 and 2, and has released buffer 1 at tick 5 and
    buffer 0 at tick 9: a scan that visits shard 1 and then shard 2 finds
    its first candidate in shard 1 and a better one in shard 2. *)
Definition s_three : machine :=
  final_state (brelse 32 1 0 (with_ticks 9
    (final_state (brelse 32 1 1 (with_ticks 5
      (final_state (bread 32 1 1 2
        (final_state (bread 32 1 1 1 s_boot))))))))).

(** ** Sequences of calls *)

(** A call of one of the routines of bio.c, by process [p] where the
    routine looks at the caller. *)
Inductive call : Type :=
| Bget (p dev blockno : Z)
| Bread (p dev blockno : Z)
| Bwrite (p : Z) (b : nat)
| Brelse (p : Z) (b : nat)
| Bpin (b : nat)
| Bunpin (b : nat).

(** The machine after a call, however the call ends. *)
Definition run (w : Z) (c : call) (s : machine) : machine :=
  match c with
  | Bget p dev blockno => final_state (bget w p dev blockno s)
  | Bread p dev blockno => final_state (bread w p dev blockno s)
  | Bwrite p b => final_state (bwrite p b s)
  | Brelse p b => final_state (brelse w p b s)
  | Bpin b => bpin w b s
  | Bunpin b => bunpin w b s
  end.

Definition runs (w : Z) (cs : list call) (s : machine) : machine :=
  foldl (λ s c, run w c s) s cs.

(** The call leaves buffer [b], which caches block [(dev, blockno)], to
    its holder: it is not a request for that block, and it does not
    release, pin or unpin [b]. *)
Definition elsewhere (dev blockno : Z) (b : nat) (c : call) : Prop :=
  match c with
  | Bget _ d n | Bread _ d n => ¬ (d = dev ∧ n = blockno)
  | Bwrite _ _ => True
  | Brelse _ b' | Bpin b' | Bunpin b' => b' ≠ b
  end.

(** The wrap-around of [bunpin] read as permanent: after [bunpin] on a
    count of zero the buffer can never be selected again; whatever calls
    follow, no request recycles it. *)
Definition never_evicted_after_unpin (w : Z) (b : nat) (s : machine) : Prop :=
  b_refcnt (getbuf s b) = 0 →
  ∀ cs p dev blockno, ¬ evicts w p dev blockno (runs w cs (bunpin w b s)) b.

(** ** The lock-ordering rule *)

Lemma can_lock_cases c r :
  can_lock c r = 1 ↔ (c + 6 < r ∨ (r < c ∧ c < r + 6)).
Proof.
  unfold can_lock. change (NBUCKET ÷ 2) with 6. cbv zeta.
  destruct (Z.eqb_spec c r); [lia|].
  destruct (Z.ltb_spec c r).
  - destruct (Z.leb_spec r (c + 6)); lia.
  - destruct (Z.geb_spec c (r + 6)); lia.
Qed.

Lemma can_lock_bool c r : can_lock c r = 0 ∨ can_lock c r = 1.
Proof.
  unfold can_lock. cbv zeta.
  repeat match goal with |- context [if ?b then _ else _] => destruct b end;
    auto.
Qed.

Lemma may_lock_below c : 1 <= c < NBUCKET → may_lock c (c - 1).
Proof.
  intros Hc. split; [lia|]. split; [lia|]. apply can_lock_cases. lia.
Qed.

Lemma may_lock_descend (n : nat) : ∀ a,
  0 <= a - Z.of_nat (S n) → a < NBUCKET →
  tc may_lock a (a - Z.of_nat (S n)).
Proof.
  induction n as [|n IH]; intros a Hlo Hhi.
  - apply tc_once. replace (a - Z.of_nat 1) with (a - 1) by lia.
    apply may_lock_below. lia.
  - eapply tc_l; [apply (may_lock_below a); lia|].
    replace (a - Z.of_nat (S (S n))) with (a - 1 - Z.of_nat (S n)) by lia.
    apply IH; lia.
Qed.

Lemma may_lock_down a b : 0 <= b → b < a → a < NBUCKET → tc may_lock a b.
Proof.
  intros Hb Hab Ha.
  replace b with (a - Z.of_nat (S (Z.to_nat (a - b - 1)))) by lia.
  apply may_lock_descend; lia.
Qed.

Lemma may_lock_reach a b :
  0 <= a < NBUCKET → 0 <= b < NBUCKET → tc may_lock a b.
Proof.
  intros Ha Hb.
  assert (H012 : may_lock 0 12).
  { split; [by unfold NBUCKET|]. split; [by unfold NBUCKET|]. reflexivity. }
  destruct (decide (b < a)) as [Hlt|Hge]; [apply may_lock_down; lia|].
  assert (Ha0 : tc may_lock a 12).
  { destruct (decide (a = 0)) as [->|Hne]; [by apply tc_once|].
    eapply tc_r; [|exact H012]. apply may_lock_down; lia. }
  destruct (decide (b = 12)) as [->|Hb12]; [done|].
  eapply tc_transitive; [exact Ha0|].
  apply may_lock_down; unfold NBUCKET in *; lia.
Qed.

(** C3 (amended): for shards [c], [r] in [0, NBUCKET), [can_lock c r]
    answers 1 only when the forward cyclic distance from [c] to [r] exceeds
    [NBUCKET / 2]; no two shards may lock each other; a shard may never
    lock itself.  This rules out cycles of two locks only: whenever [c] may
    lock [r], a chain of acquisitions the rule allows leads from [r] back
    to [c]. *)
Theorem can_lock_directional (c r : Z) :
  0 <= c < NBUCKET → 0 <= r < NBUCKET →
  (can_lock c r = 1 → ring_distance c r > NBUCKET ÷ 2) ∧
  ¬ (can_lock c r = 1 ∧ can_lock r c = 1) ∧
  can_lock c c = 0 ∧
  (can_lock c r = 1 → tc may_lock r c).
Proof.
  intros Hc Hr. split; [|split; [|split]].
  - unfold ring_distance. change (NBUCKET ÷ 2) with 6. unfold NBUCKET in *.
    intros H%can_lock_cases.
    destruct H as [H|[H1 H2]].
    + rewrite Z.mod_small by lia. lia.
    + replace (r - c) with ((r - c + 13) + (-1) * 13) by lia.
      rewrite Z.mod_add by lia. rewrite Z.mod_small by lia. lia.
  - intros [H1%can_lock_cases H2%can_lock_cases]. lia.
  - unfold can_lock. rewrite Z.eqb_refl. reflexivity.
  - intros _. by apply may_lock_reach.
Qed.

Lemma can_lock_directional_witness :
  (can_lock 0 7 = 1 → ring_distance 0 7 > NBUCKET ÷ 2) ∧
  ¬ (can_lock 0 7 = 1 ∧ can_lock 7 0 = 1) ∧
  can_lock 0 0 = 0 ∧
  (can_lock 0 7 = 1 → tc may_lock 7 0).
Proof. apply (can_lock_directional 0 7); unfold NBUCKET; lia. Defined.

(** C3 (as stated) fails: the rule does not keep lock cycles from forming.
    Shard 0 may lock shard 8, shard 8 may lock shard 4, and shard 4 may
    lock shard 0. *)
Lemma no_lock_cycle_fails : ¬ no_lock_cycle.
Proof.
  intros H. apply (H 0).
  assert (H08 : may_lock 0 8) by (unfold may_lock, NBUCKET; by repeat split).
  assert (H84 : may_lock 8 4) by (unfold may_lock, NBUCKET; by repeat split).
  assert (H40 : may_lock 4 0) by (unfold may_lock, NBUCKET; by repeat split).
  eapply tc_l; [exact H08|]. eapply tc_l; [exact H84|]. by apply tc_once.
Qed.
(** ** Frame properties *)

Lemma same_data_refl s : same_data s s.
Proof. by repeat split. Qed.

Lemma same_data_trans s1 s2 s3 :
  same_data s1 s2 → same_data s2 s3 → same_data s1 s3.
Proof. intros (?&?&?&?) (?&?&?&?). repeat split; congruence. Qed.

Lemma same_data_acquire i s : same_data s (acquire i s).
Proof. by repeat split. Qed.

Lemma same_data_release i s : same_data s (release i s).
Proof. by repeat split. Qed.

Lemma getbuf_same s s' b : bcache_buf s' = bcache_buf s → getbuf s' b = getbuf s b.
Proof. unfold getbuf. by intros ->. Qed.

Lemma chain_same s s' i :
  bcache_bucket s' = bcache_bucket s → chain s' i = chain s i.
Proof. unfold chain. by intros ->. Qed.

Lemma lookup_same s s' dev blockno c :
  bcache_buf s' = bcache_buf s → lookup s' dev blockno c = lookup s dev blockno c.
Proof.
  intros H. induction c as [|b c IH]; simpl; [done|].
  by rewrite (getbuf_same _ _ _ H), IH.
Qed.

Lemma unlink_same s s' mt c :
  bcache_buf s' = bcache_buf s → unlink s' mt c = unlink s mt c.
Proof.
  intros H. induction c as [|b c IH]; simpl; [done|].
  by rewrite (getbuf_same _ _ _ H), IH.
Qed.

Lemma getbuf_setbuf_eq s b bf :
  (b < length (bcache_buf s))%nat → getbuf (setbuf b bf s) b = bf.
Proof.
  intros H. unfold getbuf, setbuf. simpl.
  by rewrite list_lookup_insert_eq.
Qed.

Lemma getbuf_setbuf_ne s b b' bf :
  b ≠ b' → getbuf (setbuf b bf s) b' = getbuf s b'.
Proof.
  intros H. unfold getbuf, setbuf. simpl.
  by rewrite list_lookup_insert_ne.
Qed.

Lemma elem_of_bucket_ids j : j ∈ bucket_ids ↔ 0 <= j < NBUCKET.
Proof.
  unfold bucket_ids. rewrite list_elem_of_fmap. split.
  - intros (n & -> & Hn%elem_of_seq). unfold NBUCKET in *. lia.
  - intros H. exists (Z.to_nat j). split; [lia|].
    apply elem_of_seq. unfold NBUCKET in *. lia.
Qed.

(** ** What the eviction scan computes *)

Lemma scan_buf_spec j b sc s sc' s' :
  scan_buf j b sc s = (sc', s') →
  same_data s s' ∧
  (b_refcnt (getbuf s b) = 0 → min_tick sc' <= b_time (getbuf s b)) ∧
  (sc' = sc ∨
   index sc' = j ∧ min_tick sc' < min_tick sc ∧
   b_refcnt (getbuf s b) = 0 ∧ b_time (getbuf s b) = min_tick sc').
Proof.
  unfold scan_buf. intros H.
  destruct (Z.eqb_spec (b_refcnt (getbuf s b)) 0) as [Hr|Hr].
  - destruct (Z.ltb_spec (b_time (getbuf s b)) (min_tick sc)) as [Ht|Ht].
    + injection H as <- <-. split; [|split].
      * destruct (_ && _); [apply same_data_release | apply same_data_refl].
      * simpl. lia.
      * right. simpl. auto.
    + injection H as <- <-. split; [apply same_data_refl|]. split; [lia|by left].
  - injection H as <- <-. split; [apply same_data_refl|]. split; [done|by left].
Qed.

Lemma scan_chain_spec j c : ∀ sc s sc' s',
  scan_chain j c sc s = (sc', s') →
  same_data s s' ∧
  min_tick sc' <= min_tick sc ∧
  (∀ b, b ∈ c → b_refcnt (getbuf s b) = 0 → min_tick sc' <= b_time (getbuf s b)) ∧
  (sc' = sc ∨
   index sc' = j ∧ min_tick sc' < min_tick sc ∧
   ∃ b, b ∈ c ∧ b_refcnt (getbuf s b) = 0 ∧ b_time (getbuf s b) = min_tick sc').
Proof.
  induction c as [|b c IH]; intros sc s sc' s' H; simpl in H.
  - injection H as <- <-. split; [apply same_data_refl|]. split; [lia|].
    split; [|by left]. intros b Hb. by apply elem_of_nil in Hb.
  - destruct (scan_buf j b sc s) as [sc1 s1] eqn:E1.
    apply scan_buf_spec in E1 as (Hd1 & Hle1 & Hor1).
    apply IH in H as (Hd2 & Hle2 & Hall2 & Hor2).
    assert (Hg : ∀ x, getbuf s1 x = getbuf s x).
    { intros x. apply getbuf_same, Hd1. }
    assert (Hm1 : min_tick sc1 <= min_tick sc).
    { destruct Hor1 as [->|(_ & ? & _)]; lia. }
    split; [by eapply same_data_trans|]. split; [lia|]. split.
    + intros x [->|Hx]%elem_of_cons Hr.
      * specialize (Hle1 Hr). lia.
      * rewrite <- Hg. apply Hall2; [done|]. by rewrite Hg.
    + destruct Hor2 as [->|(Hi & Hlt & x & Hx & Hr & Ht)].
      * destruct Hor1 as [->|(Hi & Hlt & Hr & Ht)]; [by left|].
        right. split; [done|]. split; [done|].
        exists b. split; [apply elem_of_cons; by left|done].
      * right. split; [done|]. split; [lia|].
        exists x. rewrite <- !Hg. split; [apply elem_of_cons; by right|done].
Qed.

Lemma scan_buckets_spec c js : ∀ sc s sc' s',
  scan_buckets c js sc s = (sc', s') →
  same_data s s' ∧
  min_tick sc' <= min_tick sc ∧
  (∀ j b, j ∈ js → can_lock c j = 1 → b ∈ chain s j →
          b_refcnt (getbuf s b) = 0 → min_tick sc' <= b_time (getbuf s b)) ∧
  (sc' = sc ∨
   index sc' ∈ js ∧ can_lock c (index sc') = 1 ∧ min_tick sc' < min_tick sc ∧
   ∃ b, b ∈ chain s (index sc') ∧ b_refcnt (getbuf s b) = 0 ∧
        b_time (getbuf s b) = min_tick sc').
Proof.
  induction js as [|j js IH]; intros sc s sc' s' H; simpl in H.
  - injection H as <- <-. split; [apply same_data_refl|]. split; [lia|].
    split; [|by left]. intros j b Hj. by apply elem_of_nil in Hj.
  - destruct (Z.eqb_spec (can_lock c j) 0) as [Hc|Hc].
    + apply IH in H as (Hd & Hle & Hall & Hor).
      split; [done|]. split; [done|]. split.
      * intros j' b [->|Hj']%elem_of_cons Hcl; [lia|]. by apply Hall.
      * destruct Hor as [->|(Hi & ?)]; [by left|].
        right. split; [apply elem_of_cons; by right|done].
    + assert (Hc1 : can_lock c j = 1) by (destruct (can_lock_bool c j); lia).
      destruct (scan_chain j (chain (acquire j s) j) sc (acquire j s))
        as [sc2 s2] eqn:E2.
      apply scan_chain_spec in E2 as (Hd2 & Hle2 & Hall2 & Hor2).
      apply IH in H as (Hd3 & Hle3 & Hall3 & Hor3).
      assert (Hds2 : same_data s s2).
      { eapply same_data_trans; [apply (same_data_acquire j)|done]. }
      assert (Hds3 : same_data s
        (if negb (j =? index sc2) && holding j s2 then release j s2 else s2)).
      { destruct (_ && _); [|done].
        eapply same_data_trans; [done|apply same_data_release]. }
      set (s3 := if negb (j =? index sc2) && holding j s2
                 then release j s2 else s2) in *.
      assert (Hg : ∀ x, getbuf s3 x = getbuf s x).
      { intros x. apply getbuf_same, Hds3. }
      assert (Hch : ∀ i, chain s3 i = chain s i).
      { intros i. apply chain_same, Hds3. }
      split; [by eapply same_data_trans|]. split; [lia|]. split.
      * intros j' b [->|Hj']%elem_of_cons Hcl Hb Hr.
        -- etrans; [apply Hle3|]. by apply Hall2.
        -- rewrite <- Hg. apply (Hall3 j'); rewrite ?Hch, ?Hg; done.
      * destruct Hor3 as [->|(Hi & Hcl & Hlt & x & Hx & Hr & Ht)].
        -- destruct Hor2 as [->|(Hi & Hlt & x & Hx & Hr & Ht)]; [by left|].
           right. rewrite Hi. split; [apply elem_of_cons; by left|].
           split; [done|]. split; [done|]. by exists x.
        -- right. split; [apply elem_of_cons; by right|]. split; [done|].
           split; [lia|]. exists x. rewrite <- Hch, <- !Hg. done.
Qed.

(** ** Taking the victim out of its chain *)

Lemma unlink_spec s mt c : ∀ m r,
  unlink s mt c = Some (m, r) →
  b_refcnt (getbuf s m) = 0 ∧ b_time (getbuf s m) = mt ∧
  ∃ c1 c2, c = c1 ++ m :: c2 ∧ r = c1 ++ c2.
Proof.
  induction c as [|b c IH]; intros m r H; simpl in H; [done|].
  destruct (Z.eqb_spec (b_refcnt (getbuf s b)) 0) as [Hr|Hr];
    destruct (Z.eqb_spec (b_time (getbuf s b)) mt) as [Ht|Ht]; simpl in H;
    try (injection H as <- <-; split; [done|]; split; [done|];
         by exists [], c);
    (destruct (unlink s mt c) as [[m' r']|] eqn:E; [|done];
     injection H as <- <-;
     destruct (IH _ _ eq_refl) as (? & ? & c1 & c2 & -> & ->);
     split; [done|]; split; [done|]; by exists (b :: c1), c2).
Qed.

Lemma unlink_is_Some s mt c b :
  b ∈ c → b_refcnt (getbuf s b) = 0 → b_time (getbuf s b) = mt →
  is_Some (unlink s mt c).
Proof.
  intros Hb Hr Ht. induction c as [|x c IH]; [by apply elem_of_nil in Hb|].
  simpl. destruct (_ && _) eqn:E; [by eexists|].
  apply elem_of_cons in Hb as [->|Hb].
  - rewrite Hr, Ht, !Z.eqb_refl in E. done.
  - destruct (IH Hb) as [[m r] ->]. by eexists.
Qed.

(** ** The miss path of [bget] *)

Section BgetMiss.

Variable w : Z.

(** What a miss does: either nothing unreferenced was found in the scanned
    shards and the kernel panics, or the first least recently released
    unreferenced buffer [v] of the scanned shards moves from its shard [j]
    to the end of the target chain under its new identity, and the caller
    goes for its content lock. *)
Lemma bget_miss p dev blockno s :
  let c := blockno mod NBUCKET in
  let sc := (scan_buckets c bucket_ids (mkscan (-1) UINT_MAX) (acquire c s)).1 in
  lookup s dev blockno (chain s c) = None →
  (index sc = -1 ∧
   (∃ s', bget w p dev blockno s = Panic "bget: no buffers" s' ∧ same_data s s') ∧
   ∀ j b, scanned c j → b ∈ chain s j → b_refcnt (getbuf s b) = 0 →
          UINT_MAX <= b_time (getbuf s b))
  ∨
  (∃ j v c1 c2 s2,
     sc = mkscan j (b_time (getbuf s v)) ∧
     unlink s (b_time (getbuf s v)) (chain s j) = Some (v, c1 ++ c2) ∧
     scanned c j ∧ chain s j = c1 ++ v :: c2 ∧
     b_refcnt (getbuf s v) = 0 ∧ b_time (getbuf s v) < UINT_MAX ∧
     (∀ j' b, scanned c j' → b ∈ chain s j' → b_refcnt (getbuf s b) = 0 →
              b_time (getbuf s v) <= b_time (getbuf s b)) ∧
     bget w p dev blockno s = acquiresleep p v s2 ∧
     bcache_buf s2 = <[v := recycle dev blockno (getbuf s v)]> (bcache_buf s) ∧
     bcache_bucket s2 =
       <[Z.to_nat c := chain s c ++ [v]]>
         (<[Z.to_nat j := c1 ++ c2]> (bcache_bucket s)) ∧
     ticks s2 = ticks s ∧ disk s2 = disk s).
Proof.
  intros c sc Hmiss. unfold bget. fold c.
  rewrite (lookup_same s (acquire c s)) by done.
  change (chain (acquire c s) c) with (chain s c). rewrite Hmiss.
  subst sc.
  destruct (scan_buckets c bucket_ids (mkscan (-1) UINT_MAX) (acquire c s))
    as [sc s1] eqn:E.
  apply scan_buckets_spec in E as (Hd & _ & Hall & Hor). simpl fst.
  assert (Hd1 : same_data s s1).
  { eapply same_data_trans; [apply (same_data_acquire c)|done]. }
  assert (Hg : ∀ x, getbuf s1 x = getbuf s x).
  { intros x. apply getbuf_same, Hd1. }
  assert (Hch : ∀ i, chain s1 i = chain s i).
  { intros i. apply chain_same, Hd1. }
  change (∀ j b, j ∈ bucket_ids → can_lock c j = 1 → b ∈ chain s j →
            b_refcnt (getbuf s b) = 0 → min_tick sc <= b_time (getbuf s b))
    in Hall.
  destruct Hor as [->|(Hi & Hcl & Hlt & x & Hx & Hr & Ht)].
  - left. simpl. split; [done|]. split; [by eexists|].
    intros j b [Hj Hcj] Hb Hrb. apply (Hall j b); [|done..].
    by apply elem_of_bucket_ids.
  - right. simpl in Hlt.
    change (x ∈ chain s (index sc)) in Hx.
    change (b_refcnt (getbuf s x) = 0) in Hr.
    change (b_time (getbuf s x) = min_tick sc) in Ht.
    apply elem_of_bucket_ids in Hi as Hrange.
    destruct (Z.eqb_spec (index sc) (-1)) as [Hneg|_]; [lia|].
    rewrite (unlink_same s s1), Hch by apply Hd1.
    destruct (unlink_is_Some s (min_tick sc) _ x Hx Hr Ht) as [[v rest] Hu].
    rewrite Hu.
    destruct (unlink_spec _ _ _ _ _ Hu) as (Hrv & Htv & c1 & c2 & Hc & ->).
    assert (Hne : Z.to_nat (index sc) ≠ Z.to_nat c).
    { intros Heq. assert (index sc = c) as Hic.
      { pose proof (Z.mod_pos_bound blockno NBUCKET) as Hb.
        unfold c in *. unfold NBUCKET in *. lia. }
      rewrite Hic in Hcl. apply can_lock_cases in Hcl. lia. }
    eexists (index sc), v, c1, c2, _.
    split; [destruct sc; simpl in *; by rewrite Htv|].
    split; [by rewrite Htv|].
    split; [done|]. split; [done|]. split; [done|]. split; [lia|].
    split.
    { intros j' b [Hj' Hcj'] Hb Hrb. rewrite Htv.
      apply (Hall j' b); [|done..]. by apply elem_of_bucket_ids. }
    split; [reflexivity|].
    destruct Hd1 as (Hbuf & Hbk & Htk & Hdk). simpl.
    rewrite Hg, Hbuf, Htk, Hdk. split; [done|]. split; [|done].
    unfold chain. simpl. rewrite list_lookup_insert_ne by done.
    by rewrite Hbk.
Qed.

End BgetMiss.

(** ** Eviction: which buffer, and when none *)

Lemma acquiresleep_cases p b s :
  (b_lock (getbuf s b) = None ∧ ∃ s', acquiresleep p b s = Done b s') ∨
  (b_lock (getbuf s b) ≠ None ∧ acquiresleep p b s = Sleeping b s).
Proof.
  unfold acquiresleep. destruct (b_lock (getbuf s b)); [by right|].
  left. split; [done|]. by eexists.
Qed.

Lemma acquiresleep_returns p b s v s' :
  acquiresleep p b s = Done v s' ∨ acquiresleep p b s = Sleeping v s' → v = b.
Proof.
  unfold acquiresleep. destruct (b_lock (getbuf s b)); intros [H|H];
    by inversion H.
Qed.

Lemma b_lock_recycled s s2 v dev blockno :
  bcache_buf s2 = <[v := recycle dev blockno (getbuf s v)]> (bcache_buf s) →
  b_lock (getbuf s2 v) = b_lock (getbuf s v).
Proof.
  intros H. unfold getbuf at 1. rewrite H.
  destruct (decide (v < length (bcache_buf s))%nat) as [Hv|Hv].
  - by rewrite list_lookup_insert_eq.
  - rewrite list_insert_ge by lia. done.
Qed.

Lemma victim_is_lru_of_scanned_shards w p dev blockno s v :
  evicts w p dev blockno s v →
  ∃ j, scanned (blockno mod NBUCKET) j ∧ idle_in s j v ∧
  ∀ j' b, scanned (blockno mod NBUCKET) j' → idle_in s j' b →
          b_time (getbuf s v) <= b_time (getbuf s b).
Proof.
  intros [Hmiss [s' Hout]].
  destruct (bget_miss w p dev blockno s Hmiss)
    as [(_ & (s1 & Hp & _) & _)
       |(j & v' & c1 & c2 & s2 & _ & _ & Hj & Hc & Hr & _ & Hmin & Hb & _)].
  - rewrite Hp in Hout. by destruct Hout.
  - rewrite Hb in Hout. apply acquiresleep_returns in Hout as ->.
    exists j. split; [done|]. split.
    + split; [|done].
      rewrite Hc. apply elem_of_app. right. apply elem_of_cons. by left.
    + intros j' b Hj' [Hin Hrb]. by apply (Hmin j').
Qed.

(** C1 (amended): the victim of a miss is an unreferenced buffer of a
    shard the scan visits, and no unreferenced buffer of the visited shards
    has a smaller idle timestamp.  The visited shards are those the
    lock-ordering rule allows from the target shard. *)
Theorem bget_evicts_lru_of_scanned_shards (w p dev blockno : Z) (s : machine) (v : nat) :
  evicts w p dev blockno s v →
  (∃ j, scanned (blockno mod NBUCKET) j ∧ idle_in s j v) ∧
  ∀ j b, scanned (blockno mod NBUCKET) j → idle_in s j b →
         b_time (getbuf s v) <= b_time (getbuf s b).
Proof.
  intros Hev.
  destruct (victim_is_lru_of_scanned_shards w p dev blockno s v Hev)
    as (j & Hj & Hidle & Hmin).
  split; [by exists j|done].
Qed.

Lemma s_idle_evicts_0 : evicts 32 1 1 6 s_idle 0.
Proof.
  split; [by vm_compute|]. eexists. left. vm_compute. reflexivity.
Qed.

Lemma bget_evicts_lru_of_scanned_shards_witness :
  (∃ j, scanned (6 mod NBUCKET) j ∧ idle_in s_idle j 0) ∧
  ∀ j b, scanned (6 mod NBUCKET) j → idle_in s_idle j b →
         b_time (getbuf s_idle 0) <= b_time (getbuf s_idle b).
Proof.
  apply (bget_evicts_lru_of_scanned_shards 32 1 1 6 s_idle 0).
  split; [by vm_compute|]. eexists. left. vm_compute. reflexivity.
Defined.

(** C1 (as stated) fails: in [s_idle] a request for block 6 recycles
    buffer 0, released at tick 5, although buffer 1 sits unreferenced in
    shard 0 with timestamp 0. *)
Lemma global_lru_fails : ¬ global_lru 32 1 1 6 s_idle.
Proof.
  intros H.
  specialize (H 0%nat s_idle_evicts_0 0 1%nat).
  assert (Hle : b_time (getbuf s_idle 0) <= b_time (getbuf s_idle 1)).
  { apply H; [unfold NBUCKET; lia|].
    split; [|by vm_compute].
    apply list_elem_of_In. vm_compute. by left. }
  vm_compute in Hle. by apply Hle.
Qed.

(** C2 (amended): a miss panics when the shards its scan visits hold no
    unreferenced buffer, whatever the other shards hold; and it recycles a
    buffer, returning it as soon as its content lock is free, when a
    visited shard holds an unreferenced buffer stamped below
    [0xffffffff]. *)
Theorem bget_panics_when_scanned_shards_exhausted (w p dev blockno : Z) (s : machine) :
  miss dev blockno s →
  ((¬ ∃ j b, scanned (blockno mod NBUCKET) j ∧ idle_in s j b) →
   ∃ s', bget w p dev blockno s = Panic "bget: no buffers" s' ∧ same_data s s') ∧
  ((∃ j b, scanned (blockno mod NBUCKET) j ∧ idle_in s j b ∧
           b_time (getbuf s b) < UINT_MAX) →
   ¬ panics (bget w p dev blockno s) ∧
   ∃ v, evicts w p dev blockno s v ∧
        (b_lock (getbuf s v) = None → ∃ s', bget w p dev blockno s = Done v s')).
Proof.
  intros Hmiss.
  destruct (bget_miss w p dev blockno s Hmiss)
    as [(_ & (s1 & Hp & Hd) & Hnone)
       |(j & v & c1 & c2 & s2 & _ & _ & Hj & Hc & Hr & _ & _ & Hb & Hbuf & _)].
  - split; [intros _; by exists s1|].
    intros (j & b & Hj & [Hin Hr] & Hlt).
    specialize (Hnone j b Hj Hin Hr). lia.
  - split.
    + intros Hno. exfalso. apply Hno. exists j, v. split; [done|].
      split; [|done].
      rewrite Hc. apply elem_of_app. right. apply elem_of_cons. by left.
    + intros _.
      pose proof (b_lock_recycled _ _ _ _ _ Hbuf) as Hl.
      destruct (acquiresleep_cases p v s2) as [[Hfree [s' Hd]]|[Hheld Hs]].
      * split; [intros (msg & s'' & Hp); congruence|].
        exists v. split.
        -- split; [done|]. exists s'. left. congruence.
        -- intros _. exists s'. congruence.
      * split; [intros (msg & s'' & Hp); congruence|].
        exists v. split.
        -- split; [done|]. exists s2. right. congruence.
        -- intros Hfree. rewrite Hl in Hheld. done.
Qed.

Lemma bget_panics_when_scanned_shards_exhausted_witness :
  ((¬ ∃ j b, scanned (6 mod NBUCKET) j ∧ idle_in s_idle j b) →
   ∃ s', bget 32 1 1 6 s_idle = Panic "bget: no buffers" s' ∧ same_data s_idle s') ∧
  ((∃ j b, scanned (6 mod NBUCKET) j ∧ idle_in s_idle j b ∧
           b_time (getbuf s_idle b) < UINT_MAX) →
   ¬ panics (bget 32 1 1 6 s_idle) ∧
   ∃ v, evicts 32 1 1 6 s_idle v ∧
        (b_lock (getbuf s_idle v) = None → ∃ s', bget 32 1 1 6 s_idle = Done v s')).
Proof.
  apply (bget_panics_when_scanned_shards_exhausted 32 1 1 6 s_idle).
  by vm_compute.
Defined.

(** C2 (as stated) fails: right after [binit] a request for block 7 panics
    although all 30 buffers are unreferenced; they sit in shard 0, which
    the scan started from shard 7 does not visit. *)
Lemma panics_iff_pool_exhausted_fails : ¬ panics_iff_pool_exhausted 32 1 1 7 s_boot.
Proof.
  intros H.
  assert (Hmiss : miss 1 7 s_boot) by (by vm_compute).
  destruct (H Hmiss) as [Hp _]. apply Hp.
  - eexists _, _. vm_compute. reflexivity.
  - exists 0, 0%nat. split; [unfold NBUCKET; lia|].
    split; [|by vm_compute].
    apply list_elem_of_In. vm_compute. by left.
Qed.

(** ** Shard locks held during a call *)

Lemma nheld_insert_true_le l : ∀ i, (nheld (<[i := true]> l) <= S (nheld l))%nat.
Proof.
  induction l as [|h l IH]; intros i; [simpl; lia|].
  destruct i as [|i]; simpl.
  - destruct h; lia.
  - specialize (IH i). lia.
Qed.

Lemma nheld_insert_false_le l : ∀ i, (nheld (<[i := false]> l) <= nheld l)%nat.
Proof.
  induction l as [|h l IH]; intros i; [simpl; lia|].
  destruct i as [|i]; simpl.
  - lia.
  - specialize (IH i). lia.
Qed.

Lemma nheld_drop l : ∀ i,
  l !! i = Some true → S (nheld (<[i := false]> l)) = nheld l.
Proof.
  induction l as [|h l IH]; intros i H; [done|].
  destruct i as [|i]; simpl in *.
  - by injection H as ->.
  - rewrite <- (IH i H). lia.
Qed.

Lemma nheld_replicate_false n : nheld (replicate n false) = 0%nat.
Proof. induction n; simpl; lia. Qed.

Lemma holding_true i s :
  holding i s = true ↔ bcache_lock s !! Z.to_nat i = Some true.
Proof.
  unfold holding. destruct (bcache_lock s !! Z.to_nat i) as [[]|]; naive_solver.
Qed.

Lemma locks_bounded_refl n s : locks_bounded n s s.
Proof. exists []. by rewrite app_nil_r. Qed.

Lemma locks_bounded_trans n s1 s2 s3 :
  locks_bounded n s1 s2 → locks_bounded n s2 s3 → locks_bounded n s1 s3.
Proof.
  intros (t1 & H1 & F1) (t2 & H2 & F2). exists (t1 ++ t2). split.
  - by rewrite H2, H1, app_assoc.
  - unfold snapshots. rewrite omap_app. by apply Forall_app.
Qed.

Lemma locks_bounded_silent n s s' : trace s' = trace s → locks_bounded n s s'.
Proof. intros H. exists []. by rewrite app_nil_r. Qed.

Lemma locks_bounded_acquire n i s :
  (S (nheld (bcache_lock s)) <= n)%nat → locks_bounded n s (acquire i s).
Proof.
  intros H. eexists [_]. split; [reflexivity|].
  repeat constructor. pose proof (nheld_insert_true_le (bcache_lock s) (Z.to_nat i)).
  lia.
Qed.

Lemma locks_bounded_release n i s :
  (nheld (bcache_lock s) <= n)%nat → locks_bounded n s (release i s).
Proof.
  intros H. eexists [_]. split; [reflexivity|].
  repeat constructor. pose proof (nheld_insert_false_le (bcache_lock s) (Z.to_nat i)).
  lia.
Qed.

Lemma locks_bounded_acquiresleep n p b s :
  locks_bounded n s (final_state (acquiresleep p b s)).
Proof.
  unfold acquiresleep. destruct (b_lock (getbuf s b)); simpl.
  - apply locks_bounded_refl.
  - eexists [_]. split; [reflexivity|]. constructor.
Qed.

Lemma nheld_zero l : nheld l = 0%nat → l = replicate (length l) false.
Proof.
  induction l as [|h l IH]; simpl; [done|].
  destruct h; [lia|]. intros H. f_equal. apply IH. lia.
Qed.

Lemma scan_buf_locks c j b sc s sc' s' :
  0 <= c → 0 <= j → j ≠ c →
  scan_buf j b sc s = (sc', s') →
  within_shard c j sc s →
  within_shard c j sc' s' ∧ locks_bounded 3 s s'.
Proof.
  unfold scan_buf. intros Hc0 Hj Hjc H (Hlen & Hidx & Hhc & Hhj & Heq & Hne).
  destruct (b_refcnt (getbuf s b) =? 0);
    [|injection H as <- <-; split; [done|apply locks_bounded_refl]].
  destruct (b_time (getbuf s b) <? min_tick sc);
    [|injection H as <- <-; split; [done|apply locks_bounded_refl]].
  injection H as <- <-.
  destruct (Z.eqb_spec (index sc) (-1)) as [Hm|Hm]; simpl.
  { split; [|apply locks_bounded_refl].
    split; [done|]. split; [right; simpl; lia|]. split; [done|].
    split; [done|]. split; [|done]. intros _.
    destruct Hne as [Hn _]; [lia|].
    destruct (Z.eqb_spec (index sc) (-1)); [done|lia]. }
  destruct (Z.eqb_spec (index sc) j) as [Hij|Hij]; simpl.
  { split; [|apply locks_bounded_refl].
    split; [done|]. split; [right; simpl; lia|]. split; [done|].
    split; [done|]. split; [|done]. intros _. by apply Heq. }
  destruct (Hne Hij) as [Hn Hh]. specialize (Hh Hm). rewrite Hh.
  destruct (Z.eqb_spec (index sc) (-1)) as [|_]; [done|].
  apply holding_true in Hh as Hl. apply holding_true in Hhj as Hlj.
  apply holding_true in Hhc as Hlc.
  pose proof (nheld_drop _ _ Hl) as Hdrop.
  assert (Hnat : Z.to_nat (index sc) ≠ Z.to_nat j) by lia.
  assert (Hnatc : Z.to_nat (index sc) ≠ Z.to_nat c) by lia.
  split.
  - split; [simpl; by rewrite length_insert|]. split; [right; simpl; lia|].
    split.
    { apply holding_true. simpl. by rewrite list_lookup_insert_ne. }
    split.
    { apply holding_true. simpl. by rewrite list_lookup_insert_ne. }
    split; [|done]. intros _. simpl. lia.
  - apply locks_bounded_release. lia.
Qed.

Lemma scan_chain_locks c j ch : ∀ sc s sc' s',
  0 <= c → 0 <= j → j ≠ c →
  scan_chain j ch sc s = (sc', s') →
  within_shard c j sc s →
  within_shard c j sc' s' ∧ locks_bounded 3 s s'.
Proof.
  induction ch as [|b ch IH]; intros sc s sc' s' Hc0 Hj Hjc H Hin; simpl in H.
  - injection H as <- <-. split; [done|apply locks_bounded_refl].
  - destruct (scan_buf j b sc s) as [sc1 s1] eqn:E1.
    destruct (scan_buf_locks _ _ _ _ _ _ _ Hc0 Hj Hjc E1 Hin) as [Hin1 Hq1].
    destruct (IH _ _ _ _ Hc0 Hj Hjc H Hin1) as [Hin2 Hq2].
    split; [done|by eapply locks_bounded_trans].
Qed.

Lemma scan_buckets_locks c js : ∀ sc s sc' s',
  0 <= c →
  (∀ j, j ∈ js → 0 <= j < NBUCKET) →
  scan_buckets c js sc s = (sc', s') →
  between_shards c sc s →
  between_shards c sc' s' ∧ locks_bounded 3 s s'.
Proof.
  induction js as [|j js IH]; intros sc s sc' s' Hc0 Hjs H Hout; simpl in H.
  - injection H as <- <-. split; [done|apply locks_bounded_refl].
  - assert (Hjs' : ∀ j', j' ∈ js → 0 <= j' < NBUCKET).
    { intros j' Hj'. apply Hjs, elem_of_cons. by right. }
    assert (Hj : 0 <= j < NBUCKET).
    { apply Hjs, elem_of_cons. by left. }
    destruct (Z.eqb_spec (can_lock c j) 0) as [|Hcl]; [by eapply IH|].
    assert (Hjc : j ≠ c).
    { intros ->. destruct (can_lock_bool c c) as [?|Hone]; [done|].
      apply can_lock_cases in Hone. lia. }
    destruct (scan_chain j (chain (acquire j s) j) sc (acquire j s))
      as [sc2 s2] eqn:E2.
    destruct Hout as (Hlen & Hidx & Hhc & Hn & Hh).
    assert (Hacq : locks_bounded 3 s (acquire j s)).
    { apply locks_bounded_acquire. destruct (index sc =? -1); lia. }
    assert (Hin : within_shard c j sc (acquire j s)).
    { split; [simpl; by rewrite length_insert|]. split; [done|].
      split.
      { apply holding_true in Hhc. apply holding_true. simpl.
        rewrite list_lookup_insert_ne by lia. done. }
      split.
      { apply holding_true. simpl. apply list_lookup_insert_eq.
        unfold NBUCKET in *. lia. }
      split.
      - intros Hij. simpl.
        assert (Hneg : index sc ≠ -1) by lia.
        specialize (Hh Hneg). apply holding_true in Hh. rewrite Hij in Hh.
        rewrite list_insert_id by done.
        destruct (Z.eqb_spec (index sc) (-1)); [done|lia].
      - intros Hij. split.
        + simpl. pose proof (nheld_insert_true_le (bcache_lock s) (Z.to_nat j)).
          destruct (index sc =? -1); lia.
        + intros Hneg. specialize (Hh Hneg). apply holding_true in Hh.
          apply holding_true. simpl. rewrite list_lookup_insert_ne by lia. done. }
    destruct (scan_chain_locks _ _ _ _ _ _ _ Hc0 (proj1 Hj) Hjc E2 Hin)
      as [(Hlen2 & Hidx2 & Hhc2 & Hhj2 & Heq2 & Hne2) Hq2].
    set (s3 := if negb (j =? index sc2) && holding j s2
               then release j s2 else s2) in *.
    assert (Hout3 : between_shards c sc2 s3 ∧ locks_bounded 3 s2 s3).
    { subst s3. rewrite Hhj2, andb_true_r.
      destruct (Z.eqb_spec j (index sc2)) as [Hji|Hji]; simpl.
      - split; [|apply locks_bounded_refl].
        split; [done|]. split; [done|]. split; [done|].
        assert (Hneg : index sc2 ≠ -1) by lia.
        split; [|by rewrite <- Hji].
        destruct (Z.eqb_spec (index sc2) (-1)); [done|]. by apply Heq2.
      - assert (Hij : index sc2 ≠ j) by lia.
        destruct (Hne2 Hij) as [Hn2 Hh2].
        apply holding_true in Hhj2 as Hlj.
        pose proof (nheld_drop _ _ Hlj) as Hdrop.
        split.
        + split; [simpl; by rewrite length_insert|]. split; [done|].
          split.
          { apply holding_true in Hhc2. apply holding_true. simpl.
            rewrite list_lookup_insert_ne by lia. done. }
          split; [simpl; destruct (index sc2 =? -1); lia|].
          intros Hneg. specialize (Hh2 Hneg). apply holding_true in Hh2.
          apply holding_true. simpl. rewrite list_lookup_insert_ne by lia. done.
        + apply locks_bounded_release. destruct (index sc2 =? -1); lia. }
    destruct Hout3 as [Hout3 Hq3].
    destruct (IH _ _ _ _ Hc0 Hjs' H Hout3) as [Hout4 Hq4].
    split; [done|].
    eapply locks_bounded_trans; [exact Hacq|].
    eapply locks_bounded_trans; [exact Hq2|].
    eapply locks_bounded_trans; [exact Hq3|exact Hq4].
Qed.

(** After the scan started from shard [c], with no shard lock held on
    entry: the bookkeeping of [between_shards] holds and no snapshot shows
    more than three locks. *)
Lemma bget_scan_locks blockno s sc s1 :
  unlocked s →
  scan_buckets (blockno mod NBUCKET) bucket_ids (mkscan (-1) UINT_MAX)
    (acquire (blockno mod NBUCKET) s) = (sc, s1) →
  between_shards (blockno mod NBUCKET) sc s1 ∧
  locks_bounded 3 s s1.
Proof.
  intros Hu E. set (c := blockno mod NBUCKET) in *.
  assert (Hc : 0 <= c < NBUCKET) by (apply Z.mod_pos_bound; by unfold NBUCKET).
  assert (Hn0 : nheld (bcache_lock s) = 0%nat).
  { rewrite Hu. apply nheld_replicate_false. }
  assert (Hlen : length (bcache_lock s) = Z.to_nat NBUCKET).
  { rewrite Hu. apply length_replicate. }
  assert (Hout : between_shards c (mkscan (-1) UINT_MAX) (acquire c s)).
  { split; [simpl; by rewrite length_insert|].
    split; [by left|]. split.
    { apply holding_true. simpl. apply list_lookup_insert_eq.
      unfold NBUCKET in *. lia. }
    split; [|done]. simpl.
    pose proof (nheld_insert_true_le (bcache_lock s) (Z.to_nat c)). lia. }
  destruct (scan_buckets_locks _ _ _ _ _ _ (proj1 Hc)
              (λ j, proj1 (elem_of_bucket_ids j)) E Hout) as [Hb Hq].
  split; [done|].
  eapply locks_bounded_trans; [|exact Hq].
  apply locks_bounded_acquire. lia.
Qed.


(** ** Every routine gives back the shard locks it took *)

Lemma unlocked_after_pair i l :
  l = replicate (Z.to_nat NBUCKET) false →
  <[i := false]> (<[i := true]> l) = replicate (Z.to_nat NBUCKET) false.
Proof.
  intros ->. rewrite list_insert_insert_eq.
  destruct (decide (i < Z.to_nat NBUCKET)%nat) as [Hi|Hi].
  - apply list_insert_id. by apply lookup_replicate_2.
  - apply list_insert_ge. rewrite length_replicate. lia.
Qed.

Lemma acquiresleep_lock p b s :
  bcache_lock (final_state (acquiresleep p b s)) = bcache_lock s.
Proof. unfold acquiresleep. by destruct (b_lock (getbuf s b)). Qed.

(** [bget] comes back, or goes to sleep on the content lock, with every
    shard lock released. *)
Lemma bget_unlocked w p dev blockno s v s' :
  unlocked s →
  bget w p dev blockno s = Done v s' ∨ bget w p dev blockno s = Sleeping v s' →
  unlocked s'.
Proof.
  intros Hu Hout.
  assert (Hs' : s' = final_state (bget w p dev blockno s)).
  { by destruct Hout as [-> | ->]. }
  assert (Hnf : ∀ msg t, bget w p dev blockno s ≠ Panic msg t)
    by (intros msg t; destruct Hout; congruence).
  assert (Hnf' : ∀ t, bget w p dev blockno s ≠ Fault t)
    by (intros t; destruct Hout; congruence).
  clear Hout. subst s'. revert Hnf Hnf'. unfold bget, unlocked.
  set (c := blockno mod NBUCKET).
  destruct (lookup (acquire c s) dev blockno (chain (acquire c s) c)) as [b|].
  - intros _ _. rewrite acquiresleep_lock. simpl.
    by apply unlocked_after_pair.
  - destruct (scan_buckets c bucket_ids (mkscan (-1) UINT_MAX) (acquire c s))
      as [sc s1] eqn:E.
    destruct (bget_scan_locks blockno s sc s1 Hu E)
      as [(Hlen & Hidx & Hhc & Hn & Hh) _].
    fold c in Hidx, Hhc.
    destruct (Z.eqb_spec (index sc) (-1)) as [|Hneg];
      [intros Hp; by destruct (Hp _ _ eq_refl)|].
    destruct (unlink s1 (min_tick sc) (chain s1 (index sc))) as [[move rest]|];
      [|intros _ Hf; by destruct (Hf _ eq_refl)].
    intros _ _. rewrite acquiresleep_lock. simpl.
    specialize (Hh Hneg).
    apply holding_true in Hh. apply holding_true in Hhc.
    assert (Hc : 0 <= c < NBUCKET) by (apply Z.mod_pos_bound; by unfold NBUCKET).
    assert (Hne : Z.to_nat (index sc) ≠ Z.to_nat c) by lia.
    pose proof (nheld_drop _ _ Hh) as Hd1.
    assert (Hhc' : <[Z.to_nat (index sc) := false]> (bcache_lock s1)
                     !! Z.to_nat c = Some true).
    { by rewrite list_lookup_insert_ne. }
    pose proof (nheld_drop _ _ Hhc') as Hd2.
    set (L := <[Z.to_nat c := false]>
                (<[Z.to_nat (index sc) := false]> (bcache_lock s1))) in *.
    assert (HL : nheld L = 0%nat) by lia.
    apply nheld_zero in HL. rewrite HL.
    subst L. rewrite !length_insert, Hlen. reflexivity.
Qed.

Lemma bpin_unlocked w b s : unlocked s → unlocked (bpin w b s).
Proof. intros Hu. unfold unlocked. simpl. by apply unlocked_after_pair. Qed.

Lemma bunpin_unlocked w b s : unlocked s → unlocked (bunpin w b s).
Proof. intros Hu. unfold unlocked. simpl. by apply unlocked_after_pair. Qed.

Lemma brelse_unlocked w p b s s' :
  unlocked s → brelse w p b s = Done tt s' → unlocked s'.
Proof.
  intros Hu. unfold brelse. destruct (holdingsleep p b s); [|done]. simpl.
  intros [= <-]. unfold unlocked.
  destruct (_ =? 0); simpl; by apply unlocked_after_pair.
Qed.

Lemma bread_unlocked w p dev blockno s b s' :
  unlocked s → bread w p dev blockno s = Done b s' → unlocked s'.
Proof.
  intros Hu. unfold bread.
  destruct (bget w p dev blockno s) as [b1 s1| | |] eqn:E; [|done..].
  pose proof (bget_unlocked w p dev blockno s b1 s1 Hu (or_introl E)) as H1.
  destruct (_ =? 0); intros [= <- <-]; done.
Qed.

(** ** Which shard locks are held during the scan *)

Lemma nheld_ge l : ∀ ks,
  NoDup ks → (∀ k, k ∈ ks → l !! k = Some true) → (length ks <= nheld l)%nat.
Proof.
  intros ks. revert l.
  induction ks as [|k ks IH]; intros l Hnd Hall; [simpl; lia|].
  apply NoDup_cons in Hnd as [Hk Hnd].
  assert (Hlk : l !! k = Some true) by (apply Hall, elem_of_cons; by left).
  rewrite <- (nheld_drop l k Hlk). simpl.
  assert (length ks <= nheld (<[k := false]> l))%nat; [|lia].
  apply IH; [done|]. intros k' Hk'.
  rewrite list_lookup_insert_ne by (by intros ->).
  apply Hall, elem_of_cons. by right.
Qed.

Lemma NoDup_2 (a b : nat) : a ≠ b → NoDup [a; b].
Proof.
  intros. apply NoDup_cons. split; [|apply NoDup_singleton].
  rewrite list_elem_of_singleton. done.
Qed.

Lemma NoDup_3 (a b c : nat) : a ≠ b → a ≠ c → b ≠ c → NoDup [a; b; c].
Proof.
  intros. apply NoDup_cons. split; [|by apply NoDup_2].
  rewrite !elem_of_cons, elem_of_nil. intros [?|[?|[]]]; done.
Qed.

Lemma NoDup_4 (a b c d : nat) :
  a ≠ b → a ≠ c → a ≠ d → b ≠ c → b ≠ d → c ≠ d → NoDup [a; b; c; d].
Proof.
  intros. apply NoDup_cons. split; [|by apply NoDup_3].
  rewrite !elem_of_cons, elem_of_nil. intros [?|[?|[?|[]]]]; done.
Qed.

(** Between two shards the scan holds the target lock and the lock of the
    candidate's shard, and no other. *)
Lemma holds_exactly_between c sc s :
  0 <= c → between_shards c sc s → holds_exactly s (c :: candidate sc).
Proof.
  intros Hc (Hlen & Hidx & Hhc & Hn & Hh) i Hi. unfold candidate.
  apply holding_true in Hhc as Hlc.
  split.
  - intros Hli%holding_true.
    destruct (decide (i = c)) as [->|Hic]; [apply elem_of_cons; by left|].
    apply elem_of_cons. right.
    destruct (Z.eqb_spec (index sc) (-1)) as [Hm|Hm].
    + exfalso.
      pose proof (nheld_ge (bcache_lock s) [Z.to_nat c; Z.to_nat i]) as Hge.
      simpl in Hge. assert (2 <= nheld (bcache_lock s))%nat; [|lia].
      apply Hge; [apply NoDup_2; lia|].
      intros k. rewrite !elem_of_cons, elem_of_nil. intros [->|[->|[]]]; done.
    + specialize (Hh Hm). apply holding_true in Hh.
      destruct (decide (i = index sc)) as [->|Hii];
        [by apply list_elem_of_singleton|].
      exfalso. destruct Hidx as [?|[Hi0 Hic']]; [done|].
      pose proof (nheld_ge (bcache_lock s)
                    [Z.to_nat c; Z.to_nat (index sc); Z.to_nat i]) as Hge.
      simpl in Hge. assert (3 <= nheld (bcache_lock s))%nat; [|lia].
      apply Hge; [apply NoDup_3; lia|].
      intros k. rewrite !elem_of_cons, elem_of_nil.
      intros [->|[->|[->|[]]]]; done.
  - intros [->|Hin]%elem_of_cons; [done|].
    destruct (Z.eqb_spec (index sc) (-1)) as [Hm|Hm];
      [by apply elem_of_nil in Hin|].
    apply list_elem_of_singleton in Hin as ->. by apply Hh.
Qed.

(** Inside a shard the scan holds the target lock, the lock of the shard
    it walks and the lock of the candidate's shard, and no other. *)
Lemma holds_exactly_within c j sc s :
  0 <= c → 0 <= j → j ≠ c → within_shard c j sc s →
  holds_exactly s (c :: j :: candidate sc).
Proof.
  intros Hc Hj Hjc (Hlen & Hidx & Hhc & Hhj & Heq & Hne) i Hi.
  unfold candidate.
  apply holding_true in Hhc as Hlc. apply holding_true in Hhj as Hlj.
  split.
  - intros Hli%holding_true.
    destruct (decide (i = c)) as [->|Hic]; [apply elem_of_cons; by left|].
    destruct (decide (i = j)) as [->|Hij];
      [apply elem_of_cons; right; apply elem_of_cons; by left|].
    apply elem_of_cons. right. apply elem_of_cons. right.
    assert (H3 : (3 <= nheld (bcache_lock s))%nat).
    { pose proof (nheld_ge (bcache_lock s)
                    [Z.to_nat c; Z.to_nat j; Z.to_nat i]) as Hge.
      simpl in Hge. apply Hge; [apply NoDup_3; lia|].
      intros k. rewrite !elem_of_cons, elem_of_nil.
      intros [->|[->|[->|[]]]]; done. }
    destruct (decide (index sc = j)) as [Hxj|Hxj]; [specialize (Heq Hxj); lia|].
    destruct (Hne Hxj) as [Hn Hh].
    destruct (Z.eqb_spec (index sc) (-1)) as [Hm|Hm]; [lia|].
    specialize (Hh Hm). apply holding_true in Hh.
    destruct (decide (i = index sc)) as [->|Hii];
      [by apply list_elem_of_singleton|].
    exfalso. destruct Hidx as [?|[Hi0 Hic']]; [done|].
    pose proof (nheld_ge (bcache_lock s)
                  [Z.to_nat c; Z.to_nat j; Z.to_nat (index sc); Z.to_nat i]) as Hge.
    simpl in Hge. assert (4 <= nheld (bcache_lock s))%nat; [|lia].
    apply Hge; [apply NoDup_4; lia|].
    intros k. rewrite !elem_of_cons, elem_of_nil.
    intros [->|[->|[->|[->|[]]]]]; done.
  - intros [->|[->|Hin]%elem_of_cons]%elem_of_cons; [done..|].
    destruct (Z.eqb_spec (index sc) (-1)) as [Hm|Hm];
      [by apply elem_of_nil in Hin|].
    apply list_elem_of_singleton in Hin as ->.
    destruct (decide (index sc = j)) as [->|Hxj]; [done|].
    by apply (Hne Hxj).
Qed.

Lemma between_after_acquire c s :
  0 <= c < NBUCKET → unlocked s →
  between_shards c (mkscan (-1) UINT_MAX) (acquire c s).
Proof.
  intros Hc Hu.
  assert (Hn0 : nheld (bcache_lock s) = 0%nat).
  { rewrite Hu. apply nheld_replicate_false. }
  assert (Hlen : length (bcache_lock s) = Z.to_nat NBUCKET).
  { rewrite Hu. apply length_replicate. }
  split; [simpl; by rewrite length_insert|].
  split; [by left|]. split.
  { apply holding_true. simpl. apply list_lookup_insert_eq.
    unfold NBUCKET in *. lia. }
  split; [|done]. simpl.
  pose proof (nheld_insert_true_le (bcache_lock s) (Z.to_nat c)). lia.
Qed.

Lemma within_after_acquire c j sc s :
  0 <= c → 0 <= j < NBUCKET → j ≠ c →
  between_shards c sc s → within_shard c j sc (acquire j s).
Proof.
  intros Hc0 Hj Hjc (Hlen & Hidx & Hhc & Hn & Hh).
  split; [simpl; by rewrite length_insert|]. split; [done|].
  split.
  { apply holding_true in Hhc. apply holding_true. simpl.
    rewrite list_lookup_insert_ne by lia. done. }
  split.
  { apply holding_true. simpl. apply list_lookup_insert_eq.
    unfold NBUCKET in *. lia. }
  split.
  - intros Hij. simpl.
    assert (Hneg : index sc ≠ -1) by lia.
    specialize (Hh Hneg). apply holding_true in Hh. rewrite Hij in Hh.
    rewrite list_insert_id by done.
    destruct (Z.eqb_spec (index sc) (-1)); [done|lia].
  - intros Hij. split.
    + simpl. pose proof (nheld_insert_true_le (bcache_lock s) (Z.to_nat j)).
      destruct (index sc =? -1); lia.
    + intros Hneg. specialize (Hh Hneg). apply holding_true in Hh.
      apply holding_true. simpl. rewrite list_lookup_insert_ne by lia. done.
Qed.

(** *** The instants of the scan *)

Lemma scan_chain_app j c1 c2 sc s :
  scan_chain j (c1 ++ c2) sc s =
  let '(sc1, s1) := scan_chain j c1 sc s in scan_chain j c2 sc1 s1.
Proof.
  revert sc s. induction c1 as [|b c1 IH]; intros sc s; simpl; [done|].
  destruct (scan_buf j b sc s) as [sc1 s1]. apply IH.
Qed.

Lemma scan_buckets_app c js1 js2 sc s :
  scan_buckets c (js1 ++ js2) sc s =
  let '(sc1, s1) := scan_buckets c js1 sc s in scan_buckets c js2 sc1 s1.
Proof.
  revert sc s. induction js1 as [|j js1 IH]; intros sc s; simpl; [done|].
  destruct (can_lock c j =? 0); [apply IH|].
  destruct (scan_chain j (chain (acquire j s) j) sc (acquire j s)) as [sc2 s2].
  apply IH.
Qed.

Lemma bucket_ids_lookup n :
  (n < Z.to_nat NBUCKET)%nat → bucket_ids !! n = Some (Z.of_nat n).
Proof.
  intros Hn. unfold bucket_ids. rewrite list_lookup_fmap.
  by rewrite lookup_seq_lt.
Qed.

(** The scan of [bget] is the scan at the end of the [for] loop. *)
Lemma scan_upto_all c s :
  scan_upto c (Z.to_nat NBUCKET) s =
  scan_buckets c bucket_ids (mkscan (-1) UINT_MAX) (acquire c s).
Proof. reflexivity. Qed.

Lemma scan_upto_same_data c n s sc s1 :
  scan_upto c n s = (sc, s1) → same_data s s1.
Proof.
  intros E. apply scan_buckets_spec in E as (Hd & _).
  eapply same_data_trans; [apply (same_data_acquire c)|done].
Qed.

Lemma scan_inside_same_data c n m s sc s2 :
  scan_inside c n m s = (sc, s2) → same_data s s2.
Proof.
  unfold scan_inside. destruct (scan_upto c n s) as [sc1 s1] eqn:E1.
  intros E2. apply scan_upto_same_data in E1.
  apply scan_chain_spec in E2 as (Hd & _).
  eapply same_data_trans; [exact E1|].
  eapply same_data_trans; [apply (same_data_acquire (Z.of_nat n))|done].
Qed.

(** A shard the rule does not admit is skipped. *)
Lemma scan_upto_skip c n s :
  (n < Z.to_nat NBUCKET)%nat → can_lock c (Z.of_nat n) = 0 →
  scan_upto c (S n) s = scan_upto c n s.
Proof.
  intros Hn Hcl. unfold scan_upto.
  rewrite (take_S_r _ _ _ (bucket_ids_lookup n Hn)), scan_buckets_app.
  destruct (scan_buckets c (take n bucket_ids) _ _) as [sc s1].
  simpl. by rewrite Hcl.
Qed.

(** A shard the rule admits is locked and walked to the end of its chain;
    its lock is released unless the candidate sits in it. *)
Lemma scan_upto_step c n s :
  (n < Z.to_nat NBUCKET)%nat → can_lock c (Z.of_nat n) = 1 →
  scan_upto c (S n) s =
  let '(sc2, s2) := scan_inside c n (length (chain s (Z.of_nat n))) s in
  (sc2, if negb (Z.of_nat n =? index sc2) && holding (Z.of_nat n) s2
        then release (Z.of_nat n) s2 else s2).
Proof.
  intros Hn Hcl. unfold scan_inside, scan_upto at 1.
  rewrite (take_S_r _ _ _ (bucket_ids_lookup n Hn)), scan_buckets_app.
  fold (scan_upto c n s).
  destruct (scan_upto c n s) as [sc s1] eqn:E1.
  apply scan_upto_same_data in E1 as (_ & Hk & _).
  simpl. rewrite Hcl. simpl.
  assert (Hch : chain (acquire (Z.of_nat n) s1) (Z.of_nat n) = chain s (Z.of_nat n)).
  { by apply chain_same. }
  rewrite Hch, take_ge by done.
  by destruct (scan_chain (Z.of_nat n) (chain s (Z.of_nat n)) sc
                 (acquire (Z.of_nat n) s1)).
Qed.

(** Inside a shard the scan looks at one buffer after the other. *)
Lemma scan_inside_step c n m s b :
  chain s (Z.of_nat n) !! m = Some b →
  scan_inside c n (S m) s =
  let '(sc, s2) := scan_inside c n m s in scan_buf (Z.of_nat n) b sc s2.
Proof.
  intros Hb. unfold scan_inside.
  destruct (scan_upto c n s) as [sc s1] eqn:E1.
  apply scan_upto_same_data in E1 as (_ & Hk & _).
  assert (Hch : chain (acquire (Z.of_nat n) s1) (Z.of_nat n) = chain s (Z.of_nat n)).
  { by apply chain_same. }
  rewrite Hch, (take_S_r _ _ _ Hb), scan_chain_app.
  destruct (scan_chain (Z.of_nat n) (take m (chain s (Z.of_nat n))) sc
              (acquire (Z.of_nat n) s1)) as [sc2 s2].
  simpl. by destruct (scan_buf (Z.of_nat n) b sc2 s2).
Qed.

Lemma scan_upto_between c n s sc s1 :
  0 <= c < NBUCKET → unlocked s →
  scan_upto c n s = (sc, s1) → between_shards c sc s1.
Proof.
  intros Hc Hu E.
  assert (Hjs : ∀ j, j ∈ take n bucket_ids → 0 <= j < NBUCKET).
  { intros j Hj. apply elem_of_bucket_ids. by apply (subseteq_take n). }
  by destruct (scan_buckets_locks c _ _ _ _ _ (proj1 Hc) Hjs E
                 (between_after_acquire c s Hc Hu)).
Qed.

Lemma scan_inside_within c n m s sc s2 :
  0 <= c < NBUCKET → unlocked s →
  (n < Z.to_nat NBUCKET)%nat → can_lock c (Z.of_nat n) = 1 →
  scan_inside c n m s = (sc, s2) → within_shard c (Z.of_nat n) sc s2.
Proof.
  intros Hc Hu Hn Hcl. unfold scan_inside.
  destruct (scan_upto c n s) as [sc1 s1] eqn:E1. intros E2.
  pose proof (scan_upto_between c n s sc1 s1 Hc Hu E1) as Hbt.
  assert (Hjc : Z.of_nat n ≠ c).
  { intros Heq. rewrite Heq in Hcl. apply can_lock_cases in Hcl. lia. }
  assert (Hj : 0 <= Z.of_nat n < NBUCKET) by (unfold NBUCKET in *; lia).
  pose proof (within_after_acquire c _ sc1 s1 (proj1 Hc) Hj Hjc Hbt) as Hin.
  by destruct (scan_chain_locks c _ _ _ _ _ _ (proj1 Hc) (proj1 Hj) Hjc E2 Hin).
Qed.

(** *** The target lock is held throughout *)

Lemma kept_refl c s : kept c s s.
Proof. exists []. by rewrite app_nil_r. Qed.

Lemma kept_trans c s1 s2 s3 : kept c s1 s2 → kept c s2 s3 → kept c s1 s3.
Proof.
  intros (t1 & H1 & F1) (t2 & H2 & F2). exists (t1 ++ t2). split.
  - by rewrite H2, H1, app_assoc.
  - unfold snapshots. rewrite omap_app. by apply Forall_app.
Qed.

Lemma kept_acquire c i s : holding c s = true → kept c s (acquire i s).
Proof.
  intros Hh%holding_true. eexists [_]. split; [reflexivity|].
  repeat constructor. unfold holds_lock.
  destruct (decide (Z.to_nat i = Z.to_nat c)) as [Heq|Hne].
  - rewrite Heq. apply list_lookup_insert_eq. by eapply lookup_lt_Some.
  - by rewrite list_lookup_insert_ne.
Qed.

Lemma kept_acquire_target c s :
  (Z.to_nat c < length (bcache_lock s))%nat → kept c s (acquire c s).
Proof.
  intros Hc. eexists [_]. split; [reflexivity|].
  repeat constructor. unfold holds_lock. by apply list_lookup_insert_eq.
Qed.

Lemma kept_release c i s :
  Z.to_nat i ≠ Z.to_nat c → holding c s = true → kept c s (release i s).
Proof.
  intros Hne Hh%holding_true. eexists [_]. split; [reflexivity|].
  repeat constructor. unfold holds_lock. by rewrite list_lookup_insert_ne.
Qed.

Lemma scan_buf_kept c j b sc s sc' s' :
  0 <= c → 0 <= j → j ≠ c →
  scan_buf j b sc s = (sc', s') → within_shard c j sc s → kept c s s'.
Proof.
  unfold scan_buf. intros Hc0 Hj Hjc H (Hlen & Hidx & Hhc & _).
  destruct (b_refcnt (getbuf s b) =? 0);
    [|injection H as <- <-; apply kept_refl].
  destruct (b_time (getbuf s b) <? min_tick sc);
    [|injection H as <- <-; apply kept_refl].
  injection H as <- <-.
  destruct (Z.eqb_spec (index sc) (-1)) as [Hm|Hm]; simpl; [apply kept_refl|].
  destruct (negb (index sc =? j) && holding (index sc) s); [|apply kept_refl].
  apply kept_release; [|done]. destruct Hidx as [?|[? ?]]; [done|lia].
Qed.

Lemma scan_chain_kept c j ch : ∀ sc s sc' s',
  0 <= c → 0 <= j → j ≠ c →
  scan_chain j ch sc s = (sc', s') → within_shard c j sc s → kept c s s'.
Proof.
  induction ch as [|b ch IH]; intros sc s sc' s' Hc0 Hj Hjc H Hin; simpl in H.
  - injection H as <- <-. apply kept_refl.
  - destruct (scan_buf j b sc s) as [sc1 s1] eqn:E1.
    destruct (scan_buf_locks _ _ _ _ _ _ _ Hc0 Hj Hjc E1 Hin) as [Hin1 _].
    eapply kept_trans; [by eapply scan_buf_kept|by eapply IH].
Qed.

Lemma scan_buckets_kept c js : ∀ sc s sc' s',
  0 <= c →
  (∀ j, j ∈ js → 0 <= j < NBUCKET) →
  scan_buckets c js sc s = (sc', s') →
  between_shards c sc s → kept c s s'.
Proof.
  induction js as [|j js IH]; intros sc s sc' s' Hc0 Hjs H Hout.
  - injection H as <- <-. apply kept_refl.
  - assert (Hjs' : ∀ j', j' ∈ js → 0 <= j' < NBUCKET).
    { intros j' Hj'. apply Hjs, elem_of_cons. by right. }
    assert (Hj : 0 <= j < NBUCKET).
    { apply Hjs, elem_of_cons. by left. }
    change (j :: js) with ([j] ++ js) in H. rewrite scan_buckets_app in H.
    destruct (scan_buckets c [j] sc s) as [sc3 s3] eqn:E3.
    assert (Hjs1 : ∀ j', j' ∈ [j] → 0 <= j' < NBUCKET).
    { intros j' ->%list_elem_of_singleton. done. }
    destruct (scan_buckets_locks c [j] _ _ _ _ Hc0 Hjs1 E3 Hout) as [Hout3 _].
    eapply kept_trans; [|by eapply IH].
    simpl in E3.
    destruct (Z.eqb_spec (can_lock c j) 0) as [|Hcl];
      [injection E3 as <- <-; apply kept_refl|].
    assert (Hjc : j ≠ c).
    { intros ->. destruct (can_lock_bool c c) as [?|Hone]; [done|].
      apply can_lock_cases in Hone. lia. }
    destruct (scan_chain j (chain (acquire j s) j) sc (acquire j s))
      as [sc2 s2] eqn:E2.
    injection E3 as <- <-.
    pose proof (within_after_acquire c j sc s Hc0 Hj Hjc Hout) as Hin.
    destruct (scan_chain_locks _ _ _ _ _ _ _ Hc0 (proj1 Hj) Hjc E2 Hin)
      as [(_ & _ & Hhc2 & _) _].
    destruct Hout as (_ & _ & Hhc & _).
    eapply kept_trans; [by apply kept_acquire|].
    eapply kept_trans;
      [exact (scan_chain_kept c j _ _ _ _ _ Hc0 (proj1 Hj) Hjc E2 Hin)|].
    destruct (_ && _); [|apply kept_refl].
    apply kept_release; [lia|done].
Qed.

Lemma target_kept_return c s sD sE p v :
  kept c s sD →
  trace sE = trace sD ++ [Release c (bcache_lock sE)] →
  unlocked sE →
  target_kept c s (acquiresleep p v sE).
Proof.
  intros (t & Ht & HF) HE Hu. unfold acquiresleep.
  destruct (b_lock (getbuf sE v)).
  - exists (t ++ [Release c (bcache_lock sE)]). split.
    + simpl. by rewrite HE, Ht, app_assoc.
    + exists (snapshots t). split; [|done].
      unfold snapshots. rewrite omap_app. simpl. by rewrite Hu.
  - exists (t ++ [Release c (bcache_lock sE); AcquireSleep v]). split.
    + simpl. rewrite HE, Ht, <- !app_assoc. reflexivity.
    + exists (snapshots t). split; [|done].
      unfold snapshots. rewrite omap_app. simpl. by rewrite Hu.
Qed.

(** [bget] keeps the lock of the target shard from its first spinlock call
    to its last. *)
Lemma bget_target_kept w p dev blockno s :
  unlocked s →
  target_kept (blockno mod NBUCKET) s (bget w p dev blockno s).
Proof.
  intros Hu.
  set (c := blockno mod NBUCKET).
  assert (Hc : 0 <= c < NBUCKET) by (apply Z.mod_pos_bound; by unfold NBUCKET).
  assert (Hlen : length (bcache_lock s) = Z.to_nat NBUCKET).
  { rewrite Hu. apply length_replicate. }
  assert (Hk0 : kept c s (acquire c s)).
  { apply kept_acquire_target. unfold NBUCKET in *. lia. }
  assert (Hret : ∀ v sE,
            bget w p dev blockno s = acquiresleep p v sE → unlocked sE).
  { intros v sE Hb. unfold unlocked.
    rewrite <- (acquiresleep_lock p v sE).
    destruct (acquiresleep_cases p v sE) as [[_ [s' Hd]]|[_ Hs]].
    - rewrite Hd. simpl.
      apply (bget_unlocked w p dev blockno s v s' Hu). left. congruence.
    - rewrite Hs. simpl.
      apply (bget_unlocked w p dev blockno s v sE Hu). right. congruence. }
  revert Hret. unfold bget. fold c.
  destruct (lookup (acquire c s) dev blockno (chain (acquire c s) c)) as [b|].
  - intros Hret.
    eapply (target_kept_return c s _ _ p b); [| |apply (Hret _ _ eq_refl)].
    + eapply kept_trans; [exact Hk0|]. exists []. by rewrite app_nil_r.
    + reflexivity.
  - destruct (scan_buckets c bucket_ids (mkscan (-1) UINT_MAX) (acquire c s))
      as [sc s1] eqn:E.
    pose proof (bget_scan_locks blockno s sc s1 Hu E)
      as [(_ & Hidx & Hhc & _ & Hh) _].
    fold c in Hidx, Hhc.
    assert (Hk1 : kept c s s1).
    { eapply kept_trans; [exact Hk0|].
      eapply (scan_buckets_kept c bucket_ids _ _ _ _ (proj1 Hc)
                (λ j, proj1 (elem_of_bucket_ids j)) E).
      by apply between_after_acquire. }
    destruct (Z.eqb_spec (index sc) (-1)) as [|Hneg].
    { intros _. destruct Hk1 as (t & Ht & HF). by exists t. }
    destruct (unlink s1 (min_tick sc) (chain s1 (index sc))) as [[move rest]|].
    2:{ intros _. destruct Hk1 as (t & Ht & HF). by exists t. }
    intros Hret.
    eapply (target_kept_return c s _ _ p move); [| |apply (Hret _ _ eq_refl)].
    + eapply kept_trans; [exact Hk1|].
      set (sB := set_chain (index sc) rest
                   (setbuf move (recycle dev blockno (getbuf s1 move)) s1)).
      apply (kept_trans _ _ (release (index sc) sB)).
      * assert (Hks : kept c s1 sB) by (exists []; by rewrite app_nil_r).
        eapply kept_trans; [exact Hks|].
        apply kept_release; [destruct Hidx as [?|[? ?]]; [done|lia]|done].
      * exists []. by rewrite app_nil_r.
    + reflexivity.
Qed.

(** ** Chains of a well-formed cache *)

Lemma elem_of_concat_lookup (L : list (list nat)) : ∀ i l x,
  L !! i = Some l → x ∈ l → x ∈ concat L.
Proof.
  induction L as [|h L IH]; intros i l x Hi Hx; [done|].
  simpl. apply elem_of_app. destruct i as [|i]; simpl in Hi.
  - left. by injection Hi as ->.
  - right. by eapply IH.
Qed.

Lemma NoDup_concat_lookup (L : list (list nat)) : ∀ i l,
  NoDup (concat L) → L !! i = Some l → NoDup l.
Proof.
  induction L as [|h L IH]; intros i l Hn Hi; [done|].
  simpl in Hn. apply NoDup_app in Hn as (Hh & _ & HL).
  destruct i as [|i]; simpl in Hi.
  - by injection Hi as <-.
  - by eapply IH.
Qed.

Lemma NoDup_concat_disjoint (L : list (list nat)) : ∀ i j li lj x,
  NoDup (concat L) → L !! i = Some li → L !! j = Some lj →
  x ∈ li → x ∈ lj → i = j.
Proof.
  induction L as [|h L IH]; intros i j li lj x Hn Hi Hj Hxi Hxj; [done|].
  simpl in Hn. apply NoDup_app in Hn as (Hh & Hdis & HL).
  destruct i as [|i], j as [|j]; simpl in Hi, Hj.
  - done.
  - injection Hi as <-. exfalso. apply (Hdis x Hxi).
    by eapply elem_of_concat_lookup.
  - injection Hj as <-. exfalso. apply (Hdis x Hxj).
    by eapply elem_of_concat_lookup.
  - f_equal. by eapply IH.
Qed.

Lemma wf_chain_lookup s j :
  wf s → 0 <= j < NBUCKET → bcache_bucket s !! Z.to_nat j = Some (chain s j).
Proof.
  intros (Hlen & _) Hj. unfold chain.
  destruct (bcache_bucket s !! Z.to_nat j) eqn:E; [done|].
  apply lookup_ge_None in E. unfold NBUCKET in *. lia.
Qed.

Lemma wf_chain_valid s j b :
  wf s → 0 <= j < NBUCKET → b ∈ chain s j → (b < length (bcache_buf s))%nat.
Proof.
  intros Hwf Hj Hb. pose proof (wf_chain_lookup s j Hwf Hj) as Hl.
  destruct Hwf as (_ & _ & Hv & _). apply Hv.
  by eapply elem_of_concat_lookup.
Qed.

(** ** Well-formedness is an invariant *)

Lemma wf_same s s' :
  bcache_buf s' = bcache_buf s → bcache_bucket s' = bcache_bucket s →
  wf s → wf s'.
Proof.
  intros Hb Hk. unfold wf, chain, getbuf. rewrite Hb, Hk. done.
Qed.

Lemma wf_setbuf s b bf :
  b_blockno bf = b_blockno (getbuf s b) → wf s → wf (setbuf b bf s).
Proof.
  intros Hbn Hwf. pose proof Hwf as (Hlen & Hnd & Hv & Hh).
  split; [done|]. split; [done|]. split.
  - intros x Hx. simpl. rewrite length_insert. by apply Hv.
  - intros j x Hj Hx. change (chain (setbuf b bf s) j) with (chain s j) in Hx.
    rewrite <- (Hh j x Hj Hx). f_equal.
    destruct (decide (b = x)) as [<-|Hne].
    + rewrite getbuf_setbuf_eq; [done|]. by eapply wf_chain_valid.
    + by rewrite getbuf_setbuf_ne.
Qed.

Lemma wf_acquire i s : wf s → wf (acquire i s).
Proof. by apply wf_same. Qed.

Lemma wf_release i s : wf s → wf (release i s).
Proof. by apply wf_same. Qed.

Lemma wf_log e s : wf s → wf (log e s).
Proof. by apply wf_same. Qed.

Lemma wf_with_ticks t s : wf s → wf (with_ticks t s).
Proof. by apply wf_same. Qed.

Lemma wf_acquiresleep p b s : wf s → wf (final_state (acquiresleep p b s)).
Proof.
  intros Hwf. unfold acquiresleep. destruct (b_lock (getbuf s b)); [done|].
  simpl. by apply wf_log, wf_setbuf.
Qed.

(** A pool whose buffers all sit in the chain of shard 0, in index order,
    is well-formed when the block number of each hashes to shard 0. *)
Lemma fresh_pool_wf NBUF s :
  length (bcache_buf s) = NBUF →
  (∀ b, (b < NBUF)%nat → b_blockno (getbuf s b) mod NBUCKET = 0) →
  wf (with_bucket (seq 0 NBUF :: replicate (Z.to_nat NBUCKET - 1) []) s).
Proof.
  intros Hlen Hz.
  split; [done|]. simpl. rewrite app_nil_r. split; [|split].
  - apply NoDup_seq.
  - intros b Hb%elem_of_seq. lia.
  - intros j b Hj. unfold chain. simpl.
    destruct (Z.to_nat j) as [|k] eqn:Ek; simpl.
    + intros Hb%elem_of_seq.
      change (getbuf (with_bucket _ s) b) with (getbuf s b).
      rewrite Hz by lia. lia.
    + change [[]; []; []; []; []; []; []; []; []; []; []; []]
        with (replicate 12 (@nil nat)).
      destruct (replicate 12 (@nil nat) !! k) as [l|] eqn:El; simpl.
      * apply lookup_replicate in El as [-> _]. by intros ?%elem_of_nil.
      * by intros ?%elem_of_nil.
Qed.

Lemma concat_insert_perm (L : list (list nat)) : ∀ i l l',
  L !! i = Some l → concat (<[i := l']> L) ≡ₚ l' ++ concat (<[i := []]> L).
Proof.
  induction L as [|h L IH]; intros i l l' H; [done|].
  destruct i as [|i]; simpl in *; [done|].
  rewrite (IH _ _ l' H), !app_assoc. f_equiv. apply Permutation_app_comm.
Qed.

(** Moving [v] from chain [j] to the end of chain [c] permutes the
    buffers chained in the cache. *)
Lemma concat_move_perm (B : list (list nat)) (j c : nat) cc c1 c2 v :
  j ≠ c → B !! c = Some cc → B !! j = Some (c1 ++ v :: c2) →
  concat (<[c := cc ++ [v]]> (<[j := c1 ++ c2]> B)) ≡ₚ concat B.
Proof.
  intros Hjc Hc Hj.
  assert (HB : concat B ≡ₚ
               cc ++ (c1 ++ v :: c2) ++ concat (<[j := []]> (<[c := []]> B))).
  { transitivity (concat (<[c := cc]> B)); [by rewrite list_insert_id|].
    rewrite (concat_insert_perm _ c cc cc Hc). f_equiv.
    transitivity (concat (<[j := c1 ++ v :: c2]> (<[c := []]> B))).
    - rewrite (list_insert_id (<[c := []]> B) j); [reflexivity|].
      by rewrite list_lookup_insert_ne.
    - apply (concat_insert_perm _ j (c1 ++ v :: c2)).
      by rewrite list_lookup_insert_ne. }
  rewrite HB.
  rewrite (concat_insert_perm _ c cc) by (by rewrite list_lookup_insert_ne).
  rewrite (list_insert_insert_ne _ c j) by done.
  rewrite (concat_insert_perm _ j (c1 ++ v :: c2))
    by (by rewrite list_lookup_insert_ne).
  rewrite <- !app_assoc. f_equiv. simpl. apply Permutation_middle.
Qed.

(** The cache after the victim [v] has moved from shard [j] to the target
    shard [c] under its new identity. *)
Lemma moved_facts s s2 (c j : Z) v c1 c2 dev blockno :
  wf s → 0 <= c < NBUCKET → 0 <= j < NBUCKET → j ≠ c →
  chain s j = c1 ++ v :: c2 →
  bcache_buf s2 = <[v := recycle dev blockno (getbuf s v)]> (bcache_buf s) →
  bcache_bucket s2 =
    <[Z.to_nat c := chain s c ++ [v]]>
      (<[Z.to_nat j := c1 ++ c2]> (bcache_bucket s)) →
  chain s2 c = chain s c ++ [v] ∧ chain s2 j = c1 ++ c2 ∧
  (∀ i, 0 <= i < NBUCKET → i ≠ j → i ≠ c → chain s2 i = chain s i) ∧
  (∀ i, 0 <= i < NBUCKET → i ≠ j → ¬ (v ∈ chain s i)) ∧
  ¬ (v ∈ c1 ++ c2) ∧
  (v < length (bcache_buf s))%nat ∧
  getbuf s2 v = recycle dev blockno (getbuf s v) ∧
  (∀ x, x ≠ v → getbuf s2 x = getbuf s x).
Proof.
  intros Hwf Hc Hj Hjc Hch Hbuf Hbk.
  assert (Hvj : v ∈ chain s j).
  { rewrite Hch. apply elem_of_app. right. apply elem_of_cons. by left. }
  pose proof (wf_chain_valid s j v Hwf Hj Hvj) as Hv.
  pose proof (wf_chain_lookup s j Hwf Hj) as Hlj.
  pose proof Hwf as (Hlen & Hnd & _).
  assert (Hndj : NoDup (c1 ++ v :: c2)).
  { rewrite <- Hch. by eapply NoDup_concat_lookup. }
  split.
  { unfold chain at 1. rewrite Hbk.
    rewrite list_lookup_insert_eq; [done|].
    rewrite length_insert. unfold NBUCKET in *. lia. }
  split.
  { unfold chain. rewrite Hbk.
    rewrite list_lookup_insert_ne by lia.
    rewrite list_lookup_insert_eq by (unfold NBUCKET in *; lia). done. }
  split.
  { intros i Hi Hij Hic. unfold chain. rewrite Hbk.
    rewrite !list_lookup_insert_ne by lia. done. }
  split.
  { intros i Hi Hij Hin.
    pose proof (wf_chain_lookup s i Hwf Hi) as Hli.
    pose proof (NoDup_concat_disjoint _ _ _ _ _ _ Hnd Hlj Hli Hvj Hin). lia. }
  split.
  { apply NoDup_app in Hndj as (_ & Hdis & Hnd2).
    apply NoDup_cons in Hnd2 as [Hn2 _].
    intros [Hin|Hin]%elem_of_app; [|done].
    apply (Hdis v Hin). apply elem_of_cons. by left. }
  split; [done|]. split.
  - unfold getbuf at 1. rewrite Hbuf. by rewrite list_lookup_insert_eq.
  - intros x Hx. unfold getbuf. rewrite Hbuf.
    by rewrite list_lookup_insert_ne.
Qed.

Lemma bget_wf w p dev blockno s :
  wf s → wf (final_state (bget w p dev blockno s)).
Proof.
  intros Hwf.
  destruct (lookup s dev blockno (chain s (blockno mod NBUCKET)))
    as [b|] eqn:Hl.
  - unfold bget.
    rewrite (lookup_same s (acquire _ s)) by done.
    change (chain (acquire (blockno mod NBUCKET) s) (blockno mod NBUCKET))
      with (chain s (blockno mod NBUCKET)).
    rewrite Hl. apply wf_acquiresleep, wf_release, wf_setbuf; [done|].
    by apply wf_acquire.
  - set (c := blockno mod NBUCKET) in *.
    assert (Hc : 0 <= c < NBUCKET) by (apply Z.mod_pos_bound; by unfold NBUCKET).
    destruct (bget_miss w p dev blockno s Hl)
      as [(_ & (s1 & -> & Hsd) & _)
         |(j & v & c1 & c2 & s2 & _ & _ & [Hj Hcl] & Hch & _ & _ & _ & -> & Hbuf & Hbk & _)].
    + simpl. destruct Hsd as (Hb & Hk & _). by apply (wf_same s).
    + fold c in Hcl, Hbk. apply wf_acquiresleep.
      assert (Hjc : j ≠ c).
      { intros ->. apply can_lock_cases in Hcl. lia. }
      destruct (moved_facts s s2 c j v c1 c2 dev blockno Hwf Hc Hj Hjc Hch Hbuf Hbk)
        as (Hcc & Hcj & Hci & Hvi & Hvr & Hv & Hgv & Hgx).
      pose proof (wf_chain_lookup s j Hwf Hj) as Hlj. rewrite Hch in Hlj.
      pose proof (wf_chain_lookup s c Hwf Hc) as Hlc.
      assert (Hjc' : Z.to_nat j ≠ Z.to_nat c) by lia.
      pose proof (concat_move_perm _ _ _ _ _ _ _ Hjc' Hlc Hlj) as Hperm.
      destruct Hwf as (Hlen & Hnd & Hval & Hh).
      split; [by rewrite Hbk, !length_insert|].
      split; [by rewrite Hbk, Hperm|]. split.
      * intros b Hb. rewrite Hbk, Hperm in Hb.
        rewrite Hbuf, length_insert. by apply Hval.
      * intros i x Hi Hx.
        destruct (decide (i = c)) as [->|Hic].
        { rewrite Hcc in Hx. apply elem_of_app in Hx as [Hx|Hx].
          - rewrite Hgx; [by apply Hh|]. intros ->. by apply (Hvi c).
          - apply list_elem_of_singleton in Hx as ->. rewrite Hgv. done. }
        destruct (decide (i = j)) as [->|Hij].
        { rewrite Hcj in Hx. rewrite Hgx; [|by intros ->].
          apply Hh; [done|]. rewrite Hch.
          apply elem_of_app in Hx as [Hx|Hx]; apply elem_of_app;
            [by left|right; apply elem_of_cons; by right]. }
        rewrite Hci in Hx by done.
        rewrite Hgx; [by apply Hh|]. intros ->. by apply (Hvi i).
Qed.

Lemma bpin_wf w b s : wf s → wf (bpin w b s).
Proof.
  intros Hwf. unfold bpin. apply wf_release, wf_setbuf; [done|].
  by apply wf_acquire.
Qed.

Lemma bunpin_wf w b s : wf s → wf (bunpin w b s).
Proof.
  intros Hwf. unfold bunpin. apply wf_release, wf_setbuf; [done|].
  by apply wf_acquire.
Qed.

Lemma brelse_wf w p b s : wf s → wf (final_state (brelse w p b s)).
Proof.
  intros Hwf. unfold brelse. destruct (holdingsleep p b s); [|done]. simpl.
  apply wf_release.
  assert (H1 : wf (releasesleep b s)) by (by apply wf_log, wf_setbuf).
  set (s1 := releasesleep b s) in *.
  set (i := b_blockno (getbuf s1 b) mod NBUCKET).
  assert (H2 : wf (setbuf b
                     (set_refcnt (uint w (b_refcnt (getbuf (acquire i s1) b) - 1))
                        (getbuf (acquire i s1) b)) (acquire i s1))).
  { apply wf_setbuf; [done|]. by apply wf_acquire. }
  destruct (_ =? 0); [|done]. by apply wf_setbuf.
Qed.

Lemma bread_wf w p dev blockno s :
  wf s → wf (final_state (bread w p dev blockno s)).
Proof.
  intros Hwf. pose proof (bget_wf w p dev blockno s Hwf) as H.
  unfold bread. destruct (bget w p dev blockno s) as [b s1| | |]; [|done..].
  simpl in H. destruct (_ =? 0); [|done]. simpl.
  apply wf_setbuf; [done|]. unfold virtio_disk_rw.
  by apply wf_log, wf_setbuf.
Qed.

Lemma bwrite_wf p b s : wf s → wf (final_state (bwrite p b s)).
Proof.
  intros Hwf. unfold bwrite. destruct (holdingsleep p b s); [|done]. simpl.
  by apply (wf_same s).
Qed.

Lemma s_boot_wf : wf s_boot.
Proof.
  change s_boot
    with (with_bucket (seq 0 30 :: replicate (Z.to_nat NBUCKET - 1) []) m0).
  apply fresh_pool_wf; [reflexivity|].
  intros b Hb. unfold getbuf.
  change (bcache_buf m0) with (replicate 30 buf0).
  rewrite lookup_replicate_2 by done. reflexivity.
Qed.

Lemma s_held_wf : wf s_held.
Proof. unfold s_held. apply wf_with_ticks, bread_wf, s_boot_wf. Qed.

Lemma wf_s_idle : wf s_idle.
Proof. unfold s_idle. apply brelse_wf, s_held_wf. Qed.

(** ** The move of the victim *)

(** [unlink] stops at the first buffer of the chain that is unreferenced
    and carries the timestamp [mt]. *)
Lemma unlink_first s mt c : ∀ m r,
  unlink s mt c = Some (m, r) →
  ∃ c1 c2, c = c1 ++ m :: c2 ∧ r = c1 ++ c2 ∧
    ∀ x, x ∈ c1 → ¬ (b_refcnt (getbuf s x) = 0 ∧ b_time (getbuf s x) = mt).
Proof.
  induction c as [|b c IH]; intros m r H; simpl in H; [done|].
  destruct ((b_refcnt (getbuf s b) =? 0) && (b_time (getbuf s b) =? mt)) eqn:E.
  - injection H as <- <-. exists [], c. split; [done|]. split; [done|].
    intros x Hx. by apply elem_of_nil in Hx.
  - destruct (unlink s mt c) as [[m' r']|] eqn:Eu; [|done].
    injection H as <- <-.
    destruct (IH _ _ eq_refl) as (c1 & c2 & -> & -> & Hfirst).
    exists (b :: c1), c2. split; [done|]. split; [done|].
    intros x [->|Hx]%elem_of_cons; [|by apply Hfirst].
    intros [Hr Ht]. rewrite Hr, Ht, !Z.eqb_refl in E. done.
Qed.

(** C5: on the miss path [bget] takes the chosen victim [v] - an
    unreferenced buffer of a scanned shard, least recently released among
    the unreferenced buffers of the scanned shards and the first such
    buffer of its chain - out of the chain of its donor shard, gives it the
    requested identity with [valid = 0] and [refcnt = 1], appends it to
    the chain of the target shard [blockno mod NBUCKET], and returns it
    with its content lock held by the caller; afterwards [v] is absent
    from the donor chain and occurs exactly once in the target chain.
    Nothing else moves or changes. *)
Theorem bget_miss_moves_victim (w p dev blockno : Z) (s s' : machine) (v : nat) :
  wf s → miss dev blockno s →
  bget w p dev blockno s = Done v s' →
  ∃ j c1 c2,
    scanned (blockno mod NBUCKET) j ∧ j ≠ blockno mod NBUCKET ∧
    b_refcnt (getbuf s v) = 0 ∧
    (∀ j' b, scanned (blockno mod NBUCKET) j' → idle_in s j' b →
             b_time (getbuf s v) <= b_time (getbuf s b)) ∧
    chain s j = c1 ++ v :: c2 ∧
    (∀ x, x ∈ c1 → ¬ (b_refcnt (getbuf s x) = 0 ∧
                       b_time (getbuf s x) = b_time (getbuf s v))) ∧
    chain s' j = c1 ++ c2 ∧ ¬ (v ∈ chain s' j) ∧
    chain s' (blockno mod NBUCKET) = chain s (blockno mod NBUCKET) ++ [v] ∧
    count_occ Nat.eq_dec (chain s' (blockno mod NBUCKET)) v = 1%nat ∧
    getbuf s' v =
      mkbuf 0 dev blockno (Some p) 1 (b_time (getbuf s v)) (b_data (getbuf s v)) ∧
    (∀ i, 0 <= i < NBUCKET → i ≠ j → i ≠ blockno mod NBUCKET →
          chain s' i = chain s i) ∧
    (∀ b, b ≠ v → getbuf s' b = getbuf s b).
Proof.
  intros Hwf Hmiss Hdone.
  set (c := blockno mod NBUCKET) in *.
  assert (Hc : 0 <= c < NBUCKET) by (apply Z.mod_pos_bound; by unfold NBUCKET).
  destruct (bget_miss w p dev blockno s Hmiss)
    as [(_ & (s1 & Hp & _) & _)
       |(j & v' & d1 & d2 & s2 & _ & Hu & Hj & _ & Hr & _ & Hmin & Hb & Hbuf & Hbk & _)];
    [congruence|].
  fold c in Hj, Hbk, Hmin. rewrite Hb in Hdone.
  assert (v = v') as <-.
  { eapply acquiresleep_returns. by left. }
  destruct (unlink_first _ _ _ _ _ Hu) as (c1 & c2 & Hch & Heq & Hfirst).
  rewrite Heq in Hbk.
  unfold acquiresleep in Hdone.
  destruct (b_lock (getbuf s2 v)) eqn:Hl; [done|].
  injection Hdone as <-.
  destruct Hj as [Hj Hcl].
  assert (Hjc : j ≠ c).
  { intros ->. apply can_lock_cases in Hcl. lia. }
  destruct (moved_facts s s2 c j v c1 c2 dev blockno Hwf Hc Hj Hjc Hch Hbuf Hbk)
    as (Hcc & Hcj & Hci & Hvi & Hvr & Hv & Hgv & Hgx).
  set (s' := log (AcquireSleep v) (setbuf v (set_lock (Some p) (getbuf s2 v)) s2)).
  assert (Hchain : ∀ i, chain s' i = chain s2 i) by done.
  exists j, c1, c2.
  split; [done|]. split; [done|]. split; [done|]. split.
  { intros j' b Hj' [Hin Hrb]. by apply (Hmin j'). }
  split; [done|]. split; [done|].
  split; [by rewrite Hchain|]. split; [by rewrite Hchain, Hcj|].
  split; [by rewrite Hchain|]. split.
  { rewrite Hchain, Hcc, count_occ_app. simpl.
    rewrite (proj1 (count_occ_not_In Nat.eq_dec (chain s c) v)).
    - destruct (Nat.eq_dec v v); [done|congruence].
    - rewrite <- list_elem_of_In. by apply Hvi. }
  split.
  { unfold getbuf at 1. simpl. rewrite list_lookup_insert_eq.
    - simpl. rewrite Hgv. reflexivity.
    - rewrite Hbuf, length_insert. done. }
  split.
  - intros i Hi Hij Hic. rewrite Hchain. by apply Hci.
  - intros b Hbv. rewrite <- Hgx by done. unfold getbuf. simpl.
    by rewrite list_lookup_insert_ne.
Qed.

Lemma wf_s_two : wf s_two.
Proof.
  unfold s_two.
  apply brelse_wf, wf_with_ticks, brelse_wf, wf_with_ticks, bread_wf, bread_wf,
    s_boot_wf.
Qed.

Lemma bget_miss_moves_victim_witness :
  ∃ j c1 c2,
    scanned (6 mod NBUCKET) j ∧ j ≠ 6 mod NBUCKET ∧
    b_refcnt (getbuf s_two 1) = 0 ∧
    (∀ j' b, scanned (6 mod NBUCKET) j' → idle_in s_two j' b →
             b_time (getbuf s_two 1) <= b_time (getbuf s_two b)) ∧
    chain s_two j = c1 ++ 1%nat :: c2 ∧
    (∀ x, x ∈ c1 → ¬ (b_refcnt (getbuf s_two x) = 0 ∧
                       b_time (getbuf s_two x) = b_time (getbuf s_two 1))) ∧
    chain (final_state (bget 32 1 1 6 s_two)) j = c1 ++ c2 ∧
    ¬ (1%nat ∈ chain (final_state (bget 32 1 1 6 s_two)) j) ∧
    chain (final_state (bget 32 1 1 6 s_two)) (6 mod NBUCKET)
      = chain s_two (6 mod NBUCKET) ++ [1%nat] ∧
    count_occ Nat.eq_dec
      (chain (final_state (bget 32 1 1 6 s_two)) (6 mod NBUCKET)) 1%nat = 1%nat ∧
    getbuf (final_state (bget 32 1 1 6 s_two)) 1 =
      mkbuf 0 1 6 (Some 1) 1 (b_time (getbuf s_two 1)) (b_data (getbuf s_two 1)) ∧
    (∀ i, 0 <= i < NBUCKET → i ≠ j → i ≠ 6 mod NBUCKET →
          chain (final_state (bget 32 1 1 6 s_two)) i = chain s_two i) ∧
    (∀ b, b ≠ 1%nat → getbuf (final_state (bget 32 1 1 6 s_two)) b = getbuf s_two b).
Proof.
  apply (bget_miss_moves_victim 32 1 1 6 s_two _ 1 wf_s_two).
  - by vm_compute.
  - vm_compute. reflexivity.
Defined.

(** In [s_two] the victim of the request for block 6 is buffer 1, which
    stands behind buffer 0 in the chain of shard 1. *)
Example s_two_victim :
  chain s_two 1 = [0%nat; 1%nat] ∧
  b_time (getbuf s_two 0) = 9 ∧ b_time (getbuf s_two 1) = 5 ∧
  ∃ s', bget 32 1 1 6 s_two = Done 1%nat s' ∧ chain s' 1 = [0%nat] ∧
        chain s' 6 = [1%nat].
Proof.
  split; [by vm_compute|]. split; [by vm_compute|]. split; [by vm_compute|].
  eexists. split; [vm_compute; reflexivity|]. by vm_compute.
Qed.

(** ** The choice of the victim depends on buffers and chains only *)

Lemma scan_buf_fst j b sc s1 s2 :
  bcache_buf s1 = bcache_buf s2 →
  (scan_buf j b sc s1).1 = (scan_buf j b sc s2).1.
Proof.
  intros H. unfold scan_buf. rewrite (getbuf_same s2 s1 b H).
  by repeat match goal with |- context [if ?x then _ else _] => destruct x end.
Qed.

Lemma scan_chain_fst j c : ∀ sc s1 s2,
  bcache_buf s1 = bcache_buf s2 →
  (scan_chain j c sc s1).1 = (scan_chain j c sc s2).1.
Proof.
  induction c as [|b c IH]; intros sc s1 s2 H; simpl; [done|].
  pose proof (scan_buf_fst j b sc s1 s2 H) as Hf.
  destruct (scan_buf j b sc s1) as [sc1 t1] eqn:E1.
  destruct (scan_buf j b sc s2) as [sc2 t2] eqn:E2.
  simpl in Hf. subst sc2.
  apply scan_buf_spec in E1 as ((Hb1 & _) & _).
  apply scan_buf_spec in E2 as ((Hb2 & _) & _).
  apply IH. congruence.
Qed.

Lemma scan_buckets_fst c js : ∀ sc s1 s2,
  bcache_buf s1 = bcache_buf s2 → bcache_bucket s1 = bcache_bucket s2 →
  (scan_buckets c js sc s1).1 = (scan_buckets c js sc s2).1.
Proof.
  induction js as [|j js IH]; intros sc s1 s2 Hb Hk; simpl; [done|].
  destruct (can_lock c j =? 0); [by apply IH|].
  assert (Hch : chain (acquire j s1) j = chain (acquire j s2) j).
  { by apply chain_same. }
  pose proof (scan_chain_fst j (chain (acquire j s1) j) sc
                (acquire j s1) (acquire j s2) Hb) as Hf.
  rewrite <- Hch.
  destruct (scan_chain j (chain (acquire j s1) j) sc (acquire j s1))
    as [sc1 t1] eqn:E1.
  destruct (scan_chain j (chain (acquire j s1) j) sc (acquire j s2))
    as [sc2 t2] eqn:E2.
  simpl in Hf. subst sc2.
  apply scan_chain_spec in E1 as ((Hb1 & Hk1 & _) & _).
  apply scan_chain_spec in E2 as ((Hb2 & Hk2 & _) & _).
  simpl in Hb1, Hb2, Hk1, Hk2.
  apply IH.
  - repeat match goal with |- context [if ?x then _ else _] => destruct x end;
      simpl; congruence.
  - repeat match goal with |- context [if ?x then _ else _] => destruct x end;
      simpl; congruence.
Qed.

Lemma evicts_same_data w p dev blockno s1 s2 v :
  bcache_buf s1 = bcache_buf s2 → bcache_bucket s1 = bcache_bucket s2 →
  evicts w p dev blockno s1 v → evicts w p dev blockno s2 v.
Proof.
  intros Hb Hk [Hmiss [s' Hout]].
  assert (Hmiss2 : miss dev blockno s2).
  { unfold miss in *.
    by rewrite (lookup_same s1 s2), (chain_same s1 s2). }
  split; [done|].
  pose proof (scan_buckets_fst (blockno mod NBUCKET) bucket_ids
                (mkscan (-1) UINT_MAX)
                (acquire (blockno mod NBUCKET) s1)
                (acquire (blockno mod NBUCKET) s2) Hb Hk) as Hsc.
  destruct (bget_miss w p dev blockno s1 Hmiss)
    as [(_ & (t1 & Hp & _) & _)
       |(j & v1 & c1 & c2 & t1 & Hsc1 & Hu1 & [Hj _] & _ & _ & _ & _ & Hb1 & _)].
  { rewrite Hp in Hout. by destruct Hout. }
  rewrite Hb1 in Hout. apply acquiresleep_returns in Hout as ->.
  destruct (bget_miss w p dev blockno s2 Hmiss2)
    as [(Hneg & _)
       |(j2 & v2 & d1 & d2 & t2 & Hsc2 & Hu2 & _ & _ & _ & _ & _ & Hb2 & _)].
  { rewrite <- Hsc, Hsc1 in Hneg. simpl in Hneg. lia. }
  rewrite <- Hsc, Hsc1 in Hsc2. injection Hsc2 as <- Ht.
  rewrite <- Ht, (unlink_same s1 s2), (chain_same s1 s2), Hu1 in Hu2 by done.
  injection Hu2 as <- _.
  rewrite Hb2.
  destruct (acquiresleep_cases p v1 t2) as [[_ [t3 Hd]]|[_ Hs]].
  - exists t3. by left.
  - exists t2. by right.
Qed.

(** ** Reference counts and eviction *)

Lemma evicted_was_idle w p dev blockno s v :
  evicts w p dev blockno s v → b_refcnt (getbuf s v) = 0.
Proof.
  intros Hev.
  destruct (victim_is_lru_of_scanned_shards w p dev blockno s v Hev)
    as (j & _ & [_ Hr] & _). done.
Qed.

Lemma pow2_gt_1 w : 0 < w → 1 < 2 ^ w.
Proof. intros H. by apply Z.pow_gt_1. Qed.

Lemma bpin_buf w b s :
  bcache_buf (bpin w b s) =
  <[b := set_refcnt (uint w (b_refcnt (getbuf s b) + 1)) (getbuf s b)]> (bcache_buf s).
Proof. reflexivity. Qed.

Lemma bunpin_buf w b s :
  bcache_buf (bunpin w b s) =
  <[b := set_refcnt (uint w (b_refcnt (getbuf s b) - 1)) (getbuf s b)]> (bcache_buf s).
Proof. reflexivity. Qed.

Lemma bpin_bucket w b s : bcache_bucket (bpin w b s) = bcache_bucket s.
Proof. reflexivity. Qed.

Lemma bunpin_bucket w b s : bcache_bucket (bunpin w b s) = bcache_bucket s.
Proof. reflexivity. Qed.

Lemma getbuf_bpin w b s :
  (b < length (bcache_buf s))%nat →
  getbuf (bpin w b s) b = set_refcnt (uint w (b_refcnt (getbuf s b) + 1)) (getbuf s b).
Proof.
  intros H. unfold getbuf at 1. rewrite bpin_buf.
  by rewrite list_lookup_insert_eq.
Qed.

Lemma getbuf_bunpin w b s :
  (b < length (bcache_buf s))%nat →
  getbuf (bunpin w b s) b = set_refcnt (uint w (b_refcnt (getbuf s b) - 1)) (getbuf s b).
Proof.
  intros H. unfold getbuf at 1. rewrite bunpin_buf.
  by rewrite list_lookup_insert_eq.
Qed.

Lemma getbuf_lookup s b :
  (b < length (bcache_buf s))%nat → bcache_buf s !! b = Some (getbuf s b).
Proof.
  intros H. unfold getbuf.
  destruct (bcache_buf s !! b) eqn:E; [done|].
  apply lookup_ge_None in E. lia.
Qed.

Lemma bunpin_bpin_buf w b s :
  0 < w → (b < length (bcache_buf s))%nat → b_refcnt (getbuf s b) = 0 →
  bcache_buf (bunpin w b (bpin w b s)) = bcache_buf s.
Proof.
  intros Hw Hb Hr. pose proof (pow2_gt_1 w Hw) as Hp.
  rewrite bunpin_buf, getbuf_bpin, bpin_buf by done.
  rewrite list_insert_insert_eq. apply list_insert_id.
  rewrite getbuf_lookup by done. f_equal.
  destruct (getbuf s b) as [va de bl lo rc ti da]. simpl in *. subst rc.
  unfold set_refcnt, uint. simpl.
  rewrite (Z.mod_small 1) by lia. simpl. rewrite Z.mod_0_l by lia. done.
Qed.

(** C6: a buffer whose reference count is not zero is never the victim of
    a miss; in particular a pinned buffer is not, and once [bunpin] has
    brought the count back to zero the buffer is a victim exactly when it
    was one before it was pinned. *)
Theorem refcnt_guards_eviction (w p dev blockno : Z) (s : machine) (b : nat) :
  0 < w → (b < length (bcache_buf s))%nat →
  (∀ v, b_refcnt (getbuf s v) ≠ 0 → ¬ evicts w p dev blockno s v) ∧
  (b_refcnt (getbuf s b) = 0 →
   ¬ evicts w p dev blockno (bpin w b s) b ∧
   b_refcnt (getbuf (bunpin w b (bpin w b s)) b) = 0 ∧
   (evicts w p dev blockno (bunpin w b (bpin w b s)) b ↔
    evicts w p dev blockno s b)).
Proof.
  intros Hw Hb. split.
  { intros v Hr Hev. by apply evicted_was_idle in Hev. }
  intros Hr. pose proof (pow2_gt_1 w Hw) as Hp.
  pose proof (bunpin_bpin_buf w b s Hw Hb Hr) as Hbuf.
  split; [|split].
  - intros Hev%evicted_was_idle.
    rewrite getbuf_bpin in Hev by done. simpl in Hev.
    rewrite Hr in Hev. unfold uint in Hev. simpl in Hev.
    rewrite Z.mod_small in Hev by lia. done.
  - by rewrite (getbuf_same s _ b Hbuf).
  - split; apply evicts_same_data; done.
Qed.

Lemma refcnt_guards_eviction_witness :
  (∀ v, b_refcnt (getbuf s_idle v) ≠ 0 → ¬ evicts 32 1 1 6 s_idle v) ∧
  (b_refcnt (getbuf s_idle 0) = 0 →
   ¬ evicts 32 1 1 6 (bpin 32 0 s_idle) 0 ∧
   b_refcnt (getbuf (bunpin 32 0 (bpin 32 0 s_idle)) 0) = 0 ∧
   (evicts 32 1 1 6 (bunpin 32 0 (bpin 32 0 s_idle)) 0 ↔
    evicts 32 1 1 6 s_idle 0)).
Proof.
  apply (refcnt_guards_eviction 32 1 1 6 s_idle 0); [lia|].
  vm_compute. lia.
Defined.

Lemma bpin_bunpin_buf w b s :
  0 < w → (b < length (bcache_buf s))%nat → b_refcnt (getbuf s b) = 0 →
  bcache_buf (bpin w b (bunpin w b s)) = bcache_buf s.
Proof.
  intros Hw Hb Hr. pose proof (pow2_gt_1 w Hw) as Hp.
  rewrite bpin_buf, getbuf_bunpin, bunpin_buf by done.
  rewrite list_insert_insert_eq. apply list_insert_id.
  rewrite getbuf_lookup by done. f_equal.
  destruct (getbuf s b) as [va de bl lo rc ti da]. simpl in *. subst rc.
  unfold set_refcnt, uint. simpl. f_equal.
  rewrite Zplus_mod_idemp_l. replace (0 - 1 + 1) with 0 by lia.
  apply (Z.mod_0_l (2 ^ w)). lia.
Qed.

(** C10 (amended): [bunpin] decrements the reference count whatever its
    value; on a count of zero it does not fail but wraps to [2^w - 1], a
    nonzero count, and in every state in which the count of the buffer is
    not zero the buffer is not the victim of any request.  The wrap is not
    for ever: one [bpin] brings the count back to zero, and the buffer is
    then a victim exactly when it was one before the [bunpin]. *)
Theorem bunpin_wraps_at_zero (w : Z) (s : machine) (b : nat) :
  0 < w → (b < length (bcache_buf s))%nat →
  getbuf (bunpin w b s) b =
    set_refcnt (uint w (b_refcnt (getbuf s b) - 1)) (getbuf s b) ∧
  (b_refcnt (getbuf s b) = 0 →
   b_refcnt (getbuf (bunpin w b s) b) = 2 ^ w - 1 ∧
   0 < b_refcnt (getbuf (bunpin w b s) b) ∧
   (∀ p dev blockno, ¬ evicts w p dev blockno (bunpin w b s) b) ∧
   (∀ s' p dev blockno,
      b_refcnt (getbuf s' b) ≠ 0 → ¬ evicts w p dev blockno s' b) ∧
   b_refcnt (getbuf (bpin w b (bunpin w b s)) b) = 0 ∧
   (∀ p dev blockno,
      evicts w p dev blockno (bpin w b (bunpin w b s)) b ↔
      evicts w p dev blockno s b)).
Proof.
  intros Hw Hb. pose proof (pow2_gt_1 w Hw) as Hp.
  split; [by apply getbuf_bunpin|].
  intros Hr.
  assert (Hnew : b_refcnt (getbuf (bunpin w b s) b) = 2 ^ w - 1).
  { rewrite getbuf_bunpin by done. simpl. rewrite Hr. unfold uint.
    replace (0 - 1) with (2 ^ w - 1 + (-1) * 2 ^ w) by lia.
    rewrite Z.mod_add by lia. apply Z.mod_small. lia. }
  pose proof (bpin_bunpin_buf w b s Hw Hb Hr) as Hbuf.
  split; [done|]. split; [lia|]. split; [|split; [|split]].
  - intros p dev blockno Hev%evicted_was_idle. lia.
  - intros s' p dev blockno Hnz Hev%evicted_was_idle. done.
  - by rewrite (getbuf_same s _ b Hbuf).
  - intros p dev blockno. split; apply evicts_same_data; done.
Qed.

Lemma bunpin_wraps_at_zero_witness :
  getbuf (bunpin 32 0 s_idle) 0 =
    set_refcnt (uint 32 (b_refcnt (getbuf s_idle 0) - 1)) (getbuf s_idle 0) ∧
  (b_refcnt (getbuf s_idle 0) = 0 →
   b_refcnt (getbuf (bunpin 32 0 s_idle) 0) = 2 ^ 32 - 1 ∧
   0 < b_refcnt (getbuf (bunpin 32 0 s_idle) 0) ∧
   (∀ p dev blockno, ¬ evicts 32 p dev blockno (bunpin 32 0 s_idle) 0) ∧
   (∀ s' p dev blockno,
      b_refcnt (getbuf s' 0) ≠ 0 → ¬ evicts 32 p dev blockno s' 0) ∧
   b_refcnt (getbuf (bpin 32 0 (bunpin 32 0 s_idle)) 0) = 0 ∧
   (∀ p dev blockno,
      evicts 32 p dev blockno (bpin 32 0 (bunpin 32 0 s_idle)) 0 ↔
      evicts 32 p dev blockno s_idle 0)).
Proof.
  apply (bunpin_wraps_at_zero 32 s_idle 0); [lia|].
  vm_compute. lia.
Defined.

(** C10 (as stated) fails: in [s_idle] buffer 0 is unreferenced; after
    [bunpin] has wrapped its count, one [bpin] makes the count zero again
    and the request for block 6 recycles the buffer. *)
Lemma never_evicted_after_unpin_fails : ¬ never_evicted_after_unpin 32 0 s_idle.
Proof.
  intros H.
  apply (H ltac:(by vm_compute) [Bpin 0%nat] 1 1 6).
  split; [by vm_compute|]. eexists. left. vm_compute. reflexivity.
Qed.

(** ** What [bget] hands out *)

Lemma lookup_Some_elem s dev blockno c b :
  lookup s dev blockno c = Some b →
  b ∈ c ∧ b_dev (getbuf s b) = dev ∧ b_blockno (getbuf s b) = blockno.
Proof.
  induction c as [|x c IH]; simpl; [done|].
  destruct (Z.eqb_spec (b_dev (getbuf s x)) dev) as [Hd|Hd];
    destruct (Z.eqb_spec (b_blockno (getbuf s x)) blockno) as [Hn|Hn]; simpl;
    try (intros [= <-]; split; [apply elem_of_cons; by left|done]);
    (intros H; destruct (IH H) as (? & ? & ?);
     split; [apply elem_of_cons; by right|done]).
Qed.

(** Whenever [bget] gets as far as the content lock, it asks for the lock
    of a buffer that was chained in some shard. *)
Lemma bget_ends_in_acquiresleep w p dev blockno s :
  (∃ msg s', bget w p dev blockno s = Panic msg s') ∨
  ∃ b s2 j, bget w p dev blockno s = acquiresleep p b s2 ∧
            0 <= j < NBUCKET ∧ b ∈ chain s j ∧
            length (bcache_buf s2) = length (bcache_buf s).
Proof.
  destruct (lookup s dev blockno (chain s (blockno mod NBUCKET)))
    as [b|] eqn:Hl.
  - right. unfold bget.
    rewrite (lookup_same s (acquire _ s)) by done.
    change (chain (acquire (blockno mod NBUCKET) s) (blockno mod NBUCKET))
      with (chain s (blockno mod NBUCKET)).
    rewrite Hl. eexists b, _, (blockno mod NBUCKET).
    split; [reflexivity|].
    split; [apply Z.mod_pos_bound; by unfold NBUCKET|].
    split; [by apply lookup_Some_elem in Hl as [? _]|].
    simpl. by rewrite length_insert.
  - destruct (bget_miss w p dev blockno s Hl)
      as [(_ & (s1 & Hp & _) & _)
         |(j & v & c1 & c2 & s2 & _ & _ & [Hj _] & Hc & _ & _ & _ & Hb & Hbuf & _)].
    + left. by eexists _, _.
    + right. exists v, s2, j. split; [done|]. split; [done|]. split.
      * rewrite Hc. apply elem_of_app. right. apply elem_of_cons. by left.
      * by rewrite Hbuf, length_insert.
Qed.

Lemma bget_done_locked w p dev blockno s b s1 :
  wf s → bget w p dev blockno s = Done b s1 →
  (b < length (bcache_buf s1))%nat ∧ b_lock (getbuf s1 b) = Some p.
Proof.
  intros Hwf Hd.
  destruct (bget_ends_in_acquiresleep w p dev blockno s)
    as [(msg & s' & Hp)|(b' & s2 & j & Hb & Hj & Hin & Hlen)]; [congruence|].
  rewrite Hb in Hd.
  assert (b = b') as <- by (eapply acquiresleep_returns; by left).
  pose proof (wf_chain_valid s j b Hwf Hj Hin) as Hv.
  unfold acquiresleep in Hd. destruct (b_lock (getbuf s2 b)); [done|].
  injection Hd as <-. split.
  - simpl. rewrite length_insert. lia.
  - unfold getbuf at 1. simpl. rewrite list_lookup_insert_eq by lia. done.
Qed.

(** ** [bread], [bwrite], [brelse] *)

(** [bread] ends the way [bget] ends when [bget] does not return. *)
Lemma bread_not_done w p dev blockno s :
  (∀ b s1, bget w p dev blockno s ≠ Done b s1) →
  bread w p dev blockno s = bget w p dev blockno s.
Proof.
  intros H. unfold bread. destruct (bget w p dev blockno s); [|done..].
  by destruct (H a s0).
Qed.

(** C7: [bread] calls [bget]; when the buffer that comes back is not
    valid it reads the block from the disk into the payload and sets the
    valid flag, and when it is valid it touches neither the disk nor the
    buffer.  Either way the buffer it returns is locked by the caller and
    valid. *)
Theorem bread_reads_iff_not_valid (w p dev blockno : Z) (s s1 : machine) (b : nat) :
  wf s → bget w p dev blockno s = Done b s1 →
  ∃ s', bread w p dev blockno s = Done b s' ∧
        b_lock (getbuf s' b) = Some p ∧ b_valid (getbuf s' b) ≠ 0 ∧
        (b_valid (getbuf s1 b) = 0 →
         trace s' = trace s1 ++ [DiskRead b] ∧
         getbuf s' b =
           set_valid 1
             (set_data (disk s1 (b_dev (getbuf s1 b)) (b_blockno (getbuf s1 b)))
                (getbuf s1 b))) ∧
        (b_valid (getbuf s1 b) ≠ 0 → s' = s1).
Proof.
  intros Hwf Hd.
  destruct (bget_done_locked w p dev blockno s b s1 Hwf Hd) as [Hb Hl].
  unfold bread. rewrite Hd.
  destruct (Z.eqb_spec (b_valid (getbuf s1 b)) 0) as [Hv|Hv].
  - eexists. split; [reflexivity|].
    assert (Hg : getbuf (virtio_disk_rw b false s1) b =
                 set_data (disk s1 (b_dev (getbuf s1 b)) (b_blockno (getbuf s1 b)))
                   (getbuf s1 b)).
    { unfold getbuf at 1. simpl. by rewrite list_lookup_insert_eq. }
    assert (Hg' : getbuf (setbuf b (set_valid 1 (getbuf (virtio_disk_rw b false s1) b))
                            (virtio_disk_rw b false s1)) b =
                  set_valid 1 (getbuf (virtio_disk_rw b false s1) b)).
    { apply getbuf_setbuf_eq. simpl. by rewrite length_insert. }
    rewrite Hg', Hg. simpl.
    split; [done|]. split; [done|]. split; [done|]. intros Hne. done.
  - exists s1. split; [done|]. split; [done|]. split; [done|].
    split; [intros H0; done|done].
Qed.

Lemma bread_reads_iff_not_valid_witness :
  ∃ s', bread 32 1 1 1 s_boot = Done 0%nat s' ∧
        b_lock (getbuf s' 0) = Some 1 ∧ b_valid (getbuf s' 0) ≠ 0 ∧
        (b_valid (getbuf (final_state (bget 32 1 1 1 s_boot)) 0) = 0 →
         trace s' = trace (final_state (bget 32 1 1 1 s_boot)) ++ [DiskRead 0] ∧
         getbuf s' 0 =
           set_valid 1
             (set_data (disk (final_state (bget 32 1 1 1 s_boot))
                          (b_dev (getbuf (final_state (bget 32 1 1 1 s_boot)) 0))
                          (b_blockno (getbuf (final_state (bget 32 1 1 1 s_boot)) 0)))
                (getbuf (final_state (bget 32 1 1 1 s_boot)) 0))) ∧
        (b_valid (getbuf (final_state (bget 32 1 1 1 s_boot)) 0) ≠ 0 →
         s' = final_state (bget 32 1 1 1 s_boot)).
Proof.
  apply (bread_reads_iff_not_valid 32 1 1 1 s_boot _ 0 s_boot_wf).
  vm_compute. reflexivity.
Defined.

Lemma holdingsleep_true p b s :
  holdingsleep p b s = true ↔ b_lock (getbuf s b) = Some p.
Proof. unfold holdingsleep. apply bool_decide_eq_true. Qed.

Lemma holdingsleep_valid p b s :
  holdingsleep p b s = true → (b < length (bcache_buf s))%nat.
Proof.
  intros H%holdingsleep_true. unfold getbuf in H.
  destruct (bcache_buf s !! b) eqn:E; [by eapply lookup_lt_Some|done].
Qed.

(** C8: [brelse], called by the holder of the content lock, releases that
    lock and then, between [acquire] and [release] of the lock of the shard
    [blockno mod NBUCKET] (in a well-formed cache, the shard the buffer is
    chained in), decrements the reference count by one; the idle timestamp
    becomes the current [ticks] when the new count is zero and is unchanged
    otherwise; the other fields of the buffer, the other buffers, the
    chains, the clock and the disk are unchanged. *)
Theorem brelse_decrements_and_stamps (w p : Z) (b : nat) (s : machine) :
  holdingsleep p b s = true →
  let bf := getbuf s b in
  let i := b_blockno bf mod NBUCKET in
  let r := uint w (b_refcnt bf - 1) in
  (wf s → ∀ j, 0 <= j < NBUCKET → b ∈ chain s j → i = j) ∧
  ∃ s', brelse w p b s = Done tt s' ∧
        getbuf s' b =
          mkbuf (b_valid bf) (b_dev bf) (b_blockno bf) None r
            (if r =? 0 then ticks s else b_time bf) (b_data bf) ∧
        (0 < b_refcnt bf < 2 ^ w → r = b_refcnt bf - 1) ∧
        (∀ b', b' ≠ b → getbuf s' b' = getbuf s b') ∧
        bcache_bucket s' = bcache_bucket s ∧
        ticks s' = ticks s ∧ disk s' = disk s ∧
        trace s' = trace s ++
          [ReleaseSleep b;
           Acquire i (<[Z.to_nat i := true]> (bcache_lock s));
           Release i (<[Z.to_nat i := false]>
                        (<[Z.to_nat i := true]> (bcache_lock s)))].
Proof.
  intros Hh bf i r. pose proof (holdingsleep_valid p b s Hh) as Hb.
  split.
  { intros (_ & _ & _ & Hhome) j Hj Hin. by apply Hhome. }
  unfold brelse. rewrite Hh. simpl negb. cbv iota.
  assert (Hg1 : getbuf (releasesleep b s) b = set_lock None bf).
  { unfold getbuf at 1. simpl. by rewrite list_lookup_insert_eq. }
  set (s1 := releasesleep b s) in *.
  assert (Hlen1 : length (bcache_buf s1) = length (bcache_buf s)).
  { subst s1. simpl. by rewrite length_insert. }
  rewrite Hg1. change (b_blockno (set_lock None bf) mod NBUCKET) with i.
  change (getbuf (acquire i s1) b) with (getbuf s1 b). rewrite Hg1.
  change (b_refcnt (set_lock None bf)) with (b_refcnt bf). fold r.
  set (s2 := setbuf b (set_refcnt r (set_lock None bf)) (acquire i s1)).
  assert (Hlen2 : length (bcache_buf s2) = length (bcache_buf s)).
  { subst s2. simpl. rewrite length_insert. done. }
  assert (Hg2 : getbuf s2 b = set_refcnt r (set_lock None bf)).
  { subst s2. apply getbuf_setbuf_eq.
    change (bcache_buf (acquire i s1)) with (bcache_buf s1). lia. }
  rewrite Hg2. change (b_refcnt (set_refcnt r (set_lock None bf))) with r.
  eexists. split; [reflexivity|].
  split.
  { change (getbuf (release i ?x) b) with (getbuf x b).
    destruct (r =? 0).
    - rewrite getbuf_setbuf_eq by lia. reflexivity.
    - rewrite Hg2. reflexivity. }
  split.
  { intros Hr. subst r. unfold uint. apply Z.mod_small. lia. }
  split.
  { intros b' Hne. change (getbuf (release i ?x) b') with (getbuf x b').
    assert (Hs2 : getbuf s2 b' = getbuf s b').
    { subst s2. rewrite getbuf_setbuf_ne by done.
      change (getbuf (acquire i s1) b') with (getbuf s1 b').
      subst s1. unfold getbuf. simpl. by rewrite list_lookup_insert_ne. }
    destruct (r =? 0); [|done].
    by rewrite getbuf_setbuf_ne. }
  destruct (r =? 0); simpl; rewrite <- !app_assoc; done.
Qed.

Lemma brelse_decrements_and_stamps_witness :
  let bf := getbuf s_held 0 in
  let i := b_blockno bf mod NBUCKET in
  let r := uint 32 (b_refcnt bf - 1) in
  (wf s_held → ∀ j, 0 <= j < NBUCKET → 0%nat ∈ chain s_held j → i = j) ∧
  ∃ s', brelse 32 1 0 s_held = Done tt s' ∧
        getbuf s' 0 =
          mkbuf (b_valid bf) (b_dev bf) (b_blockno bf) None r
            (if r =? 0 then ticks s_held else b_time bf) (b_data bf) ∧
        (0 < b_refcnt bf < 2 ^ 32 → r = b_refcnt bf - 1) ∧
        (∀ b', b' ≠ 0%nat → getbuf s' b' = getbuf s_held b') ∧
        bcache_bucket s' = bcache_bucket s_held ∧
        ticks s' = ticks s_held ∧ disk s' = disk s_held ∧
        trace s' = trace s_held ++
          [ReleaseSleep 0;
           Acquire i (<[Z.to_nat i := true]> (bcache_lock s_held));
           Release i (<[Z.to_nat i := false]>
                        (<[Z.to_nat i := true]> (bcache_lock s_held)))].
Proof.
  apply (brelse_decrements_and_stamps 32 1 0 s_held). by vm_compute.
Defined.

(** C9: without the content lock [bwrite] and [brelse] panic and leave
    the machine as it was; with it, [bwrite] writes the payload to the
    block named by the buffer and changes no buffer, chain, lock or
    counter. *)
Theorem bwrite_brelse_need_content_lock (w p : Z) (b : nat) (s : machine) :
  (holdingsleep p b s = false →
   bwrite p b s = Panic "bwrite" s ∧ brelse w p b s = Panic "brelse" s) ∧
  (holdingsleep p b s = true →
   ∃ s', bwrite p b s = Done tt s' ∧
         bcache_buf s' = bcache_buf s ∧ bcache_bucket s' = bcache_bucket s ∧
         bcache_lock s' = bcache_lock s ∧ ticks s' = ticks s ∧
         trace s' = trace s ++ [DiskWrite b] ∧
         disk s' (b_dev (getbuf s b)) (b_blockno (getbuf s b)) = b_data (getbuf s b) ∧
         ∀ d n, ¬ (d = b_dev (getbuf s b) ∧ n = b_blockno (getbuf s b)) →
                disk s' d n = disk s d n).
Proof.
  split; intros Hh.
  - unfold bwrite, brelse. by rewrite Hh.
  - unfold bwrite. rewrite Hh. eexists. split; [reflexivity|]. simpl.
    split; [done|]. split; [done|]. split; [done|]. split; [done|].
    split; [done|]. split.
    + by rewrite !Z.eqb_refl.
    + intros d n Hne.
      destruct (Z.eqb_spec d (b_dev (getbuf s b)));
        destruct (Z.eqb_spec n (b_blockno (getbuf s b))); simpl; try done.
      by destruct Hne.
Qed.

Lemma bwrite_brelse_need_content_lock_witness :
  (holdingsleep 2 0 s_held = false →
   bwrite 2 0 s_held = Panic "bwrite" s_held ∧
   brelse 32 2 0 s_held = Panic "brelse" s_held) ∧
  (holdingsleep 1 0 s_held = true →
   ∃ s', bwrite 1 0 s_held = Done tt s' ∧
         bcache_buf s' = bcache_buf s_held ∧ bcache_bucket s' = bcache_bucket s_held ∧
         bcache_lock s' = bcache_lock s_held ∧ ticks s' = ticks s_held ∧
         trace s' = trace s_held ++ [DiskWrite 0] ∧
         disk s' (b_dev (getbuf s_held 0)) (b_blockno (getbuf s_held 0))
           = b_data (getbuf s_held 0) ∧
         ∀ d n, ¬ (d = b_dev (getbuf s_held 0) ∧ n = b_blockno (getbuf s_held 0)) →
                disk s' d n = disk s_held d n).
Proof.
  split.
  - apply (bwrite_brelse_need_content_lock 32 2 0 s_held).
  - apply (bwrite_brelse_need_content_lock 32 1 0 s_held).
Defined.

(** ** The locks of a call of [bget] *)

Lemma holds_exactly_same s s' ls :
  bcache_lock s' = bcache_lock s → holds_exactly s ls → holds_exactly s' ls.
Proof. intros Hl H i Hi. unfold holding. rewrite Hl. by apply H. Qed.

Lemma scan_inside_enter c n s :
  scan_inside c n 0 s =
  let '(sc, s1) := scan_upto c n s in (sc, acquire (Z.of_nat n) s1).
Proof. unfold scan_inside. by destruct (scan_upto c n s). Qed.

(** On a miss [bget] goes through the whole scan, and then panics or
    moves the victim. *)
Lemma bget_scans w p dev blockno s :
  miss dev blockno s →
  bget w p dev blockno s =
  let '(sc, s) := scan_upto (blockno mod NBUCKET) (Z.to_nat NBUCKET) s in
  if index sc =? -1 then Panic "bget: no buffers" s
  else
    match unlink s (min_tick sc) (chain s (index sc)) with
    | None => Fault s
    | Some (move, rest) =>
        let s := setbuf move (recycle dev blockno (getbuf s move)) s in
        let s := set_chain (index sc) rest s in
        let s := release (index sc) s in
        let s := set_chain (blockno mod NBUCKET)
                   (chain s (blockno mod NBUCKET) ++ [move]) s in
        let s := release (blockno mod NBUCKET) s in
        acquiresleep p move s
    end.
Proof.
  intros Hmiss. unfold bget, miss in *.
  rewrite (lookup_same s (acquire _ s)) by done.
  change (chain (acquire (blockno mod NBUCKET) s) (blockno mod NBUCKET))
    with (chain s (blockno mod NBUCKET)).
  rewrite Hmiss. reflexivity.
Qed.

(** When [bget] releases the target lock, which it does last, it holds no
    other shard lock, and the buffer it is about to hand out is linked in
    the target chain under the requested identity. *)
Lemma bget_last_release w p dev blockno s v s' :
  unlocked s → wf s →
  bget w p dev blockno s = Done v s' ∨ bget w p dev blockno s = Sleeping v s' →
  ∃ sD, bget w p dev blockno s =
          acquiresleep p v (release (blockno mod NBUCKET) sD) ∧
        holds_exactly sD [blockno mod NBUCKET] ∧
        v ∈ chain sD (blockno mod NBUCKET) ∧
        b_dev (getbuf sD v) = dev ∧ b_blockno (getbuf sD v) = blockno.
Proof.
  intros Hu Hwf Hout.
  set (c := blockno mod NBUCKET).
  assert (Hc : 0 <= c < NBUCKET) by (apply Z.mod_pos_bound; by unfold NBUCKET).
  pose proof (between_after_acquire c s Hc Hu) as Hb0.
  destruct (lookup s dev blockno (chain s c)) as [b|] eqn:Hl.
  - assert (Hb : bget w p dev blockno s =
                 acquiresleep p b
                   (release c
                      (setbuf b (set_refcnt (uint w (b_refcnt (getbuf s b) + 1))
                                   (getbuf s b)) (acquire c s)))).
    { unfold bget. fold c.
      rewrite (lookup_same s (acquire c s)) by done.
      change (chain (acquire c s) c) with (chain s c). by rewrite Hl. }
    rewrite Hb in Hout. apply acquiresleep_returns in Hout as ->.
    destruct (lookup_Some_elem _ _ _ _ _ Hl) as (Hin & Hd & Hn).
    pose proof (wf_chain_valid s c b Hwf Hc Hin) as Hv.
    eexists. split; [exact Hb|]. split; [|split; [done|]].
    + apply (holds_exactly_same (acquire c s)); [done|].
      by apply (holds_exactly_between c (mkscan (-1) UINT_MAX)); [lia|].
    + rewrite getbuf_setbuf_eq by done. done.
  - pose proof (bget_scans w p dev blockno s Hl) as Hb. fold c in Hb.
    rewrite scan_upto_all in Hb.
    destruct (scan_buckets c bucket_ids (mkscan (-1) UINT_MAX) (acquire c s))
      as [sc s1] eqn:E.
    destruct (bget_scan_locks blockno s sc s1 Hu E)
      as [(Hlen & Hidx & Hhc & Hn & Hh) _]. fold c in Hidx, Hhc.
    apply scan_buckets_spec in E as ((Hbuf & Hbk & _) & _).
    simpl in Hbuf, Hbk.
    destruct (Z.eqb_spec (index sc) (-1)) as [|Hneg].
    { rewrite Hb in Hout. by destruct Hout. }
    destruct (unlink s1 (min_tick sc) (chain s1 (index sc)))
      as [[move rest]|] eqn:Eu; [|rewrite Hb in Hout; by destruct Hout].
    rewrite Hb in Hout. apply acquiresleep_returns in Hout as ->.
    destruct Hidx as [?|[Hi0 Hic]]; [done|].
    specialize (Hh Hneg).
    apply holding_true in Hh as Hli. apply holding_true in Hhc as Hlc.
    assert (Hi13 : index sc < NBUCKET).
    { pose proof (lookup_lt_Some _ _ _ Hli) as Hlt. rewrite Hlen in Hlt.
      unfold NBUCKET in *. lia. }
    destruct (unlink_spec _ _ _ _ _ Eu) as (_ & _ & c1 & c2 & Hch & _).
    assert (Hmv : (move < length (bcache_buf s))%nat).
    { apply (wf_chain_valid s (index sc) move Hwf); [lia|].
      rewrite <- (chain_same s s1) by done. rewrite Hch.
      apply elem_of_app. right. apply elem_of_cons. by left. }
    destruct Hwf as (Hk13 & _).
    set (sA := setbuf move (recycle dev blockno (getbuf s1 move)) s1) in *.
    set (sC := release (index sc) (set_chain (index sc) rest sA)) in *.
    set (sD := set_chain c (chain sC c ++ [move]) sC) in *.
    exists sD. split; [exact Hb|]. split; [|split].
    + apply (holds_exactly_between c (mkscan (-1) 0)); [lia|].
      split; [simpl; by rewrite length_insert|]. split; [by left|].
      split.
      { apply holding_true. simpl. rewrite list_lookup_insert_ne by lia. done. }
      split; [|done]. simpl.
      pose proof (nheld_drop _ _ Hli). destruct (index sc =? -1); lia.
    + unfold chain at 1. simpl.
      rewrite list_lookup_insert_eq.
      * simpl. apply elem_of_app. right. apply elem_of_cons. by left.
      * rewrite length_insert, Hbk, Hk13. unfold NBUCKET in *. lia.
    + change (getbuf sD move) with (getbuf sA move).
      subst sA. rewrite getbuf_setbuf_eq by (by rewrite Hbuf). done.
Qed.

Lemma held_locks_exactly s : holds_exactly s (held_locks s).
Proof.
  intros i Hi. unfold held_locks. rewrite list_elem_of_filter.
  split; [|by intros [? _]]. intros Hh. split; [done|].
  by apply elem_of_bucket_ids.
Qed.

(** C4 (amended): a call of [bget] entered with no shard lock held never
    holds more than three shard locks at once, and they are the lock of
    the target shard, the lock of the shard under the scan cursor and the
    lock of the best candidate's shard.  The target lock is kept from the
    lookup to the last spinlock call (and is still held when the call
    panics); when it is released it is the only shard lock held, and the
    buffer handed out is already linked in the target chain under the
    requested identity.  Between two shards of the
    scan the caller holds the target lock and the candidate's and no
    other; inside a shard it holds the lock of that shard on top; and
    when it finds a buffer with a smaller timestamp there, the lock of
    the superseded candidate's shard is released at once, before the next
    buffer is looked at.  The instants of the scan are the states
    [scan_upto] (head of the [for] loop) and [scan_inside] (head of the
    [while] loop), which [scan_upto_skip], [scan_upto_step],
    [scan_inside_enter], [scan_inside_step] and [bget_scans] link to one
    another and to [bget]. *)
Theorem bget_holds_at_most_three_locks (w p dev blockno : Z) (s : machine) :
  unlocked s →
  locks_bounded 3 s (final_state (bget w p dev blockno s)) ∧
  target_kept (blockno mod NBUCKET) s (bget w p dev blockno s) ∧
  (∀ n sc s1,
     scan_upto (blockno mod NBUCKET) n s = (sc, s1) →
     holds_exactly s1 (blockno mod NBUCKET :: candidate sc)) ∧
  (∀ n m sc s2,
     (n < Z.to_nat NBUCKET)%nat →
     can_lock (blockno mod NBUCKET) (Z.of_nat n) = 1 →
     scan_inside (blockno mod NBUCKET) n m s = (sc, s2) →
     holds_exactly s2 (blockno mod NBUCKET :: Z.of_nat n :: candidate sc) ∧
     ∀ b, chain s (Z.of_nat n) !! m = Some b →
          b_refcnt (getbuf s b) = 0 → b_time (getbuf s b) < min_tick sc →
          ∃ s3, scan_inside (blockno mod NBUCKET) n (S m) s =
                  (mkscan (Z.of_nat n) (b_time (getbuf s b)), s3) ∧
                holds_exactly s3 [blockno mod NBUCKET; Z.of_nat n] ∧
                (index sc ≠ -1 → index sc ≠ Z.of_nat n →
                 s3 = release (index sc) s2) ∧
                (index sc = -1 ∨ index sc = Z.of_nat n → s3 = s2)) ∧
  (wf s → ∀ v s',
     bget w p dev blockno s = Done v s' ∨
     bget w p dev blockno s = Sleeping v s' →
     ∃ sD, bget w p dev blockno s =
             acquiresleep p v (release (blockno mod NBUCKET) sD) ∧
           holds_exactly sD [blockno mod NBUCKET] ∧
           v ∈ chain sD (blockno mod NBUCKET) ∧
           b_dev (getbuf sD v) = dev ∧ b_blockno (getbuf sD v) = blockno).
Proof.
  intros Hu.
  set (c := blockno mod NBUCKET).
  assert (Hc : 0 <= c < NBUCKET) by (apply Z.mod_pos_bound; by unfold NBUCKET).
  split; [|split; [by apply bget_target_kept|split; [|split]]];
    [| | |intros Hwf v s'; by apply bget_last_release].
  - unfold bget. fold c.
    assert (Hn0 : nheld (bcache_lock s) = 0%nat).
    { rewrite Hu. apply nheld_replicate_false. }
    assert (Hacq : locks_bounded 3 s (acquire c s)).
    { apply locks_bounded_acquire. lia. }
    assert (Hn1 : (nheld (bcache_lock (acquire c s)) <= 1)%nat).
    { simpl. pose proof (nheld_insert_true_le (bcache_lock s) (Z.to_nat c)). lia. }
    destruct (lookup (acquire c s) dev blockno (chain (acquire c s) c)) as [b|].
    + eapply locks_bounded_trans; [exact Hacq|].
      eapply locks_bounded_trans; [|apply locks_bounded_acquiresleep].
      eapply locks_bounded_trans; [|apply locks_bounded_release]; simpl.
      * by apply locks_bounded_silent.
      * pose proof (nheld_insert_true_le (bcache_lock s) (Z.to_nat c)). lia.
    + destruct (scan_buckets c bucket_ids (mkscan (-1) UINT_MAX) (acquire c s))
        as [sc s1] eqn:E.
      destruct (bget_scan_locks blockno s sc s1 Hu E)
        as [(Hlen & Hidx & Hhc & Hn & Hh) Hs1].
      destruct (index sc =? -1); [exact Hs1|].
      destruct (unlink s1 (min_tick sc) (chain s1 (index sc))) as [[move rest]|];
        [|exact Hs1].
      eapply locks_bounded_trans; [exact Hs1|].
      eapply locks_bounded_trans; [|apply locks_bounded_acquiresleep].
      eapply locks_bounded_trans; [|apply locks_bounded_release]; simpl.
      * eapply locks_bounded_trans; [|by apply locks_bounded_silent].
        eapply locks_bounded_trans; [|apply locks_bounded_release]; simpl.
        -- by apply locks_bounded_silent.
        -- lia.
      * pose proof (nheld_insert_false_le (bcache_lock s1) (Z.to_nat (index sc))).
        lia.
  - intros n sc s1 E. apply holds_exactly_between; [lia|].
    by apply (scan_upto_between c n s).
  - intros n m sc s2 Hn Hcl E.
    assert (Hj : 0 <= Z.of_nat n < NBUCKET) by (unfold NBUCKET in *; lia).
    assert (Hjc : Z.of_nat n ≠ c).
    { intros Heq. rewrite Heq in Hcl. apply can_lock_cases in Hcl. lia. }
    pose proof (scan_inside_within c n m s sc s2 Hc Hu Hn Hcl E) as Hin.
    split; [apply holds_exactly_within; [lia|lia|done|done]|].
    intros b Hb Hr Ht.
    pose proof (scan_inside_same_data c n m s sc s2 E) as (Hbuf & _).
    assert (Hg : getbuf s2 b = getbuf s b) by (by apply getbuf_same).
    rewrite (scan_inside_step c n m s b Hb), E.
    destruct (scan_buf (Z.of_nat n) b sc s2) as [sc3 s3] eqn:E3.
    destruct (scan_buf_locks c _ b sc s2 sc3 s3 (proj1 Hc) (proj1 Hj) Hjc E3 Hin)
      as [Hin3 _].
    unfold scan_buf in E3. rewrite Hg, Hr in E3. simpl in E3.
    rewrite (proj2 (Z.ltb_lt _ _) Ht) in E3.
    injection E3 as <- Hs3.
    exists s3. split; [done|]. split; [|split].
    + apply (holds_exactly_within c _ _ _ (proj1 Hc) (proj1 Hj) Hjc) in Hin3.
      intros i Hi. rewrite (Hin3 i Hi). unfold candidate. simpl.
      destruct (Z.eqb_spec (Z.of_nat n) (-1)) as [|_]; [lia|].
      rewrite !elem_of_cons, elem_of_nil. tauto.
    + intros Hm Hxj. rewrite <- Hs3.
      destruct Hin as (_ & _ & _ & _ & _ & Hne).
      destruct (Hne Hxj) as [_ Hh]. rewrite (Hh Hm).
      destruct (Z.eqb_spec (index sc) (-1)); [done|].
      by destruct (Z.eqb_spec (index sc) (Z.of_nat n)).
    + intros [Hm|Hxj]; rewrite <- Hs3.
      * by rewrite Hm.
      * rewrite Hxj, Z.eqb_refl. simpl. by rewrite andb_false_r.
Qed.

Lemma unlocked_s_three : unlocked s_three.
Proof. by vm_compute. Qed.

Lemma bget_holds_at_most_three_locks_witness :
  locks_bounded 3 s_three (final_state (bget 32 1 1 6 s_three)) ∧
  target_kept (6 mod NBUCKET) s_three (bget 32 1 1 6 s_three) ∧
  (∀ n sc s1,
     scan_upto (6 mod NBUCKET) n s_three = (sc, s1) →
     holds_exactly s1 (6 mod NBUCKET :: candidate sc)) ∧
  (∀ n m sc s2,
     (n < Z.to_nat NBUCKET)%nat →
     can_lock (6 mod NBUCKET) (Z.of_nat n) = 1 →
     scan_inside (6 mod NBUCKET) n m s_three = (sc, s2) →
     holds_exactly s2 (6 mod NBUCKET :: Z.of_nat n :: candidate sc) ∧
     ∀ b, chain s_three (Z.of_nat n) !! m = Some b →
          b_refcnt (getbuf s_three b) = 0 →
          b_time (getbuf s_three b) < min_tick sc →
          ∃ s3, scan_inside (6 mod NBUCKET) n (S m) s_three =
                  (mkscan (Z.of_nat n) (b_time (getbuf s_three b)), s3) ∧
                holds_exactly s3 [6 mod NBUCKET; Z.of_nat n] ∧
                (index sc ≠ -1 → index sc ≠ Z.of_nat n →
                 s3 = release (index sc) s2) ∧
                (index sc = -1 ∨ index sc = Z.of_nat n → s3 = s2)) ∧
  (wf s_three → ∀ v s',
     bget 32 1 1 6 s_three = Done v s' ∨
     bget 32 1 1 6 s_three = Sleeping v s' →
     ∃ sD, bget 32 1 1 6 s_three =
             acquiresleep 1 v (release (6 mod NBUCKET) sD) ∧
           holds_exactly sD [6 mod NBUCKET] ∧
           v ∈ chain sD (6 mod NBUCKET) ∧
           b_dev (getbuf sD v) = 1 ∧ b_blockno (getbuf sD v) = 6).
Proof.
  apply (bget_holds_at_most_three_locks 32 1 1 6 s_three).
  apply unlocked_s_three.
Defined.

(** In [s_three] the request for block 6 holds the locks of shards 6 and 1
    when it enters shard 2, takes the lock of shard 2 on top, and gives
    the lock of shard 1 back as soon as it has looked at buffer 1, which
    was released before buffer 0; it ends with buffer 1. *)
Example s_three_scan :
  held_locks (scan_upto 6 2 s_three).2 = [1; 6] ∧
  candidate (scan_upto 6 2 s_three).1 = [1] ∧
  held_locks (scan_inside 6 2 0 s_three).2 = [1; 2; 6] ∧
  held_locks (scan_inside 6 2 1 s_three).2 = [2; 6] ∧
  candidate (scan_inside 6 2 1 s_three).1 = [2] ∧
  ∃ s', bget 32 1 1 6 s_three = Done 1%nat s'.
Proof.
  split; [by vm_compute|]. split; [by vm_compute|]. split; [by vm_compute|].
  split; [by vm_compute|]. split; [by vm_compute|].
  eexists. vm_compute. reflexivity.
Qed.

(** C4 (as stated) fails: in [s_idle] a request for block 6 takes the
    locks of shards 6 (target), 1 (where it finds buffer 0) and 2 (the
    next shard scanned) before releasing any of them. *)
Lemma two_locks_exceeded :
  ¬ locks_bounded 2 s_idle (final_state (bget 32 1 1 6 s_idle)).
Proof.
  intros (t & Ht & HF).
  assert (Ht0 : trace (final_state (bget 32 1 1 6 s_idle)) =
                trace s_idle ++
                drop (length (trace s_idle))
                  (trace (final_state (bget 32 1 1 6 s_idle))))
    by (by vm_compute).
  rewrite Ht0 in Ht. apply app_inv_head in Ht. subst t.
  eapply (Forall_lookup_1 _ _ 2%nat) in HF; [|vm_compute; reflexivity].
  vm_compute in HF. lia.
Qed.


(** * Further properties of bio.c *)

(** ** [binit] and the first request *)

Lemma initlock_all s :
  length (bcache_lock s) = Z.to_nat NBUCKET →
  foldl (λ s i, initlock i s) s bucket_ids =
  with_lock (replicate (Z.to_nat NBUCKET) false) s.
Proof.
  destruct s as [L B K T D Tr]. simpl. intros HL.
  do 13 (destruct L as [|? L]; [done|]).
  destruct L; [reflexivity|done].
Qed.

Lemma binit_links n : ∀ s,
  zero_links s → (n <= length (bcache_buf s))%nat →
  foldl binit_link s (seq 0 n) =
  with_bucket (seq 0 n :: replicate (Z.to_nat NBUCKET - 1) [])
    (with_buf ((set_lock None <$> take n (bcache_buf s)) ++ drop n (bcache_buf s)) s).
Proof.
  induction n as [|n IH]; intros s Hz Hn.
  - destruct s as [L B K T D Tr]. unfold zero_links in Hz. simpl in *.
    subst K. rewrite drop_0. reflexivity.
  - rewrite seq_S, foldl_app, IH by (done || lia). simpl.
    destruct s as [L B K T D Tr]. simpl in *.
    destruct (lookup_lt_is_Some_2 B n ltac:(lia)) as [x Hx].
    unfold binit_link, initsleeplock, set_chain, setbuf, with_buf, with_bucket,
      chain, getbuf. simpl.
    assert (take n (seq 0 n) = seq 0 n) as ->.
    { apply take_ge. rewrite length_seq. lia. }
    f_equal.
    assert (Hlen : length (set_lock None <$> take n B) = n).
    { rewrite length_fmap, length_take. lia. }
    rewrite lookup_app_r by lia.
    rewrite Hlen, Nat.sub_diag, lookup_drop, Nat.add_0_r, Hx. simpl.
    rewrite insert_app_r_alt by lia.
    rewrite Hlen, Nat.sub_diag.
    rewrite (take_S_r _ _ _ Hx), fmap_app, <- app_assoc. f_equal.
    rewrite (drop_S _ _ _ Hx). reflexivity.
Qed.

(** What [binit] makes of a memory whose links are null: the locks are
    free, the buffers chained in shard 0, the content locks free; nothing
    else is written. *)
Lemma binit_eq NBUF s :
  length (bcache_lock s) = Z.to_nat NBUCKET → length (bcache_buf s) = NBUF →
  zero_links s →
  binit NBUF s =
  with_bucket (seq 0 NBUF :: replicate (Z.to_nat NBUCKET - 1) [])
    (with_buf (set_lock None <$> bcache_buf s)
       (with_lock (replicate (Z.to_nat NBUCKET) false) s)).
Proof.
  intros HL HB Hz. unfold binit. rewrite initlock_all by done.
  rewrite binit_links; [|done|simpl; lia]. simpl bcache_buf.
  rewrite take_ge, drop_ge, app_nil_r by lia. reflexivity.
Qed.

Lemma binit_zero_filled NBUF s :
  zero_filled NBUF s →
  binit NBUF s =
  with_bucket (seq 0 NBUF :: replicate (Z.to_nat NBUCKET - 1) []) s.
Proof.
  intros (HL & HB & Hz). rewrite binit_eq; [|by rewrite HL|by rewrite HB, length_replicate|done].
  destruct s as [L B K T D Tr]. simpl in *. subst L B.
  unfold with_bucket, with_buf, with_lock. simpl. f_equal.
  by rewrite fmap_replicate.
Qed.

Lemma chain_fresh_0 NBUF s :
  chain (with_bucket (seq 0 NBUF :: replicate (Z.to_nat NBUCKET - 1) []) s) 0
  = seq 0 NBUF.
Proof. reflexivity. Qed.

Lemma chain_fresh_pos NBUF s j :
  0 < j →
  chain (with_bucket (seq 0 NBUF :: replicate (Z.to_nat NBUCKET - 1) []) s) j = [].
Proof.
  intros Hj. unfold chain. simpl.
  destruct (Z.to_nat j) as [|k] eqn:Ek; [lia|]. simpl.
  change [[]; []; []; []; []; []; []; []; []; []; []; []]
    with (replicate 12 (@nil nat)).
  destruct (replicate 12 (@nil nat) !! k) as [l|] eqn:El; simpl; [|done].
  by apply lookup_replicate in El as [-> _].
Qed.

Lemma chain_binit_0 NBUF s :
  zero_filled NBUF s → chain (binit NBUF s) 0 = seq 0 NBUF.
Proof. intros Hz. rewrite binit_zero_filled by done. apply chain_fresh_0. Qed.

Lemma chain_binit_pos NBUF s j :
  zero_filled NBUF s → 0 < j → chain (binit NBUF s) j = [].
Proof. intros Hz. rewrite binit_zero_filled by done. apply chain_fresh_pos. Qed.

Lemma getbuf_binit NBUF s b :
  zero_filled NBUF s → getbuf (binit NBUF s) b = buf0.
Proof.
  intros Hz. rewrite binit_zero_filled by done. destruct Hz as (_ & HB & _).
  unfold getbuf. simpl. rewrite HB.
  destruct (replicate NBUF buf0 !! b) as [bf|] eqn:E; simpl; [|done].
  by apply lookup_replicate in E as [-> _].
Qed.

(** X1: [binit] writes the locks and the links of bucket 0 only.  Run on a
    memory whose [next] fields are all null, it leaves no shard lock held,
    the [NBUF] buffers chained in shard 0 in index order, the other shards
    empty and every content lock free; the other fields of every buffer
    (reference count, timestamp, identity, valid flag, payload), the
    clock, the disk and the trace are as it found them.  So the cache it
    leaves is well-formed exactly when the block number of every buffer
    already hashes to shard 0, as it does in zero-filled memory. *)
Theorem binit_fresh_pool (NBUF : nat) (s : machine) :
  length (bcache_lock s) = Z.to_nat NBUCKET → length (bcache_buf s) = NBUF →
  zero_links s →
  unlocked (binit NBUF s) ∧
  chain (binit NBUF s) 0 = seq 0 NBUF ∧
  (∀ j, 0 < j → chain (binit NBUF s) j = []) ∧
  (∀ b, getbuf (binit NBUF s) b = set_lock None (getbuf s b)) ∧
  ticks (binit NBUF s) = ticks s ∧ disk (binit NBUF s) = disk s ∧
  trace (binit NBUF s) = trace s ∧
  (wf (binit NBUF s) ↔
   ∀ b, (b < NBUF)%nat → b_blockno (getbuf s b) mod NBUCKET = 0).
Proof.
  intros HL HB Hz. rewrite (binit_eq NBUF s HL HB Hz).
  set (s1 := with_buf (set_lock None <$> bcache_buf s)
               (with_lock (replicate (Z.to_nat NBUCKET) false) s)).
  assert (Hg : ∀ b, getbuf s1 b = set_lock None (getbuf s b)).
  { intros b. unfold getbuf. simpl. rewrite list_lookup_fmap.
    by destruct (bcache_buf s !! b). }
  split; [reflexivity|]. split; [apply chain_fresh_0|].
  split; [apply chain_fresh_pos|]. split; [exact Hg|].
  split; [done|]. split; [done|]. split; [done|]. split.
  - intros (_ & _ & _ & Hh) b Hb.
    specialize (Hh 0 b ltac:(by unfold NBUCKET)).
    rewrite chain_fresh_0 in Hh.
    change (getbuf (with_bucket _ s1) b) with (getbuf s1 b) in Hh.
    rewrite Hg in Hh. apply Hh, elem_of_seq. lia.
  - intros H0. apply fresh_pool_wf.
    + subst s1. simpl. by rewrite length_fmap.
    + intros b Hb. rewrite Hg. by apply H0.
Qed.

Lemma binit_fresh_pool_witness :
  unlocked (binit 30 m_stale) ∧
  chain (binit 30 m_stale) 0 = seq 0 30 ∧
  (∀ j, 0 < j → chain (binit 30 m_stale) j = []) ∧
  (∀ b, getbuf (binit 30 m_stale) b = set_lock None (getbuf m_stale b)) ∧
  ticks (binit 30 m_stale) = ticks m_stale ∧
  disk (binit 30 m_stale) = disk m_stale ∧
  trace (binit 30 m_stale) = trace m_stale ∧
  (wf (binit 30 m_stale) ↔
   ∀ b, (b < 30)%nat → b_blockno (getbuf m_stale b) mod NBUCKET = 0).
Proof. apply (binit_fresh_pool 30 m_stale); reflexivity. Defined.

Lemma lookup_buf0_chain s dev blockno c :
  (∀ b, getbuf s b = buf0) →
  lookup s dev blockno c =
  if (0 =? dev) && (0 =? blockno) then head c else None.
Proof.
  intros H0. induction c as [|b c IH].
  - simpl. by destruct (_ && _).
  - cbn [lookup]. rewrite H0. change (b_dev buf0) with 0. change (b_blockno buf0) with 0.
    destruct ((0 =? dev) && (0 =? blockno)) eqn:E; [reflexivity|].
    rewrite IH, ?E. reflexivity.
Qed.

(** X2: the first request after [binit] has run on zero-filled memory, on
    a pool of at least one buffer.  A request that hashes to shards 1 to 5 recycles buffer 0; a request for
    block 0 of device 0 hits buffer 0; every other request, hashing to
    shard 0 or to shards 6 to 12, panics although the whole pool is
    unreferenced, because its scan does not visit shard 0. *)
Theorem first_request_after_binit (w p dev blockno : Z) (NBUF : nat) (s : machine) :
  zero_filled NBUF s → (0 < NBUF)%nat →
  (1 <= blockno mod NBUCKET <= 5 →
   ∃ s', bget w p dev blockno (binit NBUF s) = Done 0%nat s') ∧
  (dev = 0 ∧ blockno = 0 →
   ∃ s', bget w p dev blockno (binit NBUF s) = Done 0%nat s') ∧
  ((blockno mod NBUCKET = 0 ∨ 6 <= blockno mod NBUCKET) →
   ¬ (dev = 0 ∧ blockno = 0) →
   ∃ s', bget w p dev blockno (binit NBUF s) = Panic "bget: no buffers" s').
Proof.
  intros Hz HN. set (c := blockno mod NBUCKET).
  set (s0 := binit NBUF s).
  assert (Hc : 0 <= c < NBUCKET) by (apply Z.mod_pos_bound; by unfold NBUCKET).
  assert (Hg : ∀ b, getbuf s0 b = buf0) by (intros b; by apply getbuf_binit).
  assert (Hseq : seq 0 NBUF = 0%nat :: seq 1 (NBUF - 1)).
  { destruct NBUF; [lia|]. simpl. by rewrite Nat.sub_0_r. }
  split; [|split].
  - intros Hr.
    assert (Hmiss : miss dev blockno s0).
    { unfold miss. fold c. subst s0. rewrite chain_binit_pos by (done || lia). done. }
    destruct (bget_miss w p dev blockno s0 Hmiss)
      as [(_ & _ & Hnone)
         |(j & v & c1 & c2 & s2 & _ & Hu & [Hj Hcl] & Hch & _ & _ & _ & Hb & Hbuf & _)].
    + exfalso. fold c in Hnone.
      assert (Hs : scanned c 0).
      { split; [unfold NBUCKET; lia|]. apply can_lock_cases. lia. }
      specialize (Hnone 0 0%nat Hs).
      subst s0. rewrite chain_binit_0, Hseq, getbuf_binit in Hnone by done.
      specialize (Hnone ltac:(apply elem_of_cons; by left) eq_refl).
      simpl in Hnone. unfold UINT_MAX in Hnone. lia.
    + assert (j = 0) as ->.
      { destruct (decide (j = 0)) as [|Hne]; [done|]. exfalso.
        subst s0. rewrite chain_binit_pos in Hch by (done || lia).
        by destruct c1. }
      assert (v = 0%nat) as ->.
      { rewrite Hg in Hu. subst s0. rewrite chain_binit_0, Hseq in Hu by done.
        simpl in Hu. rewrite getbuf_binit in Hu by done. simpl in Hu. congruence. }
      rewrite Hb. unfold acquiresleep.
      assert (Hl : b_lock (getbuf s2 0) = None).
      { rewrite (b_lock_recycled _ _ _ _ _ Hbuf), Hg. done. }
      rewrite Hl. by eexists.
  - intros [-> ->]. subst s0. unfold bget.
    rewrite (lookup_same (binit NBUF s) (acquire _ _)) by done.
    change (chain (acquire (0 mod NBUCKET) (binit NBUF s)) (0 mod NBUCKET))
      with (chain (binit NBUF s) 0).
    rewrite (lookup_buf0_chain _ _ _ _ Hg), chain_binit_0, Hseq by done. simpl.
    unfold acquiresleep.
    set (s1 := release _ _).
    assert (Hl : b_lock (getbuf s1 0) = None).
    { subst s1.
      unfold getbuf at 1. simpl bcache_buf.
      rewrite list_lookup_insert_eq.
      - simpl.
        change (getbuf (acquire (0 mod NBUCKET) (binit NBUF s)) 0)
          with (getbuf (binit NBUF s) 0).
        by rewrite getbuf_binit.
      - rewrite binit_zero_filled by done. simpl.
        destruct Hz as (_ & -> & _). rewrite length_replicate. lia. }
    rewrite Hl. by eexists.
  - intros Hr Hnz.
    assert (Hmiss : miss dev blockno s0).
    { unfold miss. fold c. rewrite (lookup_buf0_chain _ _ _ _ Hg).
      destruct (Z.eqb_spec 0 dev) as [Hd|Hd]; [|done].
      destruct (Z.eqb_spec 0 blockno) as [Hn|Hn]; [|done].
      destruct Hnz. by split. }
    destruct (bget_miss w p dev blockno s0 Hmiss)
      as [(_ & (s1 & Hp & _) & _)
         |(j & v & c1 & c2 & s2 & _ & _ & [Hj Hcl] & Hch & _)].
    + by exists s1.
    + exfalso. fold c in Hcl. apply can_lock_cases in Hcl.
      assert (0 < j) as Hpos by lia.
      subst s0. rewrite chain_binit_pos in Hch by done. by destruct c1.
Qed.

Lemma first_request_after_binit_witness :
  (1 <= 1 mod NBUCKET <= 5 →
   ∃ s', bget 32 1 1 1 (binit 30 m0) = Done 0%nat s') ∧
  (1 = 0 ∧ 1 = 0 →
   ∃ s', bget 32 1 1 1 (binit 30 m0) = Done 0%nat s') ∧
  ((1 mod NBUCKET = 0 ∨ 6 <= 1 mod NBUCKET) →
   ¬ (1 = 0 ∧ 1 = 0) →
   ∃ s', bget 32 1 1 1 (binit 30 m0) = Panic "bget: no buffers" s').
Proof.
  apply (first_request_after_binit 32 1 1 1 30 m0); [|lia].
  repeat split.
Defined.

(** ** The lock-ordering rule as a relation on shards *)

(** X10: from a shard [c <= 5] the rule admits exactly six other shards,
    from a shard [c >= 6] exactly five; so an eviction scan looks at five
    or six of the thirteen shards, never at all of them. *)
Theorem scan_order_length (c : Z) :
  0 <= c < NBUCKET →
  length (scan_order c) = if c <=? 5 then 6%nat else 5%nat.
Proof.
  intros Hc.
  assert (Hin : c ∈ bucket_ids) by (by apply elem_of_bucket_ids).
  unfold bucket_ids in Hin. simpl in Hin.
  repeat (apply elem_of_cons in Hin as [->|Hin]; [reflexivity|]).
  by apply elem_of_nil in Hin.
Qed.

Lemma scan_order_length_witness :
  length (scan_order 7) = if 7 <=? 5 then 6%nat else 5%nat.
Proof. apply (scan_order_length 7). unfold NBUCKET. lia. Defined.

(** X11: the rule does not order the shards: every shard reaches itself
    through a chain of acquisitions the rule allows ([c] may lock [c - 1],
    and shard 0 may lock shard 12), so the relation is cyclic although no
    two shards may lock each other. *)
Theorem may_lock_cyclic (c : Z) : 0 <= c < NBUCKET → tc may_lock c c.
Proof.
  intros Hc.
  assert (H012 : may_lock 0 12).
  { split; [by unfold NBUCKET|]. split; [by unfold NBUCKET|]. reflexivity. }
  destruct (decide (c = 0)) as [->|Hc0].
  { eapply tc_l; [exact H012|]. apply may_lock_down; unfold NBUCKET; lia. }
  destruct (decide (c = 12)) as [->|Hc12].
  { eapply tc_r; [|exact H012]. apply may_lock_down; unfold NBUCKET; lia. }
  eapply tc_transitive; [apply (may_lock_down c 0); lia|].
  eapply tc_l; [exact H012|].
  apply may_lock_down; unfold NBUCKET in *; lia.
Qed.

Lemma may_lock_cyclic_witness : tc may_lock 3 3.
Proof. apply (may_lock_cyclic 3). unfold NBUCKET. lia. Defined.

(** ** Traces *)

Lemma since_app s s' t : trace s' = trace s ++ t → since s s' = t.
Proof. intros H. unfold since. rewrite H. apply drop_app_length. Qed.

Lemma acquired_app t1 t2 : acquired (t1 ++ t2) = acquired t1 ++ acquired t2.
Proof. apply omap_app. Qed.

Lemma scan_buf_acquires_nothing j b sc s sc' s' :
  scan_buf j b sc s = (sc', s') →
  ∃ t, trace s' = trace s ++ t ∧ acquired t = [].
Proof.
  unfold scan_buf. intros H.
  destruct (b_refcnt (getbuf s b) =? 0);
    [|injection H as <- <-; exists []; by rewrite app_nil_r].
  destruct (b_time (getbuf s b) <? min_tick sc);
    [|injection H as <- <-; exists []; by rewrite app_nil_r].
  injection H as <- <-.
  destruct (_ && _); [by eexists [_]|exists []; by rewrite app_nil_r].
Qed.

Lemma scan_chain_acquires_nothing j c : ∀ sc s sc' s',
  scan_chain j c sc s = (sc', s') →
  ∃ t, trace s' = trace s ++ t ∧ acquired t = [].
Proof.
  induction c as [|b c IH]; intros sc s sc' s' H; simpl in H.
  - injection H as <- <-. exists []. by rewrite app_nil_r.
  - destruct (scan_buf j b sc s) as [sc1 s1] eqn:E1.
    apply scan_buf_acquires_nothing in E1 as (t1 & Ht1 & Ha1).
    apply IH in H as (t2 & Ht2 & Ha2).
    exists (t1 ++ t2). split; [by rewrite Ht2, Ht1, app_assoc|].
    by rewrite acquired_app, Ha1, Ha2.
Qed.

Lemma scan_buckets_acquires c js : ∀ sc s sc' s',
  scan_buckets c js sc s = (sc', s') →
  ∃ t, trace s' = trace s ++ t ∧
       acquired t = filter (λ j, can_lock c j = 1) js.
Proof.
  induction js as [|j js IH]; intros sc s sc' s' H; simpl in H.
  - injection H as <- <-. exists []. by rewrite app_nil_r.
  - destruct (Z.eqb_spec (can_lock c j) 0) as [Hc|Hc].
    + apply IH in H as (t & Ht & Ha). exists t. split; [done|].
      rewrite filter_cons_False by lia. done.
    + assert (Hc1 : can_lock c j = 1) by (destruct (can_lock_bool c j); lia).
      destruct (scan_chain j (chain (acquire j s) j) sc (acquire j s))
        as [sc2 s2] eqn:E2.
      apply scan_chain_acquires_nothing in E2 as (t2 & Ht2 & Ha2).
      apply IH in H as (t3 & Ht3 & Ha3).
      rewrite filter_cons_True by done.
      destruct (negb (j =? index sc2) && holding j s2).
      * eexists (Acquire j _ :: t2 ++ Release j _ :: t3). split.
        -- rewrite Ht3. simpl. rewrite Ht2. simpl.
           rewrite <- !app_assoc. reflexivity.
        -- change (acquired (Acquire j ?l :: ?t)) with (j :: acquired t).
           rewrite acquired_app, Ha2. simpl. by rewrite <- Ha3.
      * eexists (Acquire j _ :: t2 ++ t3). split.
        -- rewrite Ht3, Ht2. simpl. rewrite <- !app_assoc. reflexivity.
        -- change (acquired (Acquire j ?l :: ?t)) with (j :: acquired t).
           rewrite acquired_app, Ha2. simpl. by rewrite <- Ha3.
Qed.

(** X14: on a miss [bget] takes the lock of the target shard and then the
    locks of exactly the shards the rule admits from it, each once and in
    increasing order; it takes no other shard lock, whether it ends by
    returning, sleeping or panicking. *)
Theorem bget_miss_lock_order (w p dev blockno : Z) (s : machine) :
  miss dev blockno s →
  acquired (since s (final_state (bget w p dev blockno s))) =
  blockno mod NBUCKET :: scan_order (blockno mod NBUCKET).
Proof.
  intros Hmiss. unfold bget. set (c := blockno mod NBUCKET).
  rewrite (lookup_same s (acquire c s)) by done.
  change (chain (acquire c s) c) with (chain s c).
  unfold miss in Hmiss. fold c in Hmiss. rewrite Hmiss.
  destruct (scan_buckets c bucket_ids (mkscan (-1) UINT_MAX) (acquire c s))
    as [sc s1] eqn:E.
  apply scan_buckets_acquires in E as (t & Ht & Ha).
  fold (scan_order c) in Ha.
  assert (Hs1 : trace s1 = trace s ++ Acquire c (<[Z.to_nat c := true]> (bcache_lock s)) :: t).
  { rewrite Ht. simpl. by rewrite <- app_assoc. }
  destruct (index sc =? -1).
  { simpl. rewrite (since_app _ _ _ Hs1). simpl. by rewrite Ha. }
  destruct (unlink s1 (min_tick sc) (chain s1 (index sc))) as [[move rest]|].
  2:{ simpl. rewrite (since_app _ _ _ Hs1). simpl. by rewrite Ha. }
  match goal with
  | |- acquired (since s (final_state ?o)) = _ =>
      assert (Hfin : ∃ t', trace (final_state o) = trace s1 ++ t' ∧
                           acquired t' = [])
  end.
  { unfold acquiresleep. destruct (b_lock _); simpl; eexists;
      (split; [rewrite <- ?app_assoc; simpl; reflexivity|reflexivity]). }
  destruct Hfin as (t' & Ht' & Ha').
  rewrite Hs1, <- app_assoc in Ht'.
  rewrite (since_app _ _ _ Ht'). simpl.
  by rewrite acquired_app, Ha, Ha', app_nil_r.
Qed.

Lemma bget_miss_lock_order_witness :
  acquired (since s_idle (final_state (bget 32 1 1 6 s_idle))) =
  6 mod NBUCKET :: scan_order (6 mod NBUCKET).
Proof. apply (bget_miss_lock_order 32 1 1 6 s_idle). by vm_compute. Defined.

(** ** The hit path *)

Lemma getbuf_setbuf_proj {A : Type} (f : buf → A) s b bf x :
  f bf = f (getbuf s b) → f (getbuf (setbuf b bf s) x) = f (getbuf s x).
Proof.
  intros Hf. destruct (decide (b = x)) as [<-|Hne].
  - destruct (decide (b < length (bcache_buf s))%nat) as [Hb|Hb].
    + by rewrite getbuf_setbuf_eq.
    + unfold setbuf, getbuf. simpl. by rewrite list_insert_ge by lia.
  - by rewrite getbuf_setbuf_ne.
Qed.

(** X3: when the block is cached in buffer [b], [bget] takes only the lock
    of the target shard, adds one to the reference count of [b] (modulo
    [2^w]) and touches nothing else; it returns [b] with the content lock
    taken for the caller if that lock is free, and otherwise leaves the
    caller asleep on it with the reference already counted. *)
Theorem bget_hit (w p dev blockno : Z) (s : machine) (b : nat) :
  cached dev blockno s b → (b < length (bcache_buf s))%nat →
  b ∈ chain s (blockno mod NBUCKET) ∧
  b_dev (getbuf s b) = dev ∧ b_blockno (getbuf s b) = blockno ∧
  ∃ s',
    bget w p dev blockno s =
      match b_lock (getbuf s b) with
      | None => Done b s'
      | Some _ => Sleeping b s'
      end ∧
    getbuf s' b =
      set_lock (match b_lock (getbuf s b) with
                | None => Some p
                | Some q => Some q
                end)
        (set_refcnt (uint w (b_refcnt (getbuf s b) + 1)) (getbuf s b)) ∧
    (∀ x, x ≠ b → getbuf s' x = getbuf s x) ∧
    bcache_bucket s' = bcache_bucket s ∧
    ticks s' = ticks s ∧ disk s' = disk s ∧
    acquired (since s s') = [blockno mod NBUCKET] ∧
    disk_reads (since s s') = [].
Proof.
  intros Hc Hb. unfold cached in Hc.
  destruct (lookup_Some_elem _ _ _ _ _ Hc) as (Hin & Hd & Hn).
  split; [done|]. split; [done|]. split; [done|].
  unfold bget. set (c := blockno mod NBUCKET) in *.
  rewrite (lookup_same s (acquire c s)) by done.
  change (chain (acquire c s) c) with (chain s c). rewrite Hc.
  change (getbuf (acquire c s) b) with (getbuf s b).
  set (bf1 := set_refcnt (uint w (b_refcnt (getbuf s b) + 1)) (getbuf s b)).
  set (s1 := release c (setbuf b bf1 (acquire c s))).
  assert (Hg1 : getbuf s1 b = bf1).
  { unfold getbuf at 1. simpl. by rewrite list_lookup_insert_eq. }
  assert (Hx1 : ∀ x, x ≠ b → getbuf s1 x = getbuf s x).
  { intros x Hx. unfold getbuf. simpl. by rewrite list_lookup_insert_ne. }
  unfold acquiresleep. rewrite Hg1.
  change (b_lock bf1) with (b_lock (getbuf s b)).
  destruct (b_lock (getbuf s b)) as [q|] eqn:Hl.
  - exists s1. split; [done|]. split.
    { rewrite Hg1. subst bf1. destruct (getbuf s b); simpl in *. by subst. }
    split; [done|]. split; [done|]. split; [done|]. split; [done|].
    assert (Ht : trace s1 = trace s ++
                 [Acquire c (<[Z.to_nat c := true]> (bcache_lock s));
                  Release c (<[Z.to_nat c := false]>
                               (<[Z.to_nat c := true]> (bcache_lock s)))]).
    { simpl. by rewrite <- app_assoc. }
    by rewrite (since_app _ _ _ Ht).
  - eexists. split; [reflexivity|]. split.
    { unfold getbuf at 1. simpl. rewrite list_lookup_insert_eq; [done|].
      by rewrite length_insert. }
    split.
    { intros x Hx. rewrite <- (Hx1 x Hx). unfold getbuf. simpl.
      by rewrite list_lookup_insert_ne. }
    split; [done|]. split; [done|]. split; [done|].
    assert (Ht : trace (log (AcquireSleep b)
                          (setbuf b (set_lock (Some p) bf1) s1)) =
                 trace s ++
                 [Acquire c (<[Z.to_nat c := true]> (bcache_lock s));
                  Release c (<[Z.to_nat c := false]>
                               (<[Z.to_nat c := true]> (bcache_lock s)));
                  AcquireSleep b]).
    { simpl. by rewrite <- !app_assoc. }
    by rewrite (since_app _ _ _ Ht).
Qed.

Lemma bget_hit_witness :
  0%nat ∈ chain s_idle (1 mod NBUCKET) ∧
  b_dev (getbuf s_idle 0) = 1 ∧ b_blockno (getbuf s_idle 0) = 1 ∧
  ∃ s',
    bget 32 2 1 1 s_idle =
      match b_lock (getbuf s_idle 0) with
      | None => Done 0%nat s'
      | Some _ => Sleeping 0%nat s'
      end ∧
    getbuf s' 0 =
      set_lock (match b_lock (getbuf s_idle 0) with
                | None => Some 2
                | Some q => Some q
                end)
        (set_refcnt (uint 32 (b_refcnt (getbuf s_idle 0) + 1)) (getbuf s_idle 0)) ∧
    (∀ x, x ≠ 0%nat → getbuf s' x = getbuf s_idle x) ∧
    bcache_bucket s' = bcache_bucket s_idle ∧
    ticks s' = ticks s_idle ∧ disk s' = disk s_idle ∧
    acquired (since s_idle s') = [1 mod NBUCKET] ∧
    disk_reads (since s_idle s') = [].
Proof.
  apply (bget_hit 32 2 1 1 s_idle 0); [by vm_compute|].
  vm_compute. lia.
Defined.

(** ** What [bget] leaves alone *)

(** X12: [bget] never dereferences a null [move], never touches the clock,
    the disk, the size of the pool or the payload of any buffer, and
    changes no buffer other than the one it hands out; when it panics, no
    buffer and no chain has changed. *)
Theorem bget_frame (w p dev blockno : Z) (s : machine) :
  (∀ s', bget w p dev blockno s ≠ Fault s') ∧
  ticks (final_state (bget w p dev blockno s)) = ticks s ∧
  disk (final_state (bget w p dev blockno s)) = disk s ∧
  length (bcache_buf (final_state (bget w p dev blockno s)))
    = length (bcache_buf s) ∧
  (∀ x, b_data (getbuf (final_state (bget w p dev blockno s)) x)
        = b_data (getbuf s x)) ∧
  (∀ b s', bget w p dev blockno s = Done b s' ∨
           bget w p dev blockno s = Sleeping b s' →
           ∀ x, x ≠ b → getbuf s' x = getbuf s x) ∧
  (∀ msg s', bget w p dev blockno s = Panic msg s' → same_data s s').
Proof.
  assert (Hsleep : ∀ b s2 (o := acquiresleep p b s2),
    (∀ s', o ≠ Fault s') ∧ (∀ msg s', o ≠ Panic msg s') ∧
    ticks (final_state o) = ticks s2 ∧ disk (final_state o) = disk s2 ∧
    length (bcache_buf (final_state o)) = length (bcache_buf s2) ∧
    (∀ x, b_data (getbuf (final_state o) x) = b_data (getbuf s2 x)) ∧
    (∀ x, x ≠ b → getbuf (final_state o) x = getbuf s2 x) ∧
    (∀ v s', o = Done v s' ∨ o = Sleeping v s' → v = b ∧ s' = final_state o)).
  { intros b s2 o. subst o. unfold acquiresleep.
    destruct (b_lock (getbuf s2 b)) eqn:Hl; simpl.
    - split; [done|]. split; [done|]. split; [done|]. split; [done|].
      split; [done|]. split; [done|]. split; [done|].
      intros v s' [H|H]; by inversion H.
    - split; [done|]. split; [done|]. split; [done|]. split; [done|].
      split; [by rewrite length_insert|]. split.
      { intros x.
        apply (getbuf_setbuf_proj b_data s2 b (set_lock (Some p) (getbuf s2 b)) x).
        done. }
      split.
      { intros x Hx. unfold getbuf. simpl. by rewrite list_lookup_insert_ne. }
      intros v s' [H|H]; by inversion H. }
  destruct (lookup s dev blockno (chain s (blockno mod NBUCKET)))
    as [b|] eqn:Hl.
  - unfold bget.
    rewrite (lookup_same s (acquire _ s)) by done.
    change (chain (acquire (blockno mod NBUCKET) s) (blockno mod NBUCKET))
      with (chain s (blockno mod NBUCKET)).
    rewrite Hl.
    set (c := blockno mod NBUCKET).
    change (getbuf (acquire c s) b) with (getbuf s b).
    set (bf1 := set_refcnt (uint w (b_refcnt (getbuf s b) + 1)) (getbuf s b)).
    set (s1 := release c (setbuf b bf1 (acquire c s))).
    destruct (Hsleep b s1) as (Hf & Hp & Ht & Hd & Hlen & Hdat & Hoth & Hret).
    split; [done|]. split; [by rewrite Ht|]. split; [by rewrite Hd|].
    split; [rewrite Hlen; simpl; by rewrite length_insert|]. split.
    { intros x. rewrite Hdat.
      apply (getbuf_setbuf_proj b_data (acquire c s) b bf1 x). done. }
    split.
    { intros v s' Hv. destruct (Hret v s' Hv) as [-> ->].
      intros x Hx. rewrite Hoth by done.
      unfold getbuf. simpl. by rewrite list_lookup_insert_ne. }
    intros msg s' H. by destruct (Hp msg s').
  - destruct (bget_miss w p dev blockno s Hl)
      as [(_ & (s1 & Hp & Hsd) & _)
         |(j & v & c1 & c2 & s2 & _ & _ & _ & _ & _ & _ & _ & Hb & Hbuf & Hbk & Htk & Hdk)].
    + rewrite Hp. simpl. destruct Hsd as (Hb & Hk & Ht & Hd).
      split; [done|]. split; [done|]. split; [done|].
      split; [by rewrite Hb|]. split.
      { intros x. by rewrite (getbuf_same s s1 x Hb). }
      split; [by intros b s' [H|H]|].
      intros msg s' [= _ <-]. done.
    + rewrite Hb.
      destruct (Hsleep v s2) as (Hf & Hp & Ht & Hd & Hlen & Hdat & Hoth & Hret).
      assert (Hdata2 : ∀ x, b_data (getbuf s2 x) = b_data (getbuf s x)).
      { intros x. unfold getbuf at 1. rewrite Hbuf.
        apply (getbuf_setbuf_proj b_data s v (recycle dev blockno (getbuf s v)) x).
        done. }
      split; [done|]. split; [by rewrite Ht|]. split; [by rewrite Hd|].
      split; [by rewrite Hlen, Hbuf, length_insert|]. split.
      { intros x. by rewrite Hdat. }
      split.
      { intros b s' Hv. destruct (Hret b s' Hv) as [-> ->].
        intros x Hx. rewrite Hoth by done.
        unfold getbuf. rewrite Hbuf. by rewrite list_lookup_insert_ne. }
      intros msg s' H. by destruct (Hp msg s').
Qed.

(** ** Invariants across the interface *)

(** X8: every routine of the interface keeps the cache well-formed,
    however it ends. *)
Theorem wf_preserved (w p dev blockno : Z) (b : nat) (s : machine) :
  wf s →
  wf (final_state (bget w p dev blockno s)) ∧
  wf (final_state (bread w p dev blockno s)) ∧
  wf (final_state (bwrite p b s)) ∧
  wf (final_state (brelse w p b s)) ∧
  wf (bpin w b s) ∧ wf (bunpin w b s).
Proof.
  intros Hwf.
  split; [by apply bget_wf|]. split; [by apply bread_wf|].
  split; [by apply bwrite_wf|]. split; [by apply brelse_wf|].
  split; [by apply bpin_wf|by apply bunpin_wf].
Qed.

Lemma wf_preserved_witness :
  wf (final_state (bget 32 1 1 6 s_idle)) ∧
  wf (final_state (bread 32 1 1 6 s_idle)) ∧
  wf (final_state (bwrite 1 0 s_idle)) ∧
  wf (final_state (brelse 32 1 0 s_idle)) ∧
  wf (bpin 32 0 s_idle) ∧ wf (bunpin 32 0 s_idle).
Proof. apply (wf_preserved 32 1 1 6 0 s_idle). apply wf_s_idle. Defined.

(** X9: a routine entered with no shard lock held gives every shard lock
    back before it returns, and [bget] and [bread] also before they put
    the caller to sleep on a content lock. *)
Theorem shard_locks_released (w p dev blockno : Z) (b : nat) (s : machine) :
  unlocked s →
  (∀ v s', bget w p dev blockno s = Done v s' ∨
           bget w p dev blockno s = Sleeping v s' → unlocked s') ∧
  (∀ v s', bread w p dev blockno s = Done v s' ∨
           bread w p dev blockno s = Sleeping v s' → unlocked s') ∧
  (∀ s', brelse w p b s = Done tt s' → unlocked s') ∧
  (∀ s', bwrite p b s = Done tt s' → unlocked s') ∧
  unlocked (bpin w b s) ∧ unlocked (bunpin w b s).
Proof.
  intros Hu.
  split; [intros v s'; by apply bget_unlocked|]. split.
  { intros v s' [H|H]; [by eapply bread_unlocked|].
    unfold bread in H.
    destruct (bget w p dev blockno s) as [b1 s1| |b1 s1|] eqn:E; try done.
    - by destruct (_ =? 0).
    - injection H as <- <-. eapply bget_unlocked; [done|]. by right. }
  split; [intros s'; by apply brelse_unlocked|]. split.
  { intros s'. unfold bwrite. destruct (holdingsleep p b s); [|done].
    intros [= <-]. done. }
  split; [by apply bpin_unlocked|by apply bunpin_unlocked].
Qed.

Lemma unlocked_s_idle : unlocked s_idle.
Proof. by vm_compute. Qed.

Lemma shard_locks_released_witness :
  (∀ v s', bget 32 1 1 6 s_idle = Done v s' ∨
           bget 32 1 1 6 s_idle = Sleeping v s' → unlocked s') ∧
  (∀ v s', bread 32 1 1 6 s_idle = Done v s' ∨
           bread 32 1 1 6 s_idle = Sleeping v s' → unlocked s') ∧
  (∀ s', brelse 32 1 0 s_idle = Done tt s' → unlocked s') ∧
  (∀ s', bwrite 1 0 s_idle = Done tt s' → unlocked s') ∧
  unlocked (bpin 32 0 s_idle) ∧ unlocked (bunpin 32 0 s_idle).
Proof. apply (shard_locks_released 32 1 1 6 0 s_idle). apply unlocked_s_idle. Defined.

(** X15: no buffer is ever lost or duplicated: [bget] and [bread] only
    permute the buffers chained in the cache, and the other routines leave
    every chain as it is. *)
Theorem pool_conserved (w p dev blockno : Z) (b : nat) (s : machine) :
  wf s →
  concat (bcache_bucket (final_state (bget w p dev blockno s)))
    ≡ₚ concat (bcache_bucket s) ∧
  concat (bcache_bucket (final_state (bread w p dev blockno s)))
    ≡ₚ concat (bcache_bucket s) ∧
  bcache_bucket (final_state (bwrite p b s)) = bcache_bucket s ∧
  bcache_bucket (final_state (brelse w p b s)) = bcache_bucket s ∧
  bcache_bucket (bpin w b s) = bcache_bucket s ∧
  bcache_bucket (bunpin w b s) = bcache_bucket s.
Proof.
  intros Hwf.
  assert (Hget : concat (bcache_bucket (final_state (bget w p dev blockno s)))
                 ≡ₚ concat (bcache_bucket s)).
  { assert (Hsl : ∀ v s2, bcache_bucket (final_state (acquiresleep p v s2))
                          = bcache_bucket s2).
    { intros v s2. unfold acquiresleep. by destruct (b_lock _). }
    destruct (lookup s dev blockno (chain s (blockno mod NBUCKET)))
      as [b'|] eqn:Hl.
    - unfold bget.
      rewrite (lookup_same s (acquire _ s)) by done.
      change (chain (acquire (blockno mod NBUCKET) s) (blockno mod NBUCKET))
        with (chain s (blockno mod NBUCKET)).
      rewrite Hl, Hsl. done.
    - set (c := blockno mod NBUCKET) in *.
      assert (Hc : 0 <= c < NBUCKET)
        by (apply Z.mod_pos_bound; by unfold NBUCKET).
      destruct (bget_miss w p dev blockno s Hl)
        as [(_ & (s1 & -> & Hsd) & _)
           |(j & v & c1 & c2 & s2 & _ & _ & [Hj Hcl] & Hch & _ & _ & _ & -> & _ & Hbk & _)].
      + simpl. destruct Hsd as (_ & -> & _). done.
      + fold c in Hcl, Hbk. rewrite Hsl, Hbk.
        assert (Hjc : Z.to_nat j ≠ Z.to_nat c).
        { intros Heq. assert (j = c) as -> by lia.
          apply can_lock_cases in Hcl. lia. }
        pose proof (wf_chain_lookup s j Hwf Hj) as Hlj. rewrite Hch in Hlj.
        pose proof (wf_chain_lookup s c Hwf Hc) as Hlc.
        by apply concat_move_perm. }
  split; [done|]. split.
  { unfold bread. destruct (bget w p dev blockno s) as [b1 s1| | |]; try done.
    by destruct (_ =? 0). }
  split.
  { unfold bwrite. by destruct (holdingsleep p b s). }
  split.
  { unfold brelse. destruct (holdingsleep p b s); [|done]. simpl.
    by destruct (_ =? 0). }
  done.
Qed.

Lemma pool_conserved_witness :
  concat (bcache_bucket (final_state (bget 32 1 1 6 s_idle)))
    ≡ₚ concat (bcache_bucket s_idle) ∧
  concat (bcache_bucket (final_state (bread 32 1 1 6 s_idle)))
    ≡ₚ concat (bcache_bucket s_idle) ∧
  bcache_bucket (final_state (bwrite 1 0 s_idle)) = bcache_bucket s_idle ∧
  bcache_bucket (final_state (brelse 32 1 0 s_idle)) = bcache_bucket s_idle ∧
  bcache_bucket (bpin 32 0 s_idle) = bcache_bucket s_idle ∧
  bcache_bucket (bunpin 32 0 s_idle) = bcache_bucket s_idle.
Proof. apply (pool_conserved 32 1 1 6 0 s_idle). apply wf_s_idle. Defined.

(** ** Round trips *)

(** X7: [bpin] and [bunpin] undo each other on every buffer whose count
    is in range, in either order, and neither touches a chain, the clock
    or the disk. *)
Theorem bpin_bunpin_round_trip (w : Z) (b : nat) (s : machine) :
  0 <= w → (b < length (bcache_buf s))%nat →
  0 <= b_refcnt (getbuf s b) < 2 ^ w →
  bcache_buf (bunpin w b (bpin w b s)) = bcache_buf s ∧
  bcache_buf (bpin w b (bunpin w b s)) = bcache_buf s ∧
  bcache_bucket (bunpin w b (bpin w b s)) = bcache_bucket s ∧
  ticks (bunpin w b (bpin w b s)) = ticks s ∧
  disk (bunpin w b (bpin w b s)) = disk s.
Proof.
  intros Hw Hb Hr.
  assert (Hpos : 0 < 2 ^ w) by (by apply Z.pow_pos_nonneg).
  split; [|split; [|done]].
  - rewrite bunpin_buf, getbuf_bpin, bpin_buf by done.
    rewrite list_insert_insert_eq. apply list_insert_id.
    rewrite getbuf_lookup by done. f_equal.
    destruct (getbuf s b) as [va de bl lo rc ti da]. simpl in *.
    unfold set_refcnt, uint. simpl. f_equal.
    rewrite Zminus_mod_idemp_l.
    replace (rc + 1 - 1) with rc by lia. symmetry. by apply Z.mod_small.
  - rewrite bpin_buf, getbuf_bunpin, bunpin_buf by done.
    rewrite list_insert_insert_eq. apply list_insert_id.
    rewrite getbuf_lookup by done. f_equal.
    destruct (getbuf s b) as [va de bl lo rc ti da]. simpl in *.
    unfold set_refcnt, uint. simpl. f_equal.
    rewrite Zplus_mod_idemp_l.
    replace (rc - 1 + 1) with rc by lia. symmetry. by apply Z.mod_small.
Qed.

Lemma bpin_bunpin_round_trip_witness :
  bcache_buf (bunpin 32 0 (bpin 32 0 s_held)) = bcache_buf s_held ∧
  bcache_buf (bpin 32 0 (bunpin 32 0 s_held)) = bcache_buf s_held ∧
  bcache_bucket (bunpin 32 0 (bpin 32 0 s_held)) = bcache_bucket s_held ∧
  ticks (bunpin 32 0 (bpin 32 0 s_held)) = ticks s_held ∧
  disk (bunpin 32 0 (bpin 32 0 s_held)) = disk s_held.
Proof.
  apply (bpin_bunpin_round_trip 32 0 s_held); [lia| |].
  - vm_compute. lia.
  - vm_compute. split; [discriminate|reflexivity].
Defined.

(** ** Lookups after a change *)

Lemma lookup_ext s s' dev blockno c :
  (∀ x, x ∈ c → b_dev (getbuf s' x) = b_dev (getbuf s x) ∧
                 b_blockno (getbuf s' x) = b_blockno (getbuf s x)) →
  lookup s' dev blockno c = lookup s dev blockno c.
Proof.
  induction c as [|b c IH]; intros H; simpl; [done|].
  destruct (H b) as [-> ->]; [apply elem_of_cons; by left|].
  rewrite IH; [done|]. intros x Hx. apply H, elem_of_cons. by right.
Qed.

Lemma lookup_app s dev blockno c1 c2 :
  lookup s dev blockno (c1 ++ c2) =
  match lookup s dev blockno c1 with
  | Some b => Some b
  | None => lookup s dev blockno c2
  end.
Proof.
  induction c1 as [|b c1 IH]; simpl; [done|].
  by destruct (_ && _).
Qed.

Lemma lookup_None_elem s dev blockno c b :
  lookup s dev blockno c = None → b ∈ c →
  ¬ (b_dev (getbuf s b) = dev ∧ b_blockno (getbuf s b) = blockno).
Proof.
  induction c as [|x c IH]; intros Hl Hb; [by apply elem_of_nil in Hb|].
  simpl in Hl.
  destruct (Z.eqb_spec (b_dev (getbuf s x)) dev) as [Hd|Hd];
    destruct (Z.eqb_spec (b_blockno (getbuf s x)) blockno) as [Hn|Hn];
    simpl in Hl; try done;
    (apply elem_of_cons in Hb as [->|Hb]; [by intros [? ?]|by apply IH]).
Qed.

(** After a hit or a miss, [bget] asks for the content lock of a buffer
    that is now the cache entry of the requested block. *)
Lemma bget_asks_for_entry w p dev blockno s :
  wf s →
  (miss dev blockno s ∧
   ∃ s', bget w p dev blockno s = Panic "bget: no buffers" s') ∨
  ∃ b s2,
    bget w p dev blockno s = acquiresleep p b s2 ∧
    wf s2 ∧ cached dev blockno s2 b ∧ (b < length (bcache_buf s2))%nat ∧
    b_dev (getbuf s2 b) = dev ∧ b_blockno (getbuf s2 b) = blockno ∧
    b ∈ chain s2 (blockno mod NBUCKET) ∧
    b_lock (getbuf s2 b) = b_lock (getbuf s b) ∧
    ticks s2 = ticks s ∧ disk s2 = disk s ∧
    (miss dev blockno s →
     getbuf s2 b = recycle dev blockno (getbuf s b) ∧
     b_refcnt (getbuf s b) = 0 ∧
     ∀ j x, 0 <= j < NBUCKET → x ∈ chain s2 j →
            b_dev (getbuf s2 x) = dev → b_blockno (getbuf s2 x) = blockno →
            x = b) ∧
    (∀ b0, cached dev blockno s b0 →
     b = b0 ∧
     getbuf s2 b = set_refcnt (uint w (b_refcnt (getbuf s b) + 1)) (getbuf s b)).
Proof.
  intros Hwf. set (c := blockno mod NBUCKET).
  assert (Hc : 0 <= c < NBUCKET) by (apply Z.mod_pos_bound; by unfold NBUCKET).
  destruct (lookup s dev blockno (chain s c)) as [b|] eqn:Hl.
  - right. destruct (lookup_Some_elem _ _ _ _ _ Hl) as (Hin & Hd & Hn).
    pose proof (wf_chain_valid s c b Hwf Hc Hin) as Hb.
    set (bf1 := set_refcnt (uint w (b_refcnt (getbuf s b) + 1)) (getbuf s b)).
    set (s1 := release c (setbuf b bf1 (acquire c s))).
    assert (Hg1 : getbuf s1 b = bf1).
    { unfold getbuf at 1. simpl. by rewrite list_lookup_insert_eq. }
    assert (Hid : ∀ x, b_dev (getbuf s1 x) = b_dev (getbuf s x) ∧
                       b_blockno (getbuf s1 x) = b_blockno (getbuf s x)).
    { intros x. split.
      - apply (getbuf_setbuf_proj b_dev (acquire c s) b bf1 x). done.
      - apply (getbuf_setbuf_proj b_blockno (acquire c s) b bf1 x). done. }
    exists b, s1. split.
    { unfold bget. fold c.
      rewrite (lookup_same s (acquire c s)) by done.
      change (chain (acquire c s) c) with (chain s c). by rewrite Hl. }
    split.
    { subst s1. apply wf_release, wf_setbuf; [done|]. by apply wf_acquire. }
    split.
    { unfold cached. fold c. change (chain s1 c) with (chain s c).
      rewrite (lookup_ext s s1); [done|]. intros x _. apply Hid. }
    split; [simpl; by rewrite length_insert|].
    rewrite Hg1. split; [done|]. split; [done|]. split; [done|].
    split; [done|]. split; [done|]. split; [done|]. split.
    + intros Hm. unfold miss in Hm. fold c in Hm. congruence.
    + intros b0 Hb0. unfold cached in Hb0. fold c in Hb0.
      assert (b0 = b) as -> by congruence. by split.
  - destruct (bget_miss w p dev blockno s Hl)
      as [(_ & (s1 & Hp & _) & _)
         |(j & v & c1 & c2 & s2 & _ & _ & [Hj Hcl] & Hch & Hr & _ & _ & Hb & Hbuf & Hbk & Htk & Hdk)].
    { left. split; [done|]. by exists s1. }
    right. fold c in Hcl, Hbk.
    assert (Hjc : j ≠ c).
    { intros ->. apply can_lock_cases in Hcl. lia. }
    destruct (moved_facts s s2 c j v c1 c2 dev blockno Hwf Hc Hj Hjc Hch Hbuf Hbk)
      as (Hcc & Hcj & Hci & Hvi & Hvr & Hv & Hgv & Hgx).
    assert (Hold : lookup s2 dev blockno (chain s c) = None).
    { rewrite (lookup_ext s s2); [done|]. intros x Hx.
      rewrite Hgx; [done|]. intros ->. by apply (Hvi c). }
    assert (Hwf2 : wf s2).
    { pose proof (wf_chain_lookup s j Hwf Hj) as Hlj. rewrite Hch in Hlj.
      pose proof (wf_chain_lookup s c Hwf Hc) as Hlc.
      assert (Hjc' : Z.to_nat j ≠ Z.to_nat c) by lia.
      pose proof (concat_move_perm _ _ _ _ _ _ _ Hjc' Hlc Hlj) as Hperm.
      destruct Hwf as (Hlen & Hnd & Hval & Hh).
      split; [by rewrite Hbk, !length_insert|].
      split; [by rewrite Hbk, Hperm|]. split.
      * intros b Hb'. rewrite Hbk, Hperm in Hb'.
        rewrite Hbuf, length_insert. by apply Hval.
      * intros i x Hi Hx.
        destruct (decide (i = c)) as [->|Hic].
        { rewrite Hcc in Hx. apply elem_of_app in Hx as [Hx|Hx].
          - rewrite Hgx; [by apply Hh|]. intros ->. by apply (Hvi c).
          - apply list_elem_of_singleton in Hx as ->. rewrite Hgv. done. }
        destruct (decide (i = j)) as [->|Hij].
        { rewrite Hcj in Hx. rewrite Hgx; [|by intros ->].
          apply Hh; [done|]. rewrite Hch.
          apply elem_of_app in Hx as [Hx|Hx]; apply elem_of_app;
            [by left|right; apply elem_of_cons; by right]. }
        rewrite Hci in Hx by done.
        rewrite Hgx; [by apply Hh|]. intros ->. by apply (Hvi i). }
    exists v, s2. split; [done|]. split; [done|]. split.
    { unfold cached. fold c. rewrite Hcc, lookup_app, Hold. simpl.
      rewrite Hgv. simpl. by rewrite !Z.eqb_refl. }
    split; [by rewrite Hbuf, length_insert|].
    rewrite Hgv. split; [done|]. split; [done|]. split.
    { fold c. rewrite Hcc. apply elem_of_app. right. apply elem_of_cons. by left. }
    split; [done|]. split; [done|]. split; [done|]. split.
    + intros _. split; [done|]. split; [done|].
      intros i x Hi Hx Hdx Hnx.
      destruct (decide (x = v)) as [|Hxv]; [done|]. exfalso.
      rewrite Hgx in Hdx, Hnx by done.
      assert (Hxs : ∃ i', 0 <= i' < NBUCKET ∧ x ∈ chain s i').
      { destruct (decide (i = c)) as [->|Hic].
        - exists c. split; [done|]. rewrite Hcc in Hx.
          apply elem_of_app in Hx as [Hx|Hx]; [done|].
          by apply list_elem_of_singleton in Hx.
        - destruct (decide (i = j)) as [->|Hij].
          + exists j. split; [done|]. rewrite Hcj in Hx. rewrite Hch.
            apply elem_of_app in Hx as [Hx|Hx]; apply elem_of_app;
              [by left|right; apply elem_of_cons; by right].
          + exists i. split; [done|]. by rewrite Hci in Hx. }
      destruct Hxs as (i' & Hi' & Hxi').
      destruct Hwf as (_ & _ & _ & Hh).
      pose proof (Hh i' x Hi' Hxi') as Hhome. rewrite Hnx in Hhome.
      fold c in Hhome. subst i'.
      by apply (lookup_None_elem _ _ _ _ x Hl Hxi').
    + intros b0 Hb0. unfold cached in Hb0. fold c in Hb0. congruence.
Qed.

Lemma acquiresleep_done p b s2 v s' :
  (b < length (bcache_buf s2))%nat →
  acquiresleep p b s2 = Done v s' →
  v = b ∧ b_lock (getbuf s2 b) = None ∧
  s' = log (AcquireSleep b) (setbuf b (set_lock (Some p) (getbuf s2 b)) s2) ∧
  getbuf s' b = set_lock (Some p) (getbuf s2 b).
Proof.
  intros Hb. unfold acquiresleep.
  destruct (b_lock (getbuf s2 b)); [done|]. intros [= <- <-].
  split; [done|]. split; [done|]. split; [done|].
  unfold getbuf at 1. simpl. by rewrite list_lookup_insert_eq.
Qed.

Lemma cached_setbuf dev blockno s b bf x :
  b_dev bf = b_dev (getbuf s b) → b_blockno bf = b_blockno (getbuf s b) →
  cached dev blockno s x → cached dev blockno (setbuf b bf s) x.
Proof.
  intros Hd Hn Hc. unfold cached in *.
  change (chain (setbuf b bf s) (blockno mod NBUCKET))
    with (chain s (blockno mod NBUCKET)).
  rewrite (lookup_ext s); [done|]. intros y _. split.
  - by apply (getbuf_setbuf_proj b_dev).
  - by apply (getbuf_setbuf_proj b_blockno).
Qed.

Lemma cached_same dev blockno s s' x :
  bcache_buf s' = bcache_buf s → bcache_bucket s' = bcache_bucket s →
  cached dev blockno s x → cached dev blockno s' x.
Proof.
  intros Hb Hk. unfold cached.
  by rewrite (lookup_same s s'), (chain_same s s').
Qed.

Lemma cached_locked dev blockno p s b x :
  cached dev blockno s x →
  cached dev blockno
    (log (AcquireSleep b) (setbuf b (set_lock (Some p) (getbuf s b)) s)) x.
Proof.
  intros Hc.
  apply (cached_same _ _ (setbuf b (set_lock (Some p) (getbuf s b)) s));
    [done..|].
  by apply cached_setbuf.
Qed.

(** X4: the buffer [bget] returns is the cache entry of the requested
    block from then on: it carries the requested device and block numbers,
    it is chained in the shard [blockno mod NBUCKET], a walk of that chain
    for the block stops at it, and its content lock belongs to the
    caller. *)
Theorem bget_returns_requested_block (w p dev blockno : Z) (s s' : machine) (b : nat) :
  wf s → bget w p dev blockno s = Done b s' →
  b_dev (getbuf s' b) = dev ∧ b_blockno (getbuf s' b) = blockno ∧
  b ∈ chain s' (blockno mod NBUCKET) ∧ cached dev blockno s' b ∧
  b_lock (getbuf s' b) = Some p.
Proof.
  intros Hwf Hd.
  destruct (bget_asks_for_entry w p dev blockno s Hwf)
    as [[_ [s1 Hp]]|(b' & s2 & Hb & _ & Hc & Hlen & Hdev & Hblk & Hin & _)];
    [congruence|].
  rewrite Hb in Hd.
  destruct (acquiresleep_done _ _ _ _ _ Hlen Hd) as (-> & _ & -> & Hg).
  rewrite Hg. split; [done|]. split; [done|]. split; [done|].
  split; [|done]. by apply cached_locked.
Qed.

Lemma bget_returns_requested_block_witness :
  b_dev (getbuf (final_state (bget 32 1 1 6 s_idle)) 0) = 1 ∧
  b_blockno (getbuf (final_state (bget 32 1 1 6 s_idle)) 0) = 6 ∧
  0%nat ∈ chain (final_state (bget 32 1 1 6 s_idle)) (6 mod NBUCKET) ∧
  cached 1 6 (final_state (bget 32 1 1 6 s_idle)) 0 ∧
  b_lock (getbuf (final_state (bget 32 1 1 6 s_idle)) 0) = Some 1.
Proof.
  apply (bget_returns_requested_block 32 1 1 6 s_idle _ 0 wf_s_idle).
  vm_compute. reflexivity.
Defined.

(** X5: a miss creates no duplicate entry: once [bget] has recycled a
    buffer for a block that was not cached, that buffer is the only
    chained buffer of the whole cache carrying the block's device and
    block numbers. *)
Theorem bget_miss_single_entry (w p dev blockno : Z) (s s' : machine) (v : nat) :
  wf s → miss dev blockno s →
  bget w p dev blockno s = Done v s' ∨ bget w p dev blockno s = Sleeping v s' →
  sole_entry dev blockno s' v.
Proof.
  intros Hwf Hmiss Hout. unfold sole_entry.
  destruct (bget_asks_for_entry w p dev blockno s Hwf)
    as [[_ [s1 Hp]]|(b' & s2 & Hb & _ & _ & Hlen & _ & _ & _ & _ & _ & _ & Hm & _)].
  { rewrite Hp in Hout. by destruct Hout. }
  destruct (Hm Hmiss) as (_ & _ & Huniq).
  rewrite Hb in Hout.
  pose proof (acquiresleep_returns _ _ _ _ _ Hout) as ->.
  assert (Hs' : s' = final_state (acquiresleep p b' s2)).
  { by destruct Hout as [-> | ->]. }
  intros j x Hj Hx Hdx Hnx. apply (Huniq j x Hj).
  - subst s'. unfold acquiresleep in Hx. by destruct (b_lock _).
  - subst s'. unfold acquiresleep in Hdx.
    destruct (b_lock (getbuf s2 b')); [done|]. simpl in Hdx.
    rewrite <- Hdx. symmetry.
    apply (getbuf_setbuf_proj b_dev s2 b' _ x). done.
  - subst s'. unfold acquiresleep in Hnx.
    destruct (b_lock (getbuf s2 b')); [done|]. simpl in Hnx.
    rewrite <- Hnx. symmetry.
    apply (getbuf_setbuf_proj b_blockno s2 b' _ x). done.
Qed.

Lemma bget_miss_single_entry_witness :
  sole_entry 1 6 (final_state (bget 32 1 1 6 s_idle)) 0.
Proof.
  apply (bget_miss_single_entry 32 1 1 6 s_idle _ 0 wf_s_idle).
  - by vm_compute.
  - left. vm_compute. reflexivity.
Defined.

(** ** [bget] makes no disk call *)

Lemma disk_reads_app t1 t2 : disk_reads (t1 ++ t2) = disk_reads t1 ++ disk_reads t2.
Proof. apply omap_app. Qed.

Lemma lock_events_no_read t : Forall lock_event t → disk_reads t = [].
Proof.
  induction 1 as [|e t He _ IH]; [done|].
  destruct e; simpl in *; done.
Qed.

Lemma scan_buf_lock_events j b sc s sc' s' :
  scan_buf j b sc s = (sc', s') →
  ∃ t, trace s' = trace s ++ t ∧ Forall lock_event t.
Proof.
  unfold scan_buf. intros H.
  destruct (b_refcnt (getbuf s b) =? 0);
    [|injection H as <- <-; exists []; by rewrite app_nil_r].
  destruct (b_time (getbuf s b) <? min_tick sc);
    [|injection H as <- <-; exists []; by rewrite app_nil_r].
  injection H as <- <-.
  destruct (_ && _); [|exists []; by rewrite app_nil_r].
  eexists [_]. split; [reflexivity|]. by repeat constructor.
Qed.

Lemma scan_chain_lock_events j c : ∀ sc s sc' s',
  scan_chain j c sc s = (sc', s') →
  ∃ t, trace s' = trace s ++ t ∧ Forall lock_event t.
Proof.
  induction c as [|b c IH]; intros sc s sc' s' H; simpl in H.
  - injection H as <- <-. exists []. by rewrite app_nil_r.
  - destruct (scan_buf j b sc s) as [sc1 s1] eqn:E1.
    apply scan_buf_lock_events in E1 as (t1 & Ht1 & Ha1).
    apply IH in H as (t2 & Ht2 & Ha2).
    exists (t1 ++ t2). split; [by rewrite Ht2, Ht1, app_assoc|].
    by apply Forall_app.
Qed.

Lemma scan_buckets_lock_events c js : ∀ sc s sc' s',
  scan_buckets c js sc s = (sc', s') →
  ∃ t, trace s' = trace s ++ t ∧ Forall lock_event t.
Proof.
  induction js as [|j js IH]; intros sc s sc' s' H; simpl in H.
  - injection H as <- <-. exists []. by rewrite app_nil_r.
  - destruct (can_lock c j =? 0); [by eapply IH|].
    destruct (scan_chain j (chain (acquire j s) j) sc (acquire j s))
      as [sc2 s2] eqn:E2.
    apply scan_chain_lock_events in E2 as (t2 & Ht2 & Ha2).
    apply IH in H as (t3 & Ht3 & Ha3).
    destruct (negb (j =? index sc2) && holding j s2).
    + eexists (Acquire j _ :: t2 ++ Release j _ :: t3). split.
      * rewrite Ht3. simpl. rewrite Ht2. simpl.
        rewrite <- !app_assoc. reflexivity.
      * constructor; [done|]. apply Forall_app. split; [done|].
        by constructor.
    + eexists (Acquire j _ :: t2 ++ t3). split.
      * rewrite Ht3, Ht2. simpl. rewrite <- !app_assoc. reflexivity.
      * constructor; [done|]. by apply Forall_app.
Qed.

Lemma bget_no_disk_read w p dev blockno s :
  disk_reads (since s (final_state (bget w p dev blockno s))) = [].
Proof.
  unfold bget. set (c := blockno mod NBUCKET).
  destruct (lookup (acquire c s) dev blockno (chain (acquire c s) c)) as [b|].
  - match goal with
    | |- disk_reads (since s (final_state ?o)) = _ =>
        assert (Hfin : ∃ t', trace (final_state o) = trace s ++ t' ∧
                             disk_reads t' = [])
    end.
    { unfold acquiresleep. destruct (b_lock _); simpl; eexists;
        (split; [rewrite <- ?app_assoc; simpl; reflexivity|reflexivity]). }
    destruct Hfin as (t' & Ht' & Ha'). by rewrite (since_app _ _ _ Ht').
  - destruct (scan_buckets c bucket_ids (mkscan (-1) UINT_MAX) (acquire c s))
      as [sc s1] eqn:E.
    apply scan_buckets_lock_events in E as (t & Ht & Ha%lock_events_no_read).
    assert (Hs1 : trace s1 = trace s ++
                  Acquire c (<[Z.to_nat c := true]> (bcache_lock s)) :: t).
    { rewrite Ht. simpl. by rewrite <- app_assoc. }
    destruct (index sc =? -1).
    { simpl. by rewrite (since_app _ _ _ Hs1). }
    destruct (unlink s1 (min_tick sc) (chain s1 (index sc))) as [[move rest]|].
    2:{ simpl. by rewrite (since_app _ _ _ Hs1). }
    match goal with
    | |- disk_reads (since s (final_state ?o)) = _ =>
        assert (Hfin : ∃ t', trace (final_state o) = trace s1 ++ t' ∧
                             disk_reads t' = [])
    end.
    { unfold acquiresleep. destruct (b_lock _); simpl; eexists;
        (split; [rewrite <- ?app_assoc; simpl; reflexivity|reflexivity]). }
    destruct Hfin as (t' & Ht' & Ha').
    rewrite Hs1, <- app_assoc in Ht'.
    rewrite (since_app _ _ _ Ht'). simpl.
    by rewrite disk_reads_app, Ha, Ha'.
Qed.

Lemma bget_trace_grows w p dev blockno s :
  ∃ t, trace (final_state (bget w p dev blockno s)) = trace s ++ t.
Proof.
  unfold bget. set (c := blockno mod NBUCKET).
  destruct (lookup (acquire c s) dev blockno (chain (acquire c s) c)) as [b|].
  - unfold acquiresleep. destruct (b_lock _); simpl; eexists;
      rewrite <- ?app_assoc; reflexivity.
  - destruct (scan_buckets c bucket_ids (mkscan (-1) UINT_MAX) (acquire c s))
      as [sc s1] eqn:E.
    apply scan_buckets_lock_events in E as (t & Ht & _).
    assert (Hs1 : trace s1 = trace s ++
                  Acquire c (<[Z.to_nat c := true]> (bcache_lock s)) :: t).
    { rewrite Ht. simpl. by rewrite <- app_assoc. }
    destruct (index sc =? -1); [by eexists|].
    destruct (unlink s1 (min_tick sc) (chain s1 (index sc))) as [[move rest]|];
      [|by eexists].
    unfold acquiresleep. destruct (b_lock _); simpl; rewrite Hs1; eexists;
      rewrite <- ?app_assoc; reflexivity.
Qed.

(** ** Release, and what follows it *)

Lemma brelse_done w p b s :
  holdingsleep p b s = true →
  ∃ s' r t,
    brelse w p b s = Done tt s' ∧
    getbuf s' b = set_time t (set_refcnt r (set_lock None (getbuf s b))) ∧
    (∀ x, x ≠ b → getbuf s' x = getbuf s x) ∧
    bcache_bucket s' = bcache_bucket s ∧ disk s' = disk s ∧
    length (bcache_buf s') = length (bcache_buf s) ∧
    disk_reads (since s s') = [].
Proof.
  intros Hh. pose proof (holdingsleep_valid p b s Hh) as Hb.
  unfold brelse. rewrite Hh. simpl negb. cbv iota.
  set (bf := getbuf s b).
  assert (Hg1 : getbuf (releasesleep b s) b = set_lock None bf).
  { unfold getbuf at 1. simpl. by rewrite list_lookup_insert_eq. }
  set (s1 := releasesleep b s) in *.
  assert (Hlen1 : length (bcache_buf s1) = length (bcache_buf s)).
  { subst s1. simpl. by rewrite length_insert. }
  rewrite Hg1.
  set (i := b_blockno (set_lock None bf) mod NBUCKET).
  change (getbuf (acquire i s1) b) with (getbuf s1 b). rewrite Hg1.
  set (r := uint w (b_refcnt (set_lock None bf) - 1)).
  set (s2 := setbuf b (set_refcnt r (set_lock None bf)) (acquire i s1)).
  assert (Hlen2 : length (bcache_buf s2) = length (bcache_buf s)).
  { subst s2. simpl. rewrite length_insert. done. }
  assert (Hg2 : getbuf s2 b = set_refcnt r (set_lock None bf)).
  { subst s2. apply getbuf_setbuf_eq.
    change (bcache_buf (acquire i s1)) with (bcache_buf s1). lia. }
  assert (Hx2 : ∀ x, x ≠ b → getbuf s2 x = getbuf s x).
  { intros x Hx. subst s2. rewrite getbuf_setbuf_ne by done.
    change (getbuf (acquire i s1) x) with (getbuf s1 x).
    subst s1. unfold getbuf. simpl. by rewrite list_lookup_insert_ne. }
  rewrite Hg2.
  destruct (b_refcnt (set_refcnt r (set_lock None bf)) =? 0).
  - eexists _, r, (ticks s2). split; [reflexivity|]. split.
    { change (getbuf (release i ?x) b) with (getbuf x b).
      rewrite getbuf_setbuf_eq by lia. reflexivity. }
    split.
    { intros x Hx. change (getbuf (release i ?y) x) with (getbuf y x).
      rewrite getbuf_setbuf_ne by done. by apply Hx2. }
    split; [done|]. split; [done|].
    split; [simpl; by rewrite !length_insert|].
    erewrite since_app; [|simpl; rewrite <- !app_assoc; reflexivity]. done.
  - eexists _, r, (b_time bf). split; [reflexivity|]. split.
    { change (getbuf (release i ?x) b) with (getbuf x b).
      rewrite Hg2. by destruct bf. }
    split.
    { intros x Hx. change (getbuf (release i ?y) x) with (getbuf y x).
      by apply Hx2. }
    split; [done|]. split; [done|].
    split; [simpl; by rewrite !length_insert|].
    erewrite since_app; [|simpl; rewrite <- !app_assoc; reflexivity]. done.
Qed.

(** X16: after [brelse] the content lock of the buffer is free, so a
    second [brelse] or a [bwrite] on it, by any process, panics: the
    buffer may not be used again before it is acquired again. *)
Theorem brelse_ends_access (w p q : Z) (b : nat) (s s' : machine) :
  brelse w p b s = Done tt s' →
  b_lock (getbuf s' b) = None ∧
  brelse w q b s' = Panic "brelse" s' ∧
  bwrite q b s' = Panic "bwrite" s'.
Proof.
  intros Hd.
  assert (Hh : holdingsleep p b s = true).
  { unfold brelse in Hd. by destruct (holdingsleep p b s). }
  destruct (brelse_done w p b s Hh) as (s1 & r & t & Hb & Hg & _).
  assert (s' = s1) as <- by congruence.
  assert (Hl : b_lock (getbuf s' b) = None) by (by rewrite Hg).
  assert (Hq : holdingsleep q b s' = false).
  { unfold holdingsleep. rewrite Hl. by apply bool_decide_eq_false. }
  split; [done|]. unfold brelse, bwrite. by rewrite Hq.
Qed.

Lemma brelse_ends_access_witness :
  b_lock (getbuf (final_state (brelse 32 1 0 s_held)) 0) = None ∧
  brelse 32 1 0 (final_state (brelse 32 1 0 s_held))
    = Panic "brelse" (final_state (brelse 32 1 0 s_held)) ∧
  bwrite 1 0 (final_state (brelse 32 1 0 s_held))
    = Panic "bwrite" (final_state (brelse 32 1 0 s_held)).
Proof.
  apply (brelse_ends_access 32 1 1 0 s_held). vm_compute. reflexivity.
Defined.

Lemma bread_done w p dev blockno s b s1 :
  wf s → bread w p dev blockno s = Done b s1 →
  ∃ sg, bget w p dev blockno s = Done b sg ∧ wf s1 ∧
        cached dev blockno s1 b ∧ (b < length (bcache_buf s1))%nat ∧
        b_lock (getbuf s1 b) = Some p ∧ b_valid (getbuf s1 b) ≠ 0 ∧
        (b_valid (getbuf sg b) ≠ 0 → s1 = sg) ∧
        (b_valid (getbuf sg b) = 0 →
         getbuf s1 b =
           set_valid 1
             (set_data (disk sg (b_dev (getbuf sg b)) (b_blockno (getbuf sg b)))
                (getbuf sg b)) ∧
         trace s1 = trace sg ++ [DiskRead b] ∧ disk s1 = disk sg).
Proof.
  intros Hwf Hd.
  assert (Hwf1 : wf s1).
  { change s1 with (final_state (Done b s1 : outcome nat)).
    rewrite <- Hd. by apply bread_wf. }
  unfold bread in Hd.
  destruct (bget w p dev blockno s) as [b' sg| | |] eqn:E; try done.
  destruct (bget_asks_for_entry w p dev blockno s Hwf)
    as [[_ [s0 Hp]]|(b'' & s2 & Hb & _ & Hc & Hlen & _)]; [congruence|].
  rewrite Hb in E.
  destruct (acquiresleep_done _ _ _ _ _ Hlen E) as (-> & _ & Hsg & Hg).
  assert (Hcg : cached dev blockno sg b'').
  { rewrite Hsg. by apply cached_locked. }
  assert (Hlg : (b'' < length (bcache_buf sg))%nat).
  { rewrite Hsg. simpl. by rewrite length_insert. }
  assert (Hlk : b_lock (getbuf sg b'') = Some p).
  { by rewrite Hg. }
  destruct (Z.eqb_spec (b_valid (getbuf sg b'')) 0) as [Hv|Hv].
  - injection Hd as <- Hs1.
    assert (Hs1' : s1 = setbuf b'' (set_valid 1 (getbuf (virtio_disk_rw b'' false sg) b''))
                          (virtio_disk_rw b'' false sg)) by (by rewrite <- Hs1).
    clear Hs1. subst s1.
    exists sg. split; [done|].
    assert (Hgr : getbuf (virtio_disk_rw b'' false sg) b'' =
                  set_data (disk sg (b_dev (getbuf sg b'')) (b_blockno (getbuf sg b'')))
                    (getbuf sg b'')).
    { unfold getbuf at 1. simpl. by rewrite list_lookup_insert_eq. }
    assert (Hgf : getbuf (setbuf b'' (set_valid 1 (getbuf (virtio_disk_rw b'' false sg) b''))
                            (virtio_disk_rw b'' false sg)) b'' =
                  set_valid 1 (getbuf (virtio_disk_rw b'' false sg) b'')).
    { apply getbuf_setbuf_eq. simpl. by rewrite length_insert. }
    split; [done|]. split.
    { apply cached_setbuf; [done..|].
      apply (cached_same _ _ (setbuf b''
               (set_data (disk sg (b_dev (getbuf sg b'')) (b_blockno (getbuf sg b'')))
                  (getbuf sg b'')) sg)); [done..|].
      by apply cached_setbuf. }
    split; [simpl; by rewrite !length_insert|].
    rewrite Hgf, Hgr. split; [done|]. split; [done|].
    split; [done|]. intros _. done.
  - injection Hd as <- <-. exists sg. split; [done|].
    split; [done|]. split; [done|]. split; [done|]. split; [done|].
    split; [done|]. split; [done|]. intros H0. done.
Qed.

(** X6: a released block stays cached: after [bread] of a block and
    [brelse] of its buffer, the next [bread] of the same block, by any
    process, returns the same buffer with the same payload and makes no
    disk read. *)
Theorem released_block_stays_cached (w p p' dev blockno : Z) (s s1 : machine) (b : nat) :
  wf s → bread w p dev blockno s = Done b s1 →
  ∃ s2 s3,
    brelse w p b s1 = Done tt s2 ∧
    bread w p' dev blockno s2 = Done b s3 ∧
    b_data (getbuf s3 b) = b_data (getbuf s1 b) ∧
    b_lock (getbuf s3 b) = Some p' ∧
    disk_reads (since s1 s2) = [] ∧ disk_reads (since s2 s3) = [].
Proof.
  intros Hwf Hd.
  destruct (bread_done w p dev blockno s b s1 Hwf Hd)
    as (sg & _ & Hwf1 & Hc1 & Hb1 & Hl1 & Hv1 & _).
  assert (Hh : holdingsleep p b s1 = true) by (by apply holdingsleep_true).
  destruct (brelse_done w p b s1 Hh)
    as (s2 & r & t & Hrel & Hg2 & Hx2 & Hk2 & Hd2 & Hlen2 & Hio2).
  assert (Hwf2 : wf s2).
  { change s2 with (final_state (Done tt s2 : outcome unit)).
    rewrite <- Hrel. by apply brelse_wf. }
  assert (Hc2 : cached dev blockno s2 b).
  { unfold cached in *. rewrite (chain_same s1 s2) by done.
    rewrite (lookup_ext s1 s2); [done|]. intros x _.
    destruct (decide (x = b)) as [->|Hx]; [by rewrite Hg2|by rewrite Hx2]. }
  exists s2.
  destruct (bget_asks_for_entry w p' dev blockno s2 Hwf2)
    as [[Hm _]|(b' & s3 & Hb3 & _ & _ & Hlen3 & _ & _ & _ & Hl3 & _ & _ & _ & Hhit)].
  { unfold miss in Hm. unfold cached in Hc2. congruence. }
  destruct (Hhit b Hc2) as [-> Hg3].
  assert (Hfree : b_lock (getbuf s3 b) = None) by (by rewrite Hl3, Hg2).
  set (s4 := log (AcquireSleep b) (setbuf b (set_lock (Some p') (getbuf s3 b)) s3)).
  assert (Hget : bget w p' dev blockno s2 = Done b s4).
  { rewrite Hb3. unfold acquiresleep. by rewrite Hfree. }
  assert (Hg4 : getbuf s4 b = set_lock (Some p') (getbuf s3 b)).
  { unfold getbuf at 1. simpl. by rewrite list_lookup_insert_eq. }
  assert (Hval : (b_valid (getbuf s4 b) =? 0) = false).
  { rewrite Hg4, Hg3, Hg2. simpl. by apply Z.eqb_neq. }
  exists s4. split; [done|]. split.
  { unfold bread. by rewrite Hget, Hval. }
  split; [by rewrite Hg4, Hg3, Hg2|]. split; [by rewrite Hg4|].
  split; [done|].
  pose proof (bget_no_disk_read w p' dev blockno s2) as Hno.
  by rewrite Hget in Hno.
Qed.

Lemma released_block_stays_cached_witness :
  ∃ s2 s3,
    brelse 32 1 0 (final_state (bread 32 1 1 1 s_boot)) = Done tt s2 ∧
    bread 32 2 1 1 s2 = Done 0%nat s3 ∧
    b_data (getbuf s3 0) = b_data (getbuf (final_state (bread 32 1 1 1 s_boot)) 0) ∧
    b_lock (getbuf s3 0) = Some 2 ∧
    disk_reads (since (final_state (bread 32 1 1 1 s_boot)) s2) = [] ∧
    disk_reads (since s2 s3) = [].
Proof.
  apply (released_block_stays_cached 32 1 2 1 1 s_boot _ 0 s_boot_wf).
  vm_compute. reflexivity.
Defined.

(** ** Through the disk and back *)

(** X13: write-through and reload.  A miss makes [bread] return a buffer
    that holds what the disk has for the block, read once; so if a process
    has written a payload with [bwrite] and the disk still has it when the
    block, no longer cached, is read again, [bread] returns that payload. *)
Theorem write_then_reload (w p p' : Z) (b b' : nat) (s s2 s3 : machine) :
  holdingsleep p b s = true →
  wf s2 →
  disk s2 (b_dev (getbuf s b)) (b_blockno (getbuf s b)) =
    disk (final_state (bwrite p b s)) (b_dev (getbuf s b)) (b_blockno (getbuf s b)) →
  miss (b_dev (getbuf s b)) (b_blockno (getbuf s b)) s2 →
  bread w p' (b_dev (getbuf s b)) (b_blockno (getbuf s b)) s2 = Done b' s3 →
  b_data (getbuf s3 b') = b_data (getbuf s b) ∧
  b_valid (getbuf s3 b') = 1 ∧ b_refcnt (getbuf s3 b') = 1 ∧
  b_dev (getbuf s3 b') = b_dev (getbuf s b) ∧
  b_blockno (getbuf s3 b') = b_blockno (getbuf s b) ∧
  disk_reads (since s2 s3) = [b'].
Proof.
  intros Hh Hwf2 Hdisk Hmiss Hrd.
  set (dev := b_dev (getbuf s b)) in *.
  set (blockno := b_blockno (getbuf s b)) in *.
  assert (Hw : disk (final_state (bwrite p b s)) dev blockno = b_data (getbuf s b)).
  { unfold bwrite. rewrite Hh. simpl. fold dev blockno.
    by rewrite !Z.eqb_refl. }
  rewrite Hw in Hdisk.
  destruct (bread_done w p' dev blockno s2 b' s3 Hwf2 Hrd)
    as (sg & Hget & _ & _ & _ & _ & _ & _ & Hread).
  destruct (bget_asks_for_entry w p' dev blockno s2 Hwf2)
    as [[_ [s0 Hp]]|(v & s4 & Hb4 & _ & _ & Hlen4 & _ & _ & _ & _ & _ & Hdk4 & Hm & _)];
    [congruence|].
  destruct (Hm Hmiss) as (Hg4 & _ & _).
  rewrite Hb4 in Hget.
  destruct (acquiresleep_done _ _ _ _ _ Hlen4 Hget) as (Hbv & _ & Hsg & Hgg).
  subst v.
  assert (Hvg : b_valid (getbuf sg b') = 0) by (by rewrite Hgg, Hg4).
  destruct (Hread Hvg) as (Hg3 & Ht3 & _).
  rewrite Hg3, Hgg, Hg4. simpl.
  assert (Hdg : disk sg = disk s2) by (by rewrite Hsg).
  rewrite Hdg. split; [done|]. split; [done|]. split; [done|].
  split; [done|]. split; [done|].
  pose proof (bget_no_disk_read w p' dev blockno s2) as Hno.
  pose proof (bget_trace_grows w p' dev blockno s2) as [t Ht].
  rewrite Hb4, Hget in Hno, Ht. simpl in Hno, Ht.
  rewrite (since_app _ _ _ Ht) in Hno.
  rewrite Ht, <- app_assoc in Ht3. rewrite (since_app _ _ _ Ht3).
  by rewrite disk_reads_app, Hno.
Qed.

Lemma wf_set_data s b d : wf s → wf (setbuf b (set_data d (getbuf s b)) s).
Proof. intros Hwf. by apply wf_setbuf. Qed.

Lemma wf_s_evicted : wf s_evicted.
Proof.
  unfold s_evicted, s_modified.
  apply bread_wf, brelse_wf, bwrite_wf, wf_set_data, s_held_wf.
Qed.

Lemma write_then_reload_witness :
  b_data (getbuf (final_state (bread 32 2 (b_dev (getbuf s_modified 0))
                                 (b_blockno (getbuf s_modified 0)) s_evicted)) 1)
    = b_data (getbuf s_modified 0) ∧
  b_valid (getbuf (final_state (bread 32 2 (b_dev (getbuf s_modified 0))
                                  (b_blockno (getbuf s_modified 0)) s_evicted)) 1) = 1 ∧
  b_refcnt (getbuf (final_state (bread 32 2 (b_dev (getbuf s_modified 0))
                                   (b_blockno (getbuf s_modified 0)) s_evicted)) 1) = 1 ∧
  b_dev (getbuf (final_state (bread 32 2 (b_dev (getbuf s_modified 0))
                                (b_blockno (getbuf s_modified 0)) s_evicted)) 1)
    = b_dev (getbuf s_modified 0) ∧
  b_blockno (getbuf (final_state (bread 32 2 (b_dev (getbuf s_modified 0))
                                    (b_blockno (getbuf s_modified 0)) s_evicted)) 1)
    = b_blockno (getbuf s_modified 0) ∧
  disk_reads (since s_evicted
                (final_state (bread 32 2 (b_dev (getbuf s_modified 0))
                                (b_blockno (getbuf s_modified 0)) s_evicted))) = [1%nat].
Proof.
  apply (write_then_reload 32 1 2 0 1 s_modified s_evicted _).
  - by vm_compute.
  - apply wf_s_evicted.
  - by vm_compute.
  - by vm_compute.
  - vm_compute. reflexivity.
Defined.

(** The payload process 1 wrote comes back from the disk into another
    buffer: the disk had the empty block before the write, buffer 0 has
    been recycled for block 6 in between, and the reload fills buffer 1. *)
Example s_evicted_reload :
  disk s_modified 1 1 = [] ∧ b_data (getbuf s_modified 0) = [7; 7; 7] ∧
  disk s_evicted 1 1 = [7; 7; 7] ∧
  b_blockno (getbuf s_evicted 0) = 6 ∧ miss 1 1 s_evicted ∧
  ∃ s', bread 32 2 1 1 s_evicted = Done 1%nat s' ∧
        b_data (getbuf s' 1) = [7; 7; 7].
Proof.
  split; [by vm_compute|]. split; [by vm_compute|]. split; [by vm_compute|].
  split; [by vm_compute|]. split; [by vm_compute|].
  eexists. split; [vm_compute; reflexivity|]. by vm_compute.
Qed.

(** ** A held buffer stays the entry of its block *)

Lemma cached_after_move dev blockno d n s s2 (c j : Z) v c1 c2 b :
  wf s → 0 <= c < NBUCKET → 0 <= j < NBUCKET → j ≠ c →
  chain s j = c1 ++ v :: c2 →
  bcache_buf s2 = <[v := recycle d n (getbuf s v)]> (bcache_buf s) →
  bcache_bucket s2 =
    <[Z.to_nat c := chain s c ++ [v]]>
      (<[Z.to_nat j := c1 ++ c2]> (bcache_bucket s)) →
  b ≠ v → cached dev blockno s b → cached dev blockno s2 b.
Proof.
  intros Hwf Hc Hj Hjc Hch Hbuf Hbk Hbv Hcb.
  destruct (moved_facts s s2 c j v c1 c2 d n Hwf Hc Hj Hjc Hch Hbuf Hbk)
    as (Hcc & Hcj & Hci & Hvi & Hvr & Hv & Hgv & Hgx).
  set (cb := blockno mod NBUCKET).
  assert (Hcb0 : 0 <= cb < NBUCKET) by (apply Z.mod_pos_bound; by unfold NBUCKET).
  assert (Hext : ∀ l, ¬ (v ∈ l) → lookup s2 dev blockno l = lookup s dev blockno l).
  { intros l Hl. apply lookup_ext. intros x Hx. rewrite Hgx; [done|].
    by intros ->. }
  unfold cached in *. fold cb in Hcb |- *.
  destruct (decide (cb = c)) as [Hcbc|Hne1].
  - rewrite Hcbc in *. rewrite Hcc, lookup_app, Hext by (by apply Hvi).
    by rewrite Hcb.
  - destruct (decide (cb = j)) as [Hcbj|Hne2].
    + rewrite Hcbj in *. rewrite Hcj. rewrite Hch in Hcb.
      assert (Hv1 : ¬ (v ∈ c1)).
      { intros H. apply Hvr, elem_of_app. by left. }
      assert (Hv2 : ¬ (v ∈ c2)).
      { intros H. apply Hvr, elem_of_app. by right. }
      rewrite lookup_app in Hcb. rewrite lookup_app, !Hext by done.
      destruct (lookup s dev blockno c1); [done|].
      simpl in Hcb. destruct (_ && _); [congruence|done].
    + rewrite Hci by done. rewrite Hext; [done|]. by apply Hvi.
Qed.

Lemma acquiresleep_keeps_entry dev blockno q v s b :
  v ≠ b → cached dev blockno s b →
  cached dev blockno (final_state (acquiresleep q v s)) b ∧
  getbuf (final_state (acquiresleep q v s)) b = getbuf s b.
Proof.
  intros Hv Hc. unfold acquiresleep.
  destruct (b_lock (getbuf s v)); simpl; [done|].
  split; [by apply cached_locked|].
  unfold getbuf. simpl. by rewrite list_lookup_insert_ne.
Qed.

(** A request for another block leaves a referenced buffer where it is:
    a hit changes the entry of that other block, a miss recycles an
    unreferenced buffer. *)
Lemma bget_keeps_entry w q d n dev blockno s b :
  wf s → cached dev blockno s b → b_refcnt (getbuf s b) ≠ 0 →
  ¬ (d = dev ∧ n = blockno) →
  cached dev blockno (final_state (bget w q d n s)) b ∧
  getbuf (final_state (bget w q d n s)) b = getbuf s b ∧
  (∀ v s1, bget w q d n s = Done v s1 → v ≠ b).
Proof.
  intros Hwf Hc Hr Hne.
  destruct (lookup_Some_elem _ _ _ _ _ Hc) as (Hin & Hd & Hn).
  set (c := n mod NBUCKET).
  assert (Hc0 : 0 <= c < NBUCKET) by (apply Z.mod_pos_bound; by unfold NBUCKET).
  destruct (lookup s d n (chain s c)) as [b'|] eqn:Hl.
  - destruct (lookup_Some_elem _ _ _ _ _ Hl) as (Hin' & Hd' & Hn').
    assert (Hbb : b' ≠ b).
    { intros ->. apply Hne. split; congruence. }
    set (bf1 := set_refcnt (uint w (b_refcnt (getbuf s b') + 1)) (getbuf s b')).
    set (s1 := release c (setbuf b' bf1 (acquire c s))).
    assert (Hb : bget w q d n s = acquiresleep q b' s1).
    { unfold bget. fold c.
      rewrite (lookup_same s (acquire c s)) by done.
      change (chain (acquire c s) c) with (chain s c). by rewrite Hl. }
    assert (Hc1 : cached dev blockno s1 b).
    { apply (cached_same _ _ (setbuf b' bf1 s)); [done..|].
      by apply cached_setbuf. }
    assert (Hg1 : getbuf s1 b = getbuf s b).
    { unfold getbuf. simpl. by rewrite list_lookup_insert_ne. }
    destruct (acquiresleep_keeps_entry dev blockno q b' s1 b Hbb Hc1) as [H1 H2].
    rewrite Hb. split; [done|]. split; [congruence|].
    intros v s' Hdone.
    assert (v = b') as -> by (eapply acquiresleep_returns; by left). done.
  - destruct (bget_miss w q d n s Hl)
      as [(_ & (s1 & Hp & Hsd) & _)
         |(j & v & c1 & c2 & s2 & _ & _ & [Hj Hcl] & Hch & Hrv & _ & _ & Hb & Hbuf & Hbk & _)].
    + rewrite Hp. simpl. destruct Hsd as (Hbuf & Hbk & _).
      split; [by apply (cached_same _ _ s)|]. split; [by apply getbuf_same|].
      intros v s' H. discriminate.
    + fold c in Hcl, Hbk.
      assert (Hvb : v ≠ b) by (intros ->; congruence).
      assert (Hjc : j ≠ c).
      { intros ->. apply can_lock_cases in Hcl. lia. }
      assert (Hc2 : cached dev blockno s2 b).
      { eapply (cached_after_move dev blockno d n s s2 c j v c1 c2 b); eauto. }
      assert (Hg2 : getbuf s2 b = getbuf s b).
      { unfold getbuf. rewrite Hbuf. by rewrite list_lookup_insert_ne. }
      destruct (acquiresleep_keeps_entry dev blockno q v s2 b Hvb Hc2) as [H1 H2].
      rewrite Hb. split; [done|]. split; [congruence|].
      intros v' s' Hdone.
      assert (v' = v) as -> by (eapply acquiresleep_returns; by left). done.
Qed.

Lemma bread_keeps_entry w q d n dev blockno s b :
  wf s → cached dev blockno s b → b_refcnt (getbuf s b) ≠ 0 →
  ¬ (d = dev ∧ n = blockno) →
  cached dev blockno (final_state (bread w q d n s)) b ∧
  getbuf (final_state (bread w q d n s)) b = getbuf s b.
Proof.
  intros Hwf Hc Hr Hne.
  destruct (bget_keeps_entry w q d n dev blockno s b Hwf Hc Hr Hne)
    as (Hc1 & Hg1 & Hv).
  unfold bread. destruct (bget w q d n s) as [v s1| | |] eqn:E; try done.
  specialize (Hv v s1 eq_refl). simpl in Hc1, Hg1.
  destruct (_ =? 0); [|done]. simpl. split.
  - apply cached_setbuf; [done..|].
    apply (cached_same _ _
             (setbuf v (set_data (disk s1 (b_dev (getbuf s1 v))
                                    (b_blockno (getbuf s1 v))) (getbuf s1 v)) s1));
      [done..|].
    by apply cached_setbuf.
  - rewrite getbuf_setbuf_ne by done. unfold virtio_disk_rw.
    change (getbuf (log ?e ?x) b) with (getbuf x b).
    by rewrite getbuf_setbuf_ne.
Qed.

Lemma brelse_keeps_entry w q b' dev blockno s b :
  b' ≠ b → cached dev blockno s b →
  cached dev blockno (final_state (brelse w q b' s)) b ∧
  getbuf (final_state (brelse w q b' s)) b = getbuf s b.
Proof.
  intros Hbb Hc.
  destruct (holdingsleep q b' s) eqn:Hh.
  - destruct (brelse_done w q b' s Hh)
      as (s' & r & t & Hrel & Hg & Hx & Hk & _).
    rewrite Hrel. simpl. split; [|by apply Hx].
    unfold cached in *. rewrite (chain_same s s') by done.
    rewrite (lookup_ext s s'); [done|]. intros x _.
    destruct (decide (x = b')) as [->|Hne]; [by rewrite Hg|by rewrite Hx].
  - unfold brelse. rewrite Hh. done.
Qed.

Lemma pin_keeps_entry dev blockno s b b' bf i :
  b' ≠ b → b_dev bf = b_dev (getbuf s b') →
  b_blockno bf = b_blockno (getbuf s b') →
  cached dev blockno s b →
  cached dev blockno (release i (setbuf b' bf (acquire i s))) b ∧
  getbuf (release i (setbuf b' bf (acquire i s))) b = getbuf s b.
Proof.
  intros Hbb Hd Hn Hc. split.
  - apply (cached_same _ _ (setbuf b' bf s)); [done..|]. by apply cached_setbuf.
  - unfold getbuf. simpl. by rewrite list_lookup_insert_ne.
Qed.

(** One call that leaves the buffer to its holder. *)
Lemma run_keeps_entry w c dev blockno s b :
  wf s → cached dev blockno s b → b_refcnt (getbuf s b) ≠ 0 →
  elsewhere dev blockno b c →
  wf (run w c s) ∧ cached dev blockno (run w c s) b ∧
  getbuf (run w c s) b = getbuf s b.
Proof.
  intros Hwf Hc Hr He. destruct c as [q d n|q d n|q b'|q b'|b'|b']; simpl in *.
  - split; [by apply bget_wf|].
    destruct (bget_keeps_entry w q d n dev blockno s b Hwf Hc Hr He)
      as (H1 & H2 & _). done.
  - split; [by apply bread_wf|]. by apply bread_keeps_entry.
  - split; [by apply bwrite_wf|].
    unfold bwrite. destruct (holdingsleep q b' s); simpl; [|done].
    split; [|done]. by apply (cached_same _ _ s).
  - split; [by apply brelse_wf|]. by apply brelse_keeps_entry.
  - split; [by apply bpin_wf|]. by apply pin_keeps_entry.
  - split; [by apply bunpin_wf|]. by apply pin_keeps_entry.
Qed.

Lemma runs_keeps_entry w cs dev blockno b : ∀ s,
  wf s → cached dev blockno s b → b_refcnt (getbuf s b) ≠ 0 →
  Forall (elsewhere dev blockno b) cs →
  wf (runs w cs s) ∧ cached dev blockno (runs w cs s) b ∧
  getbuf (runs w cs s) b = getbuf s b.
Proof.
  induction cs as [|c cs IH]; intros s Hwf Hc Hr Hall; [done|].
  apply Forall_cons in Hall as [He Hall].
  destruct (run_keeps_entry w c dev blockno s b Hwf Hc Hr He) as (H1 & H2 & H3).
  destruct (IH (run w c s) H1 H2 ltac:(by rewrite H3) Hall) as (H4 & H5 & H6).
  change (runs w (c :: cs) s) with (runs w cs (run w c s)).
  split; [done|]. split; [done|]. by rewrite H6.
Qed.

(** X17: while a process holds the content lock of the buffer that caches
    a block and the reference count of the buffer is not zero, the buffer
    stays the entry of the block whatever calls leave it to its holder
    (requests for other blocks, [bwrite], and [brelse], [bpin] and
    [bunpin] of other buffers, by any process); so a further [bget] for
    the same block, by whatever process, does not return: it counts its
    reference and goes to sleep on the content lock, which stays with the
    holder. *)
Theorem held_block_blocks_bget (w p q dev blockno : Z) (s : machine) (b : nat)
    (cs : list call) :
  wf s → cached dev blockno s b →
  b_lock (getbuf s b) = Some p → b_refcnt (getbuf s b) ≠ 0 →
  Forall (elsewhere dev blockno b) cs →
  ∃ s2, bget w q dev blockno (runs w cs s) = Sleeping b s2 ∧
        cached dev blockno s2 b ∧
        b_lock (getbuf s2 b) = Some p ∧
        b_refcnt (getbuf s2 b) = uint w (b_refcnt (getbuf s b) + 1).
Proof.
  intros Hwf Hc Hl Hr Hall.
  destruct (runs_keeps_entry w cs dev blockno b s Hwf Hc Hr Hall)
    as (Hwf1 & Hc1 & Hg1).
  set (s1 := runs w cs s) in *.
  destruct (bget_asks_for_entry w q dev blockno s1 Hwf1)
    as [[Hm _]|(b'' & s3 & Hb3 & _ & Hc3 & Hlen3 & _ & _ & _ & Hl3 & _ & _ & _ & Hhit)].
  { unfold miss in Hm. unfold cached in Hc1. congruence. }
  destruct (Hhit b Hc1) as [-> Hg3].
  rewrite Hb3. unfold acquiresleep. rewrite Hl3, Hg1, Hl.
  exists s3. split; [done|]. split; [done|].
  rewrite Hg3, Hg1. simpl. by rewrite Hl.
Qed.

Lemma held_block_blocks_bget_witness :
  ∃ s2, bget 32 2 1 1
          (runs 32 [Bread 3 1 2; Bwrite 3 1; Brelse 3 1; Bpin 2; Bget 4 1 14;
                    Bunpin 2] s_held)
        = Sleeping 0%nat s2 ∧
        cached 1 1 s2 0 ∧
        b_lock (getbuf s2 0) = Some 1 ∧
        b_refcnt (getbuf s2 0) = uint 32 (b_refcnt (getbuf s_held 0) + 1).
Proof.
  apply (held_block_blocks_bget 32 1 2 1 1 s_held 0).
  - apply s_held_wf.
  - by vm_compute.
  - by vm_compute.
  - by vm_compute.
  - repeat constructor; simpl; try (intros [_ ?]); done.
Defined.

(** In that run process 3 reads, writes and releases block 2 in buffer 1,
    and process 4 gets buffer 3 for block 14, which joins buffer 0 in the
    chain of shard 1 while buffer 2 is pinned. *)
Example s_held_run :
  chain (runs 32 [Bread 3 1 2; Bwrite 3 1; Brelse 3 1; Bpin 2; Bget 4 1 14;
                  Bunpin 2] s_held) 1 = [0%nat; 3%nat] ∧
  chain (runs 32 [Bread 3 1 2; Bwrite 3 1; Brelse 3 1; Bpin 2; Bget 4 1 14;
                  Bunpin 2] s_held) 2 = [1%nat].
Proof. by vm_compute. Qed.

(** ** Worked examples *)

(** From shard 0 the scan may lock shards 7 to 12, from shard 6 shards 1
    to 5. *)
Example can_lock_from_0 :
  can_lock 0 <$> bucket_ids = [0; 0; 0; 0; 0; 0; 0; 1; 1; 1; 1; 1; 1].
Proof. reflexivity. Qed.

Example can_lock_from_6 :
  can_lock 6 <$> bucket_ids = [0; 1; 1; 1; 1; 1; 0; 0; 0; 0; 0; 0; 0].
Proof. reflexivity. Qed.

(** The rule is one-directional: shard 0 is at forward distance 7 from
    shard 6 and still may not be locked from it. *)
Example can_lock_6_0 : can_lock 6 0 = 0 ∧ ring_distance 6 0 = 7.
Proof. split; reflexivity. Qed.

(** The target shard itself is never scanned. *)
Lemma target_not_scanned c : ¬ scanned c c.
Proof. intros [_ H%can_lock_cases]. lia. Qed.

(** [binit] clears no field but the locks: on the memory [m_stale] it
    leaves buffer 3 with its three references, its identity and its
    payload, and only frees its content lock. *)
Example binit_keeps_stale_fields :
  getbuf (binit 30 m_stale) 3 = mkbuf 1 2 13 None 3 8 [1; 2] ∧
  getbuf (binit 30 m_stale) 4 = buf0 ∧
  chain (binit 30 m_stale) 0 = seq 0 30.
Proof. by vm_compute. Qed.

(** After [binit], reading block 1 recycles buffer 0 out of shard 0. *)
Example boot_bread_1 :
  ∃ s', bread 32 1 1 1 s_boot = Done 0%nat s' ∧
        chain s' 1 = [0%nat] ∧ length (chain s' 0) = 29%nat ∧
        getbuf s' 0 = mkbuf 1 1 1 (Some 1) 1 0 [].
Proof. eexists. split; [vm_compute; reflexivity|]. by vm_compute. Qed.

(** A second request for the cached block is a hit on buffer 0. *)
Example s_idle_hit :
  ∃ s', bget 32 2 1 1 s_idle = Done 0%nat s' ∧
        getbuf s' 0 = mkbuf 1 1 1 (Some 2) 1 5 [].
Proof. eexists. split; [vm_compute; reflexivity|]. by vm_compute. Qed.

(** While process 1 holds buffer 0, process 2 asking for the same block
    goes to sleep on its content lock, with the reference taken. *)
Example s_held_sleeps :
  ∃ s', bget 32 2 1 1 s_held = Sleeping 0%nat s' ∧ b_refcnt (getbuf s' 0) = 2.
Proof. eexists. split; [vm_compute; reflexivity|]. by vm_compute. Qed.

(** [bunpin] on the idle buffer 0 leaves it with count [2^32 - 1]. *)
Example s_idle_bunpin : b_refcnt (getbuf (bunpin 32 0 s_idle) 0) = 4294967295.
Proof. reflexivity. Qed.

(** A buffer released at tick [0xffffffff] never beats the initial
    [min_tick]: it is the only unreferenced buffer the scan from shard 6
    sees, and the request panics. *)
Example stamp_uint_max_not_recycled :
  panics (bget 32 1 1 6
            (final_state (brelse 32 1 0
               (with_ticks UINT_MAX (final_state (bread 32 1 1 1 s_boot)))))).
Proof. eexists _, _. vm_compute. reflexivity. Qed.
